(** * deepint-external-source-mongo: query sanitizer, filter compiler,
      instance codec, data source and update service

    A shallow embedding of [src/utils/deepint-sources.ts], of the data source
    of [src/source.ts] (its constructor, its sanitizers, the rows it stores
    and reads, what it asks of the collection, its update service) and of
    the update controller.

    Conventions of the embedding.
    - A JavaScript string is a [string]; every [ascii] stands for one UTF-16
      code unit in the range 0..255.
    - A JavaScript number is a [number]: NaN, an infinity, or a finite decimal
      [Fin m e] standing for [m * 10^e] (the shortest decimal form of a double
      determines the double). One number may have several forms, such as
      [Fin 10 (-1)] and [Fin 1 0]; the functions below read them alike.
      Negative zero is not distinguished from zero.
    - A JavaScript value is a [value]; an object is the list of its own
      enumerable properties in [Object.keys] order. Properties inherited from
      [Object.prototype] and the like are not part of the model, except where
      the string conversion consults [toString].
    - A call that may raise returns a [Result].
    - The depth that [sanitizeQueryTree] takes is an integer; the default
      [depth || 0] of the source is the caller passing 0. *)

From Stdlib Require Import ZArith NArith List String Ascii Bool Lia DecimalString Sorted.
From Stdlib Require DecimalFacts DecimalPos DecimalN.
Import ListNotations.

Set Warnings "-register-all".

Local Open Scope string_scope.
Local Open Scope Z_scope.

(** ** Exceptions *)

Inductive Error : Type :=
| TypeError
| RangeError
| BackendError (reason : string).

Inductive Result (A : Type) : Type :=
| Ok (a : A)
| Throw (e : Error).

Arguments Ok {A} a.
Arguments Throw {A} e.

Definition bind {A B : Type} (r : Result A) (k : A -> Result B) : Result B :=
  match r with
  | Ok a => k a
  | Throw e => Throw e
  end.

Notation "x <- c ;; k" := (bind c (fun x => k))
  (at level 61, c at next level, right associativity).

(** [for (const x of l) out.push(f(x))]: left to right, the first exception
    aborts the loop. *)
Fixpoint mapM {A B : Type} (f : A -> Result B) (l : list A) : Result (list B) :=
  match l with
  | [] => Ok []
  | x :: rest =>
      y <- f x ;;
      ys <- mapM f rest ;;
      Ok (y :: ys)
  end.

Definition returns {A : Type} (r : Result A) : Prop := exists a, r = Ok a.

(** ** Strings *)

Fixpoint string_map (f : ascii -> ascii) (s : string) : string :=
  match s with
  | EmptyString => EmptyString
  | String c rest => String (f c) (string_map f rest)
  end.

Definition code (c : ascii) : N := N_of_ascii c.

(** The code unit 92, the backslash. *)
Definition backslash : ascii := ascii_of_N 92.

Definition between (lo hi : N) (n : N) : bool := ((lo <=? n) && (n <=? hi))%N.

(** [String.prototype.toLowerCase] on code units below 256. *)
Definition lower_char (c : ascii) : ascii :=
  let n := code c in
  if between 65 90 n || (between 192 222 n && negb (n =? 215)%N)
  then ascii_of_N (n + 32) else c.

Definition toLowerCase (s : string) : string := string_map lower_char s.

(** [s.substr(0, n)] *)
Definition substr0 (n : nat) (s : string) : string := substring 0 n s.

Definition includes (l : list string) (s : string) : bool :=
  existsb (String.eqb s) l.

Definition startsWith (s p : string) : bool := prefix p s.

(** ** Numbers *)

Inductive number : Type :=
| NaN
| Infinity (negative : bool)
| Fin (m e : Z).

Definition num_of_Z (z : Z) : number := Fin z 0.

Definition isNaN (n : number) : bool :=
  match n with NaN => true | _ => false end.

Definition is_zero (n : number) : bool :=
  match n with Fin 0 _ => true | _ => false end.

(** [Math.floor] *)
Definition Math_floor (n : number) : number :=
  match n with
  | Fin m e => if 0 <=? e then Fin m e else Fin (m / 10 ^ (- e)) 0
  | _ => n
  end.

(** Truncation towards zero of a finite number, [None] otherwise. *)
Definition truncate (n : number) : option Z :=
  match n with
  | Fin m e => Some (if 0 <=? e then m * 10 ^ e else Z.quot m (10 ^ (- e)))
  | _ => None
  end.

(** *** Number::toString *)

Definition decimal_of_N (n : N) : string := NilEmpty.string_of_uint (N.to_uint n).

Fixpoint strip_zeros (rev_digits : list ascii) : list ascii * Z :=
  match rev_digits with
  | "0"%char :: rest => let '(d, z) := strip_zeros rest in (d, z + 1)
  | _ => (rev_digits, 0)
  end.

Definition zeros (n : Z) : string :=
  string_of_list_ascii (repeat "0"%char (Z.to_nat n)).

Definition exponent_suffix (n : Z) : string :=
  "e" ++ (if 0 <=? n - 1 then "+" else "-") ++ decimal_of_N (Z.abs_N (n - 1)).

Definition Number_toString (x : number) : string :=
  match x with
  | NaN => "NaN"
  | Infinity false => "Infinity"
  | Infinity true => "-Infinity"
  | Fin 0 _ => "0"
  | Fin m e =>
      let sign := if m <? 0 then "-" else "" in
      let all := list_ascii_of_string (decimal_of_N (Z.abs_N m)) in
      let '(rd, z) := strip_zeros (rev all) in
      let digits := string_of_list_ascii (rev rd) in
      let k := Z.of_nat (String.length digits) in
      let n := k + e + z in
      let body :=
        if (k <=? n) && (n <=? 21) then digits ++ zeros (n - k)
        else if (0 <? n) && (n <=? 21) then
          substring 0 (Z.to_nat n) digits ++ "." ++
          substring (Z.to_nat n) (Z.to_nat (k - n)) digits
        else if (-6 <? n) && (n <=? 0) then "0." ++ zeros (- n) ++ digits
        else if k =? 1 then digits ++ exponent_suffix n
        else substring 0 1 digits ++ "." ++
             substring 1 (Z.to_nat (k - 1)) digits ++ exponent_suffix n
      in sign ++ body
  end.

(** *** StringToNumber, the grammar of StringNumericLiteral *)

(** WhiteSpace and LineTerminator code units below 256. *)
Definition is_space (c : ascii) : bool :=
  let n := code c in between 9 13 n || (n =? 32)%N || (n =? 160)%N.

Definition digit_val (base : N) (c : ascii) : option N :=
  let n := code c in
  let v := if between 48 57 n then Some (n - 48)%N
           else if between 97 102 n then Some (n - 87)%N
           else if between 65 70 n then Some (n - 55)%N
           else None in
  match v with
  | Some d => if (d <? base)%N then Some d else None
  | None => None
  end.

Fixpoint drop_spaces (l : list ascii) : list ascii :=
  match l with
  | c :: rest => if is_space c then drop_spaces rest else l
  | [] => []
  end.

Definition trim (l : list ascii) : list ascii :=
  rev (drop_spaces (rev (drop_spaces l))).

(** Reads the longest run of digits in [base]: its value, its length and the
    remaining input. *)
Fixpoint read_digits (base : N) (l : list ascii) (acc : N) (len : Z)
  : N * Z * list ascii :=
  match l with
  | c :: rest =>
      match digit_val base c with
      | Some d => read_digits base rest (acc * base + d)%N (len + 1)
      | None => (acc, len, l)
      end
  | [] => (acc, len, [])
  end.

Definition read_radix (base : N) (l : list ascii) : number :=
  match read_digits base l 0%N 0 with
  | (v, len, []) => if 0 <? len then Fin (Z.of_N v) 0 else NaN
  | _ => NaN
  end.

Definition read_exponent (l : list ascii) : option Z :=
  match l with
  | [] => Some 0
  | c :: rest =>
      if (c =? "e")%char || (c =? "E")%char then
        let '(neg, rest) :=
          match rest with
          | "-"%char :: r => (true, r)
          | "+"%char :: r => (false, r)
          | _ => (false, rest)
          end in
        match read_digits 10 rest 0%N 0 with
        | (v, len, []) =>
            if 0 <? len then Some (if neg then - Z.of_N v else Z.of_N v)
            else None
        | _ => None
        end
      else None
  end.

Definition read_unsigned (l : list ascii) : number :=
  if String.eqb (string_of_list_ascii l) "Infinity" then Infinity false else
  let '(ip, ilen, rest) := read_digits 10 l 0%N 0 in
  let '(fp, flen, rest) :=
    match rest with
    | "."%char :: r => read_digits 10 r ip 0
    | _ => (ip, 0, rest)
    end in
  if 0 <? ilen + flen then
    match read_exponent rest with
    | Some x => Fin (Z.of_N fp) (x - flen)
    | None => NaN
    end
  else NaN.

Definition negate_number (n : number) : number :=
  match n with
  | NaN => NaN
  | Infinity s => Infinity (negb s)
  | Fin m e => Fin (- m) e
  end.

Definition StringToNumber (s : string) : number :=
  match trim (list_ascii_of_string s) with
  | [] => Fin 0 0
  | "0"%char :: x :: rest =>
      if (x =? "x")%char || (x =? "X")%char then read_radix 16 rest
      else if (x =? "o")%char || (x =? "O")%char then read_radix 8 rest
      else if (x =? "b")%char || (x =? "B")%char then read_radix 2 rest
      else read_unsigned ("0"%char :: x :: rest)
  | "-"%char :: rest => negate_number (read_unsigned rest)
  | "+"%char :: rest => read_unsigned rest
  | l => read_unsigned l
  end.

(** ** Values *)

Inductive value : Type :=
| VUndefined
| VNull
| VBool (b : bool)
| VNum (n : number)
| VStr (s : string)
| VDate (tv : option Z)
| VRegExp (pattern flags : string)
| VArr (items : list value)
| VObj (props : list (string * value)).

(** A [Date] holds a time value: [Some t] milliseconds, or [None] for the
    invalid date. A [RegExp] holds the pattern and the flags it was built
    from. *)
Definition epoch : value := VDate (Some 0).

Definition typeof (v : value) : string :=
  match v with
  | VUndefined => "undefined"
  | VBool _ => "boolean"
  | VNum _ => "number"
  | VStr _ => "string"
  | VNull | VDate _ | VRegExp _ _ | VArr _ | VObj _ => "object"
  end.

Definition is_array (v : value) : bool :=
  match v with VArr _ => true | _ => false end.

(** *** Objects as property lists *)

Fixpoint lookup (k : string) (props : list (string * value)) : option value :=
  match props with
  | [] => None
  | (k', v) :: rest => if String.eqb k k' then Some v else lookup k rest
  end.

Definition has_own (k : string) (props : list (string * value)) : bool :=
  match lookup k props with Some _ => true | None => false end.

(** [o[k] = v]: an existing key keeps its place, a new key goes last. *)
Fixpoint assign (k : string) (v : value) (props : list (string * value))
  : list (string * value) :=
  match props with
  | [] => [(k, v)]
  | (k', v') :: rest =>
      if String.eqb k k' then (k, v) :: rest else (k', v') :: assign k v rest
  end.

(** [delete o[k]] *)
Fixpoint remove_key (k : string) (props : list (string * value))
  : list (string * value) :=
  match props with
  | [] => []
  | (k', v') :: rest =>
      if String.eqb k k' then remove_key k rest else (k', v') :: remove_key k rest
  end.

Definition keys (props : list (string * value)) : list string := map fst props.

Fixpoint index_lookup {A : Type} (k : string) (i : N) (items : list A) : option A :=
  match items with
  | [] => None
  | x :: rest =>
      if String.eqb k (decimal_of_N i) then Some x
      else index_lookup k (i + 1)%N rest
  end.

(** [v[k]] for a property name [k]. Reading a property of [null] or
    [undefined] raises a TypeError. *)
Definition get (v : value) (k : string) : Result value :=
  match v with
  | VUndefined | VNull => Throw TypeError
  | VObj props =>
      Ok (match lookup k props with Some x => x | None => VUndefined end)
  | VArr items =>
      if String.eqb k "length" then Ok (VNum (num_of_Z (Z.of_nat (List.length items))))
      else Ok (match index_lookup k 0%N items with
               | Some x => x
               | None => VUndefined
               end)
  | VStr s =>
      if String.eqb k "length" then Ok (VNum (num_of_Z (Z.of_nat (String.length s))))
      else Ok VUndefined
  | _ => Ok VUndefined
  end.

(** ** The parts of the host that ECMAScript leaves to the implementation *)

Record Engine : Type := {
  (** [Date.parse]: the time value of a date string, [None] for NaN. *)
  Date_parse : string -> option Z;
  (** [Date.prototype.toString], which depends on the local time zone. *)
  Date_toString : option Z -> string
}.

(** An engine for closed examples that involve no dates. *)
Definition plain_engine : Engine :=
  {| Date_parse := fun _ => None; Date_toString := fun _ => "Invalid Date" |}.

Section Conversions.

Variable engine : Engine.

(** *** ToString, as in [("" + v)]

    An ordinary object converts through [valueOf] and [toString]. The
    inherited [valueOf] returns the object itself, so the conversion falls to
    [toString]: the inherited one gives ["[object Object]"], while an own
    property [toString] that is not callable (no property of the model is)
    leaves no method and the conversion raises a TypeError. *)
Fixpoint ToString (v : value) : Result string :=
  match v with
  | VUndefined => Ok "undefined"
  | VNull => Ok "null"
  | VBool true => Ok "true"
  | VBool false => Ok "false"
  | VNum n => Ok (Number_toString n)
  | VStr s => Ok s
  | VDate tv => Ok (Date_toString engine tv)
  | VRegExp pattern flags => Ok ("/" ++ pattern ++ "/" ++ flags)
  | VArr items =>
      (* Array.prototype.join *)
      (fix join (l : list value) (first : bool) : Result string :=
         match l with
         | [] => Ok ""
         | x :: rest =>
             s <- match x with
                  | VUndefined | VNull => Ok ""
                  | _ => ToString x
                  end ;;
             t <- join rest false ;;
             Ok ((if first then "" else ",") ++ s ++ t)
         end) items true
  | VObj props =>
      if has_own "toString" props then Throw TypeError
      else Ok "[object Object]"
  end.

(** ToPrimitive with hint number, then ToNumber, as in [Number(v)] *)
Definition ToNumber (v : value) : Result number :=
  match v with
  | VUndefined => Ok NaN
  | VNull => Ok (Fin 0 0)
  | VBool true => Ok (Fin 1 0)
  | VBool false => Ok (Fin 0 0)
  | VNum n => Ok n
  | VStr s => Ok (StringToNumber s)
  | VDate (Some t) => Ok (Fin t 0)
  | VDate None => Ok NaN
  | VRegExp _ _ | VArr _ | VObj _ =>
      s <- ToString v ;;
      Ok (StringToNumber s)
  end.

(** ToBoolean, as in [!!v] *)
Definition ToBoolean (v : value) : bool :=
  match v with
  | VUndefined | VNull => false
  | VBool b => b
  | VNum n => negb (isNaN n || is_zero n)
  | VStr s => negb (String.eqb s "")
  | VDate _ | VRegExp _ _ | VArr _ | VObj _ => true
  end.

(** TimeClip *)
Definition TimeClip (n : number) : option Z :=
  match truncate n with
  | Some t => if Z.abs t <=? 8640000000000000 then Some t else None
  | None => None
  end.

(** The time value of [new Date(v)] *)
Definition Date_construct (v : value) : Result (option Z) :=
  match v with
  | VDate tv => Ok tv
  | VStr s => Ok (Date_parse engine s)
  | VRegExp _ _ | VArr _ | VObj _ =>
      s <- ToString v ;;
      Ok (Date_parse engine s)
  | _ =>
      n <- ToNumber v ;;
      Ok (TimeClip n)
  end.

(** [date.toISOString()] raises a RangeError on the invalid date. Only the
    fact that it returns matters to the caller. *)
Definition toISOString (tv : option Z) : Result unit :=
  match tv with
  | Some _ => Ok tt
  | None => Throw RangeError
  end.

End Conversions.

(** ** The query sanitizer ([sanitizeQueryTree]) *)

Definition QUERY_TREE_MAX_DEPH : Z := 4.
Definition QUERY_TREE_MAX_CHILDREN : nat := 16.

(** [right] is a string or [null]. *)
Inductive QueryTree : Type := {
  type : string;
  operation : string;
  left : number;
  right : option string;
  children : list QueryTree
}.

Definition query_types : list string := ["single"; "one"; "anyof"; "allof"; "not"].

Definition query_operations : list string :=
  ["null"; "eq"; "lt"; "le"; "lte"; "gt"; "ge"; "gte";
   "cn"; "cni"; "sw"; "swi"; "ew"; "ewi"].

(** [type in { anyof: 1, allof: 1, not: 1 }] *)
Definition is_combinator (t : string) : bool := includes ["anyof"; "allof"; "not"] t.

(** The node that the sanitizer starts from. *)
Definition default_tree : QueryTree :=
  {| type := "anyof"; operation := ""; left := Fin (-1) 0; right := Some "";
     children := [] |}.

Section Sanitizer.

Variable engine : Engine.

(** One call of [sanitizeQueryTree], with [self] for the recursive call. *)
Definition sanitize_node (self : value -> Z -> Result QueryTree)
  (tree : value) (depth : Z) : Result QueryTree :=
  if String.eqb (typeof tree) "object" then
    tree_type <- get tree "type" ;;
    type_text <- ToString engine tree_type ;;
    let type := toLowerCase type_text in
    let type := if negb (includes query_types type) then "anyof" else type in
    tree_operation <- get tree "operation" ;;
    operation_text <- ToString engine tree_operation ;;
    let operation := toLowerCase operation_text in
    let operation :=
      if negb (includes query_operations operation) then "" else operation in
    tree_left <- get tree "left" ;;
    let left :=
      match tree_left with
      | VNum n => Math_floor n
      | _ => Fin (-1) 0
      end in
    tree_right <- get tree "right" ;;
    right <- match tree_right with
             | VNull => Ok None
             | _ =>
                 right <- ToString engine tree_right ;;
                 Ok (Some (if (1024 <? String.length right)%nat
                           then substr0 1024 right else right))
             end ;;
    children <-
      (if (depth <? QUERY_TREE_MAX_DEPH) && is_combinator type
       then
         tree_children <- get tree "children" ;;
         match tree_children with
         | VArr items =>
             mapM (fun child => self child (depth + 1))
                  (firstn QUERY_TREE_MAX_CHILDREN items)
         | _ => Ok []
         end
       else Ok []) ;;
    Ok {| type := type; operation := operation; left := left;
          right := right; children := children |}
  else Ok default_tree.

(** The recursion goes one level down only while [depth < 4], so [4 - depth]
    bounds the number of nested calls. *)
Fixpoint sanitize_levels (levels : nat) (tree : value) (depth : Z)
  : Result QueryTree :=
  match levels with
  | O => sanitize_node (fun _ _ => Ok default_tree) tree depth
  | S n => sanitize_node (sanitize_levels n) tree depth
  end.

Definition sanitizeQueryTree (tree : value) (depth : Z) : Result QueryTree :=
  sanitize_levels (Z.to_nat (QUERY_TREE_MAX_DEPH - depth)) tree depth.

(** [DataSource.sanitizeFilter] *)
Definition sanitizeFilter (json : value) : Result (option QueryTree) :=
  if negb (ToBoolean json) then Ok None
  else
    t <- sanitizeQueryTree json 0 ;;
    Ok (Some t).

End Sanitizer.

(** The sanitized tree as the JavaScript object it is. *)
Fixpoint tree_value (t : QueryTree) : value :=
  VObj [("type", VStr (type t));
        ("operation", VStr (operation t));
        ("left", VNum (left t));
        ("right", match right t with Some s => VStr s | None => VNull end);
        ("children", VArr (map tree_value (children t)))].


(** ** The instance codec ([turnInto]) *)

Inductive FeatureType : Type := nominal | text | numeric | logic | date.

Module Feature.
Record t : Type := {
  index : Z;
  type : FeatureType;
  name : string
}.
End Feature.

(** [data === null || data === undefined] *)
Definition is_nullish (data : value) : bool :=
  match data with
  | VNull | VUndefined => true
  | _ => false
  end.

Section Codec.

Variable engine : Engine.

Definition turnInto (data : value) (type : FeatureType) : Result value :=
  match data with
  | VNull | VUndefined => Ok VNull
  | _ =>
      match type with
      | nominal =>
          s <- ToString engine data ;;
          Ok (VStr (substr0 255 s))
      | date =>
          match (tv <- Date_construct engine data ;;
                 _ <- toISOString tv ;;
                 Ok (VDate tv)) with
          | Ok d => Ok d
          | Throw _ => Ok (VDate (Some 0))
          end
      | numeric =>
          n <- ToNumber engine data ;;
          if isNaN n then Ok VNull else Ok (VNum n)
      | logic =>
          match data with
          | VStr s =>
              if String.eqb s "true" || String.eqb s "1" then Ok (VBool true)
              else if String.eqb s "false" || String.eqb s "0" then Ok (VBool false)
              else Ok (VBool (ToBoolean data))
          | _ => Ok (VBool (ToBoolean data))
          end
      | text =>
          s <- ToString engine data ;;
          Ok (VStr s)
      end
  end.

End Codec.

(** ** The filter compiler ([negateMongoQuery], [escapeRegExp], [toMongoFilter]) *)

Definition prop (query : list (string * value)) (key : string) : value :=
  match lookup key query with
  | Some x => x
  | None => VUndefined
  end.

Definition wrap_not (v : value) : value := VObj [("$not", v)].

Section Negation.

(** The recursive call, used by [query.$and.map(negateMongoQuery)]. *)
Variable self : value -> Result value.

(** The loop over [Object.keys(query)], taken before the loop starts; [query]
    is the object as the earlier iterations left it. [x.map] raises a
    TypeError unless [x] is an array. *)
Fixpoint negate_keys (ks : list string) (query : list (string * value))
  : Result value :=
  match ks with
  | [] => Ok (VObj query)
  | key :: rest =>
      if negb (startsWith key "$") then
        negate_keys rest (assign key (wrap_not (prop query key)) query)
      else if String.eqb key "$and" then
        match prop query "$and" with
        | VArr items =>
            negated <- mapM self items ;;
            negate_keys rest (remove_key "$and" (assign "$or" (VArr negated) query))
        | _ => Throw TypeError
        end
      else if String.eqb key "$or" then
        match prop query "$or" with
        | VArr items =>
            negated <- mapM self items ;;
            negate_keys rest (remove_key "$or" (assign "$and" (VArr negated) query))
        | _ => Throw TypeError
        end
      else if String.eqb key "$not" then Ok (prop query key)
      else negate_keys rest query
  end.

(** One call of [negateMongoQuery]. The keys of an array are its indices and
    none starts with a dollar; a string has its indices as keys and rejects
    the assignment in strict mode; the other values have no own keys. *)
Definition negate_query (query : value) : Result value :=
  match query with
  | VUndefined | VNull => Throw TypeError
  | VObj props => negate_keys (keys props) props
  | VArr items => Ok (VArr (map wrap_not items))
  | VStr s => if String.eqb s "" then Ok query else Throw TypeError
  | _ => Ok query
  end.

End Negation.

(** The nesting of arrays in a value bounds the nesting of the calls. *)
Fixpoint array_depth (v : value) : nat :=
  match v with
  | VArr items =>
      S ((fix deepest (l : list value) : nat :=
            match l with
            | [] => O
            | x :: rest => Nat.max (array_depth x) (deepest rest)
            end) items)
  | VObj props =>
      (fix deepest (l : list (string * value)) : nat :=
         match l with
         | [] => O
         | (_, x) :: rest => Nat.max (array_depth x) (deepest rest)
         end) props
  | _ => O
  end.

Fixpoint negate_levels (levels : nat) (query : value) : Result value :=
  match levels with
  | O => negate_query (fun _ => Throw RangeError) query
  | S n => negate_query (negate_levels n) query
  end.

Definition negateMongoQuery (query : value) : Result value :=
  negate_levels (array_depth query) query.

(** The class [[-[\]{}()*+?.,\\^$|#\s]] *)
Definition needs_escape (c : ascii) : bool :=
  existsb (Ascii.eqb c)
    ["-"; "["; "]"; "{"; "}"; "("; ")"; "*"; "+"; "?"; "."; ","; backslash; "^";
     "$"; "|"; "#"]%char
  || is_space c.

Fixpoint escape_chars (s : string) : string :=
  match s with
  | EmptyString => EmptyString
  | String c rest =>
      if needs_escape c then String backslash (String c (escape_chars rest))
      else String c (escape_chars rest)
  end.

(** [text.replace] is a method of strings only; on the other results of the
    codec (a number, a boolean, a date, null) the call raises a TypeError. *)
Definition escapeRegExp (text : value) : Result string :=
  match text with
  | VStr s => Ok (escape_chars s)
  | _ => Throw TypeError
  end.

Definition nullable_string (s : option string) : value :=
  match s with
  | Some x => VStr x
  | None => VNull
  end.

Definition is_null (s : option string) : bool :=
  match s with
  | Some _ => false
  | None => true
  end.

Section Compiler.

Variable engine : Engine.

Definition compare_with (feature : Feature.t) (operator : string) (cmp : value)
  : Result value :=
  Ok (VObj [(Feature.name feature, VObj [(operator, cmp)])]).

Definition match_with (feature : Feature.t) (before after flags : string)
  (cmp : value) : Result value :=
  escaped <- escapeRegExp cmp ;;
  Ok (VObj [(Feature.name feature,
             VObj [("$regex", VRegExp (before ++ escaped ++ after) flags)])]).

(** The default branch of the switch on [query.type]. *)
Definition leaf_filter (features : list Feature.t) (query : QueryTree)
  : Result value :=
  if negb (String.eqb (operation query) "null") && is_null (right query)
  then Ok (VObj [])
  else
    match index_lookup (Number_toString (left query)) 0%N features with
    | None => Ok (VObj [])
    | Some feature =>
        cmp <- turnInto engine (nullable_string (right query))
                        (Feature.type feature) ;;
        let op := operation query in
        if String.eqb op "null" then
          Ok (VObj [("$or", VArr [VObj [("$exists", VBool false)];
                                   VObj [("$eq", VNull)]])])
        else if String.eqb op "eq" then compare_with feature "$eq" cmp
        else if String.eqb op "lt" then compare_with feature "$lt" cmp
        else if String.eqb op "le" || String.eqb op "lte"
          then compare_with feature "$lte" cmp
        else if String.eqb op "gt" then compare_with feature "$gt" cmp
        else if String.eqb op "ge" || String.eqb op "gte"
          then compare_with feature "$gte" cmp
        else if String.eqb op "cn" then match_with feature "" "" "" cmp
        else if String.eqb op "cni" then match_with feature "" "" "i" cmp
        else if String.eqb op "sw" then match_with feature "^" "" "" cmp
        else if String.eqb op "swi" then match_with feature "^" "" "i" cmp
        else if String.eqb op "ew" then match_with feature "" "$" "" cmp
        else if String.eqb op "ewi" then match_with feature "" "$" "i" cmp
        else Ok (VObj [])
    end.

(** [toMongoFilter] on a tree; [query.children] holds trees only. *)
Fixpoint toMongoFilter (features : list Feature.t) (query : QueryTree)
  : Result value :=
  if String.eqb (type query) "anyof" then
    filters <- mapM (toMongoFilter features) (children query) ;;
    match filters with
    | [] => Ok (VObj [])
    | _ => Ok (VObj [("$or", VArr filters)])
    end
  else if String.eqb (type query) "allof" then
    filters <- mapM (toMongoFilter features) (children query) ;;
    match filters with
    | [] => Ok (VObj [])
    | _ => Ok (VObj [("$and", VArr filters)])
    end
  else if String.eqb (type query) "not" then
    nd <- mapM (toMongoFilter features) (children query) ;;
    match nd with
    | [] => Ok (VObj [])
    | _ => negateMongoQuery (VObj [("$and", VArr nd)])
    end
  else leaf_filter features query.

(** [toMongoFilter] on the filter of a request, which is [null] when the
    request has none ([if (!query) return {}]). *)
Definition toMongoFilter_of (features : list Feature.t) (query : option QueryTree)
  : Result value :=
  match query with
  | None => Ok (VObj [])
  | Some tree => toMongoFilter features tree
  end.

End Compiler.

(** ** Regular expressions

    The compiled filter hands a [RegExp] to the backend. To say what such a
    pattern matches, this section models ECMAScript patterns without the
    [u] flag: the syntax as a reader that goes through the pattern one code
    unit at a time, and the matching as the set of positions a term can
    reach. Constructs outside the fragment (backreferences, lookaround,
    named groups, [\x], [\u], [\c], a brace that is not a quantifier) make
    the reader answer [None]. *)

Inductive class_item : Type :=
| CChar (c : ascii)
| CRange (lo hi : ascii)
| CEscape (kind : ascii).

Inductive regex : Type :=
| Eps
| Chr (c : ascii)
| AnyChar
| Class (negated : bool) (items : list class_item)
| Bol
| Eol
| WordBoundary (negated : bool)
| Seq (a b : regex)
| Alt (a b : regex)
| Rep (min : nat) (max : option nat) (a : regex).

(** *** Reading a pattern *)

Inductive raw_item : Type :=
| RawChar (c : ascii)
| RawDash
| RawEscape (kind : ascii).

Inductive last_term : Type := NoTerm | AnAtom | AQuantifier.

Inductive reader_mode : Type :=
| Normal
| Escaped
| GroupOpen
| GroupQuestion
| ClassOpen
| InClass (negated : bool) (items : list raw_item) (escaped : bool)
| BraceMin (n : option nat)
| BraceMax (min : nat) (max : option nat).

Record frame : Type := {
  outer_done : list regex;
  outer_terms : list regex
}.

(** [done] and [terms] hold the finished alternatives and the terms of the
    current alternative, the latest first. *)
Record reader : Type := {
  stack : list frame;
  done : list regex;
  terms : list regex;
  last : last_term;
  mode : reader_mode
}.

Definition sequence (terms : list regex) : regex :=
  fold_left (fun acc t => Seq t acc) terms Eps.

Definition alternatives (done terms : list regex) : regex :=
  fold_left (fun acc a => Alt a acc) done (sequence terms).

Definition push_atom (r : reader) (a : regex) : reader :=
  {| stack := stack r; done := done r; terms := a :: terms r;
     last := AnAtom; mode := Normal |}.

Definition push_assertion (r : reader) (a : regex) : reader :=
  {| stack := stack r; done := done r; terms := a :: terms r;
     last := NoTerm; mode := Normal |}.

Definition with_mode (r : reader) (m : reader_mode) : reader :=
  {| stack := stack r; done := done r; terms := terms r;
     last := last r; mode := m |}.

Definition quantify (r : reader) (min : nat) (max : option nat) : option reader :=
  match last r, terms r with
  | AnAtom, t :: ts =>
      Some {| stack := stack r; done := done r; terms := Rep min max t :: ts;
              last := AQuantifier; mode := Normal |}
  | _, _ => None
  end.

Definition is_digit (c : ascii) : bool := between 48 57 (code c).

Definition is_word (c : ascii) : bool :=
  let n := code c in
  between 48 57 n || between 65 90 n || between 97 122 n || (n =? 95)%N.

Definition digit_of (c : ascii) : nat := N.to_nat (code c - 48).

Definition control_escape (c : ascii) : option ascii :=
  if (c =? "t")%char then Some (ascii_of_N 9)
  else if (c =? "n")%char then Some (ascii_of_N 10)
  else if (c =? "v")%char then Some (ascii_of_N 11)
  else if (c =? "f")%char then Some (ascii_of_N 12)
  else if (c =? "r")%char then Some (ascii_of_N 13)
  else if (c =? "0")%char then Some (ascii_of_N 0)
  else None.

Definition is_class_escape (c : ascii) : bool :=
  existsb (Ascii.eqb c) ["d"; "D"; "w"; "W"; "s"; "S"]%char.

Definition unsupported_escape (c : ascii) : bool :=
  between 49 57 (code c) || existsb (Ascii.eqb c) ["x"; "u"; "c"; "k"]%char.

(** The code unit after a backslash, outside a class. *)
Definition escaped_step (r : reader) (c : ascii) : option reader :=
  if is_class_escape c then Some (push_atom r (Class false [CEscape c]))
  else if (c =? "b")%char then Some (push_assertion r (WordBoundary false))
  else if (c =? "B")%char then Some (push_assertion r (WordBoundary true))
  else if unsupported_escape c then None
  else match control_escape c with
       | Some x => Some (push_atom r (Chr x))
       | None => Some (push_atom r (Chr c))
       end.

Definition normal_step (r : reader) (c : ascii) : option reader :=
  if (c =? backslash)%char then Some (with_mode r Escaped)
  else if (c =? "^")%char then Some (push_assertion r Bol)
  else if (c =? "$")%char then Some (push_assertion r Eol)
  else if (c =? ".")%char then Some (push_atom r AnyChar)
  else if (c =? "*")%char then quantify r 0 None
  else if (c =? "+")%char then quantify r 1 None
  else if (c =? "?")%char then
    match last r with
    | AQuantifier =>
        Some {| stack := stack r; done := done r; terms := terms r;
                last := NoTerm; mode := Normal |}
    | _ => quantify r 0 (Some 1%nat)
    end
  else if (c =? "(")%char then
    Some {| stack := {| outer_done := done r; outer_terms := terms r |} :: stack r;
            done := []; terms := []; last := NoTerm; mode := GroupOpen |}
  else if (c =? ")")%char then
    match stack r with
    | [] => None
    | f :: rest =>
        Some {| stack := rest; done := outer_done f;
                terms := alternatives (done r) (terms r) :: outer_terms f;
                last := AnAtom; mode := Normal |}
    end
  else if (c =? "|")%char then
    Some {| stack := stack r; done := sequence (terms r) :: done r; terms := [];
            last := NoTerm; mode := Normal |}
  else if (c =? "[")%char then Some (with_mode r ClassOpen)
  else if (c =? "{")%char then
    match last r with
    | AnAtom => Some (with_mode r (BraceMin None))
    | _ => None
    end
  else Some (push_atom r (Chr c)).

(** The items of a class, earliest first; [a-b] is a range. *)
Fixpoint class_items (raw : list raw_item) : option (list class_item) :=
  match raw with
  | [] => Some []
  | RawChar a :: RawDash :: RawChar b :: rest =>
      if (code a <=? code b)%N
      then option_map (cons (CRange a b)) (class_items rest)
      else None
  | RawChar a :: rest => option_map (cons (CChar a)) (class_items rest)
  | RawDash :: rest => option_map (cons (CChar "-")) (class_items rest)
  | RawEscape k :: rest => option_map (cons (CEscape k)) (class_items rest)
  end.

Definition class_step (r : reader) (negated : bool) (items : list raw_item)
  (escaped : bool) (c : ascii) : option reader :=
  if escaped then
    if is_class_escape c
    then Some (with_mode r (InClass negated (RawEscape c :: items) false))
    else if (c =? "b")%char
    then Some (with_mode r (InClass negated (RawChar (ascii_of_N 8) :: items) false))
    else if unsupported_escape c then None
    else match control_escape c with
         | Some x => Some (with_mode r (InClass negated (RawChar x :: items) false))
         | None => Some (with_mode r (InClass negated (RawChar c :: items) false))
         end
  else if (c =? backslash)%char then Some (with_mode r (InClass negated items true))
  else if (c =? "]")%char then
    match class_items (rev items) with
    | Some l => Some (push_atom r (Class negated l))
    | None => None
    end
  else if (c =? "-")%char
  then Some (with_mode r (InClass negated (RawDash :: items) false))
  else Some (with_mode r (InClass negated (RawChar c :: items) false)).

Definition more_digits (n : option nat) (c : ascii) : option nat :=
  Some (match n with
        | Some x => 10 * x + digit_of c
        | None => digit_of c
        end)%nat.

Definition read_step (r : reader) (c : ascii) : option reader :=
  match mode r with
  | Normal => normal_step r c
  | Escaped => escaped_step r c
  | GroupOpen =>
      if (c =? "?")%char then Some (with_mode r GroupQuestion)
      else normal_step (with_mode r Normal) c
  | GroupQuestion =>
      if (c =? ":")%char then Some (with_mode r Normal) else None
  | ClassOpen =>
      if (c =? "^")%char then Some (with_mode r (InClass true [] false))
      else class_step r false [] false c
  | InClass negated items escaped => class_step r negated items escaped c
  | BraceMin n =>
      if is_digit c then Some (with_mode r (BraceMin (more_digits n c)))
      else match n with
           | Some min =>
               if (c =? ",")%char then Some (with_mode r (BraceMax min None))
               else if (c =? "}")%char then quantify r min (Some min)
               else None
           | None => None
           end
  | BraceMax min max =>
      if is_digit c then Some (with_mode r (BraceMax min (more_digits max c)))
      else if (c =? "}")%char then
        match max with
        | Some m => if (m <? min)%nat then None else quantify r min max
        | None => quantify r min None
        end
      else None
  end.

Fixpoint read_all (r : reader) (pattern : list ascii) : option reader :=
  match pattern with
  | [] => Some r
  | c :: rest =>
      match read_step r c with
      | Some r' => read_all r' rest
      | None => None
      end
  end.

Definition reader_start : reader :=
  {| stack := []; done := []; terms := []; last := NoTerm; mode := Normal |}.

Definition read_end (r : reader) : option regex :=
  match mode r, stack r with
  | Normal, [] => Some (alternatives (done r) (terms r))
  | _, _ => None
  end.

Definition read_pattern (pattern : string) : option regex :=
  match read_all reader_start (list_ascii_of_string pattern) with
  | Some r => read_end r
  | None => None
  end.

(** *** Matching *)

(** Canonicalize of the [i] flag: the upper case of a code unit when that
    is again a single code unit below 256. *)
Definition canonicalize (c : ascii) : ascii :=
  let n := code c in
  if between 97 122 n || (between 224 254 n && negb (n =? 247)%N)
  then ascii_of_N (n - 32) else c.

Definition same_char (ignore_case : bool) (c d : ascii) : bool :=
  if ignore_case then Ascii.eqb (canonicalize c) (canonicalize d)
  else Ascii.eqb c d.

Definition class_escape_holds (kind d : ascii) : bool :=
  if (kind =? "d")%char then is_digit d
  else if (kind =? "D")%char then negb (is_digit d)
  else if (kind =? "w")%char then is_word d
  else if (kind =? "W")%char then negb (is_word d)
  else if (kind =? "s")%char then is_space d
  else negb (is_space d).

Definition in_range (lo hi d : ascii) : bool := between (code lo) (code hi) (code d).

Definition item_holds (ignore_case : bool) (i : class_item) (d : ascii) : bool :=
  match i with
  | CChar c => same_char ignore_case c d
  | CRange lo hi =>
      in_range lo hi d
      || (ignore_case && (in_range lo hi (canonicalize d)
                          || in_range lo hi (lower_char d)))
  | CEscape k => class_escape_holds k d
  end.

Definition is_line_end (c : ascii) : bool :=
  (code c =? 10)%N || (code c =? 13)%N.

(** A position in the subject: the code units before it, the nearest first,
    and the code units after it. *)
Definition position : Type := list ascii * list ascii.

Definition advance (p : position) : option (ascii * position) :=
  match snd p with
  | d :: rest => Some (d, (d :: fst p, rest))
  | [] => None
  end.

Definition consume (holds : ascii -> bool) (p : position) : list position :=
  match advance p with
  | Some (d, q) => if holds d then [q] else []
  | None => []
  end.

Definition word_before (p : position) : bool :=
  match fst p with c :: _ => is_word c | [] => false end.

Definition word_after (p : position) : bool :=
  match snd p with c :: _ => is_word c | [] => false end.

Definition dec (max : option nat) : option nat := option_map Nat.pred max.

(** The iterations beyond the minimum; an iteration that consumes nothing
    is not taken. *)
Fixpoint repeat_free (step : position -> list position) (max : option nat)
  (fuel : nat) (p : position) : list position :=
  match fuel, max with
  | O, _ => [p]
  | _, Some O => [p]
  | S fuel', _ =>
      p :: flat_map
             (fun q =>
                if (List.length (snd q) <? List.length (snd p))%nat
                then repeat_free step (dec max) fuel' q
                else [])
             (step p)
  end.

Fixpoint repeat_min (step : position -> list position) (min : nat)
  (max : option nat) (p : position) : list position :=
  match min with
  | O => repeat_free step max (List.length (snd p)) p
  | S min' => flat_map (repeat_min step min' (dec max)) (step p)
  end.

(** The positions where a match of [r] that starts at [p] can end. *)
Fixpoint match_from (ignore_case : bool) (r : regex) (p : position)
  : list position :=
  match r with
  | Eps => [p]
  | Chr c => consume (same_char ignore_case c) p
  | AnyChar => consume (fun d => negb (is_line_end d)) p
  | Class negated items =>
      consume (fun d => xorb negated (existsb (fun i => item_holds ignore_case i d) items)) p
  | Bol => match fst p with [] => [p] | _ => [] end
  | Eol => match snd p with [] => [p] | _ => [] end
  | WordBoundary negated =>
      if xorb negated (xorb (word_before p) (word_after p)) then [p] else []
  | Seq a b => flat_map (match_from ignore_case b) (match_from ignore_case a p)
  | Alt a b => match_from ignore_case a p ++ match_from ignore_case b p
  | Rep min max a => repeat_min (match_from ignore_case a) min max p
  end.

Definition matches_at (ignore_case : bool) (r : regex) (p : position) : bool :=
  match match_from ignore_case r p with
  | [] => false
  | _ => true
  end.

(** A match may start at any position of the subject. *)
Fixpoint search (ignore_case : bool) (r : regex) (before after : list ascii)
  : bool :=
  matches_at ignore_case r (before, after)
  || match after with
     | [] => false
     | d :: rest => search ignore_case r (d :: before) rest
     end.

Definition read_flags (flags : string) : option bool :=
  if String.eqb flags "" then Some false
  else if String.eqb flags "i" then Some true
  else None.

(** [new RegExp(pattern, flags).test(subject)], [None] outside the
    fragment. *)
Definition regex_test (pattern flags subject : string) : option bool :=
  match read_pattern pattern, read_flags flags with
  | Some r, Some ignore_case =>
      Some (search ignore_case r [] (list_ascii_of_string subject))
  | _, _ => None
  end.

(** ** What a compiled filter means

    The backend reads a filter as a predicate over documents: the keys of an
    object are taken together, [$and] and [$or] hold a non-empty array of
    filters, any other key that starts with a dollar is refused, and every
    other key names a field with its condition. A condition is an object of
    operators, among them [$not] with a nested condition, or a value to
    compare with. How one operator holds of one field of a document is left
    open: [holds field operator operand doc]. A filter that the backend
    refuses evaluates to [None]. *)

Definition field_operators : list string :=
  ["$eq"; "$ne"; "$lt"; "$lte"; "$gt"; "$gte"; "$regex"; "$exists"; "$in"; "$nin"].

Definition both (a b : option bool) : option bool :=
  match a, b with
  | Some x, Some y => Some (x && y)
  | _, _ => None
  end.

Definition either (a b : option bool) : option bool :=
  match a, b with
  | Some x, Some y => Some (x || y)
  | _, _ => None
  end.

Definition is_operator_doc (ops : list (string * value)) : bool :=
  match ops with
  | (k, _) :: _ => startsWith k "$"
  | [] => false
  end.

Section FilterSemantics.

Variable Doc : Type.
Variable holds : string -> string -> value -> Doc -> bool.

Fixpoint eval_condition (field : string) (c : value) (d : Doc) : option bool :=
  match c with
  | VObj ops =>
      if is_operator_doc ops then
        (fix every (l : list (string * value)) : option bool :=
           match l with
           | [] => Some true
           | (op, arg) :: rest =>
               both
                 (if String.eqb op "$not" then
                    match arg with
                    | VObj _ | VRegExp _ _ =>
                        option_map negb (eval_condition field arg d)
                    | _ => None
                    end
                  else if includes field_operators op
                  then Some (holds field op arg d)
                  else None)
                 (every rest)
           end) ops
      else Some (holds field "$eq" c d)
  | VRegExp _ _ => Some (holds field "$regex" c d)
  | _ => Some (holds field "$eq" c d)
  end.

Fixpoint eval_filter (q : value) (d : Doc) : option bool :=
  match q with
  | VObj props =>
      (fix every (l : list (string * value)) : option bool :=
         match l with
         | [] => Some true
         | (key, v) :: rest =>
             both
               (if String.eqb key "$and" then
                  match v with
                  | VArr (x :: items) =>
                      (fix all (l : list value) : option bool :=
                         match l with
                         | [] => Some true
                         | y :: more => both (eval_filter y d) (all more)
                         end) (x :: items)
                  | _ => None
                  end
                else if String.eqb key "$or" then
                  match v with
                  | VArr (x :: items) =>
                      (fix any (l : list value) : option bool :=
                         match l with
                         | [] => Some false
                         | y :: more => either (eval_filter y d) (any more)
                         end) (x :: items)
                  | _ => None
                  end
                else if startsWith key "$" then None
                else eval_condition key v d)
               (every rest)
         end) props
  | _ => None
  end.

End FilterSemantics.

(** ** The data source ([DataSource]) and the update controller *)

Definition DEEPINT_UPDATE_INSTANCES_LIMIT : nat := 100.

(** Modelled from the spec: [AsyncSemaphore] comes from the package
    [@asanrom/async-tools], which is not among the sources. The spec calls it
    a wake-up counter: [release] increments it, and the worker blocks in
    [acquire] until it is positive and then decrements it. *)
Definition AsyncSemaphore : Type := nat.

Definition release (sem : AsyncSemaphore) : AsyncSemaphore := S sem.

Definition acquire (sem : AsyncSemaphore) : option AsyncSemaphore :=
  match sem with
  | O => None
  | S n => Some n
  end.

Record DataSource : Type := {
  fields : list Feature.t;
  updateSem : AsyncSemaphore;
  updateQueue : list (list value);
  requiredUpdate : bool;
  closed : bool
}.

(** What the code asks of a cursor before it reads it. *)
Record Cursor : Type := {
  cursor_filter : value;
  cursor_sort : option (string * Z);
  cursor_projection : option (list string);
  cursor_limit : option nat
}.

(** The collection behind the MongoDB driver. *)
Record Backend (Store : Type) : Type := {
  connect : Store -> Result unit;
  insertMany : list value -> Store -> Result unit * Store;
  find : Cursor -> Store -> Result (list value)
}.

Arguments connect {Store} _ _.
Arguments insertMany {Store} _ _ _.
Arguments find {Store} _ _ _.

Section Source.

Variable engine : Engine.
Variable Store : Type.
Variable backend : Backend Store.

(** A method of the data source: it reads and writes the fields of the
    source and the collection, and may reject. What it wrote before it
    rejected stays written. *)
Definition Action (A : Type) : Type :=
  DataSource * Store -> Result A * (DataSource * Store).

Definition ret {A : Type} (a : A) : Action A := fun w => (Ok a, w).

Definition reject {A : Type} (e : Error) : Action A := fun w => (Throw e, w).

Definition and_then {A B : Type} (m : Action A) (k : A -> Action B) : Action B :=
  fun w =>
    match m w with
    | (Ok a, w') => k a w'
    | (Throw e, w') => (Throw e, w')
    end.

Notation "x <~ c ;; k" := (and_then c (fun x => k))
  (at level 61, c at next level, right associativity).

Definition lift {A : Type} (r : Result A) : Action A := fun w => (r, w).

Definition this : Action DataSource := fun w => (Ok (fst w), w).

Definition update (f : DataSource -> DataSource) : Action unit :=
  fun w => (Ok tt, (f (fst w), snd w)).

Definition await_connect : Action unit :=
  fun w => (connect backend (snd w), w).

Definition await_insertMany (docs : list value) : Action unit :=
  fun w =>
    let '(r, store') := insertMany backend docs (snd w) in (r, (fst w, store')).

Definition await_find (c : Cursor) : Action (list value) :=
  fun w => (find backend c (snd w), w).

(** [i[feature.index]] *)
Definition instance_at (i : list value) (index : Z) : value :=
  if index <? 0 then VUndefined else nth (Z.to_nat index) i VUndefined.

(** The row that [pushInstances] builds for one instance. *)
Definition mongo_row (features : list Feature.t) (i : list value) : value :=
  VObj (fold_left
          (fun row feature =>
             assign (Feature.name feature) (instance_at i (Feature.index feature)) row)
          features []).

(** [this.updateQueue.push(i)] *)
Definition queue_push (i : list value) (ds : DataSource) : DataSource :=
  {| fields := fields ds; updateSem := updateSem ds;
     updateQueue := updateQueue ds ++ [i];
     requiredUpdate := requiredUpdate ds; closed := closed ds |}.

(** [DataSource.pushInstances] *)
Definition pushInstances (instances : list (list value)) : Action unit :=
  ds <~ this ;;
  let mongoInstances := map (mongo_row (fields ds)) instances in
  _ <~ await_connect ;;
  _ <~ await_insertMany mongoInstances ;;
  update (fun ds => fold_left (fun ds i => queue_push i ds) instances ds).

(** [DataSource.noticeUpdate] *)
Definition noticeUpdate : Action unit :=
  update (fun ds =>
    {| fields := fields ds; updateSem := release (updateSem ds);
       updateQueue := updateQueue ds;
       requiredUpdate := true; closed := closed ds |}).

(** [DataSource.sanitizeInstances] *)
Definition sanitizeInstances (features : list Feature.t) (instances : value)
  : Result (list (list value)) :=
  match instances with
  | VArr rows =>
      mapM (fun i =>
              let row := if negb (String.eqb (typeof i) "object") then VObj [] else i in
              mapM (fun feature =>
                      cell <- get row (Feature.name feature) ;;
                      turnInto engine cell (Feature.type feature))
                   features)
           rows
  | _ => Ok []
  end.

(** [StatusController.pushInstances], the handler of [POST /update/push].
    [authorized] is the answer of [checkAuth], [body] the parsed body of the
    request; the result is the status of the response. *)
Definition StatusController_pushInstances (authorized : bool) (body : value)
  : Action Z :=
  if negb authorized then ret 401
  else
    ds <~ this ;;
    instances <~ lift (sanitizeInstances (fields ds)
                         (if ToBoolean body then body else VArr [])) ;;
    _ <~ pushInstances instances ;;
    _ <~ noticeUpdate ;;
    ret 200.

(** The first steps of one round of [runUpdateService]: the worker passes
    [acquire] only when the counter is positive, goes back to waiting when
    there is nothing to send, and otherwise takes up to 100 instances from
    the head of the queue. *)
Definition take_batch (ds : DataSource) : option (list (list value) * DataSource) :=
  match acquire (updateSem ds) with
  | None => None
  | Some sem =>
      if negb (requiredUpdate ds) && (List.length (updateQueue ds) =? 0)%nat
      then Some ([], {| fields := fields ds; updateSem := sem;
                        updateQueue := updateQueue ds;
                        requiredUpdate := requiredUpdate ds; closed := closed ds |})
      else Some (firstn DEEPINT_UPDATE_INSTANCES_LIMIT (updateQueue ds),
                 {| fields := fields ds; updateSem := sem;
                    updateQueue := skipn DEEPINT_UPDATE_INSTANCES_LIMIT (updateQueue ds);
                    requiredUpdate := false; closed := closed ds |})
  end.

(** [docs.filter(keep)] where [keep] may raise *)
Fixpoint filterM {A : Type} (keep : A -> Result bool) (l : list A)
  : Result (list A) :=
  match l with
  | [] => Ok []
  | x :: rest =>
      b <- keep x ;;
      kept <- filterM keep rest ;;
      Ok (if b then x :: kept else kept)
  end.

(** [DataSource.getNominalValues]; [query] is lower-cased and then not
    used. *)
Definition getNominalValues (filter : option QueryTree) (query : string)
  (feature : number) : Action (list string) :=
  ds <~ this ;;
  match index_lookup (Number_toString feature) 0%N (fields ds) with
  | None => ret []
  | Some f =>
      match Feature.type f with
      | nominal =>
          cond1 <~ lift (toMongoFilter_of engine (fields ds) filter) ;;
          let fieldName := Feature.name f in
          let query := toLowerCase (if String.eqb query "" then "" else query) in
          _ <~ await_connect ;;
          docs <~ await_find {| cursor_filter := cond1;
                                cursor_sort := Some (fieldName, 1);
                                cursor_projection := Some [fieldName];
                                cursor_limit := Some 128%nat |} ;;
          lift (kept <- filterM (fun doc =>
                                   v <- get doc fieldName ;;
                                   Ok (ToBoolean v)) docs ;;
                mapM (fun doc =>
                        v <- get doc fieldName ;;
                        ToString engine (if ToBoolean v then v else VStr ""))
                     kept)
      | _ => ret []
      end
  end.

End Source.

(** ** Measures of trees, used to state the bounds of the sanitizer *)

(** The depth of a sanitized tree: 0 for a node without children. *)
Fixpoint tree_depth (t : QueryTree) : nat :=
  match t with
  | Build_QueryTree _ _ _ _ ch =>
      (fix deepest (l : list QueryTree) : nat :=
         match l with
         | [] => O
         | c :: rest => Nat.max (S (tree_depth c)) (deepest rest)
         end) ch
  end.

(** Every node of [t], whose root lies at depth [d], lies at depth at most 4
    and has at most 16 children, and a node at depth 4 has none. *)
Fixpoint in_bounds (d : Z) (t : QueryTree) : bool :=
  match t with
  | Build_QueryTree _ _ _ _ ch =>
      (d <=? QUERY_TREE_MAX_DEPH)
      && (List.length ch <=? QUERY_TREE_MAX_CHILDREN)%nat
      && ((d <? QUERY_TREE_MAX_DEPH) || (List.length ch =? 0)%nat)
      && forallb (in_bounds (d + 1)) ch
  end.

(** The children of the node that a call returns: the sanitized forms, one
    level down, of the first 16 elements of the [children] array of the
    input when the input is an object, the call is above the depth bound and
    the node is a combinator, and none otherwise. *)
Definition kept_children (self : value -> Z -> Result QueryTree)
  (tree : value) (depth : Z) (t : QueryTree) : Prop :=
  if String.eqb (typeof tree) "object"
     && (depth <? QUERY_TREE_MAX_DEPH) && is_combinator (type t) then
    exists cv, get tree "children" = Ok cv
      /\ match cv with
         | VArr items =>
             mapM (fun child => self child (depth + 1))
                  (firstn QUERY_TREE_MAX_CHILDREN items) = Ok (children t)
         | _ => children t = []
         end
  else children t = [].

(** How deep the [children] arrays of an input are nested. *)
Fixpoint nesting (v : value) : nat :=
  match v with
  | VObj props =>
      (fix find (l : list (string * value)) : nat :=
         match l with
         | [] => O
         | (k, c) :: rest =>
             if String.eqb k "children" then
               match c with
               | VArr items =>
                   (fix deepest (l : list value) : nat :=
                      match l with
                      | [] => O
                      | x :: more => Nat.max (S (nesting x)) (deepest more)
                      end) items
               | _ => O
               end
             else find rest
         end) props
  | _ => O
  end.

(** [combinator_chain n v]: the input [v] is nested [n] levels deep along a
    path that the sanitizer follows: every node on it is an object whose
    [type] is a string that reads, in any case, anyof, allof or not, and the
    next node is among the first 16 elements of its [children] array. *)
Inductive combinator_chain : nat -> value -> Prop :=
| chain_end (v : value) : combinator_chain O v
| chain_step (n : nat) (props : list (string * value)) (s : string)
    (items : list value) (i : nat) (c : value) :
    lookup "type" props = Some (VStr s) ->
    is_combinator (toLowerCase s) = true ->
    lookup "children" props = Some (VArr items) ->
    nth_error items i = Some c ->
    (i < QUERY_TREE_MAX_CHILDREN)%nat ->
    combinator_chain n c ->
    combinator_chain (S n) (VObj props).

(** An input nested five levels deep below a node of type [single]. *)
Definition single_over_chain : value :=
  VObj [("type", VStr "single");
        ("children",
         VArr [VObj [("children",
           VArr [VObj [("children",
             VArr [VObj [("children",
               VArr [VObj [("children",
                 VArr [VObj []])]])]])]])]])].

(** An input nested five levels deep through nodes of type [anyof]. *)
Definition anyof_chain : value :=
  VObj [("type", VStr "anyof"); ("children",
    VArr [VObj [("type", VStr "AnyOf"); ("children",
      VArr [VObj [("type", VStr "allof"); ("children",
        VArr [VObj [("type", VStr "not"); ("children",
          VArr [VObj [("type", VStr "anyof"); ("children",
            VArr [VObj [("type", VStr "single")]])]])]])]])]])].

(** What the sanitizer makes of [anyof_chain]: the fifth level is cut. *)
Definition anyof_chain_sanitized : QueryTree :=
  {| type := "anyof"; operation := ""; left := Fin (-1) 0;
     right := Some "undefined"; children :=
  [{| type := "anyof"; operation := ""; left := Fin (-1) 0;
      right := Some "undefined"; children :=
   [{| type := "allof"; operation := ""; left := Fin (-1) 0;
       right := Some "undefined"; children :=
    [{| type := "not"; operation := ""; left := Fin (-1) 0;
        right := Some "undefined"; children :=
     [{| type := "anyof"; operation := ""; left := Fin (-1) 0;
         right := Some "undefined"; children := [] |}] |}] |}] |}] |}.

(** ** Inputs on which the conversions and the sanitizer return *)

(** The value has a string form: no object that the conversion reaches has
    an own property [toString]. *)
Fixpoint printable (v : value) : bool :=
  match v with
  | VObj props => negb (has_own "toString" props)
  | VArr items => forallb printable items
  | _ => true
  end.

(** The input has no [null] where the sanitizer expects a node, and the
    properties of its nodes have a string form. *)
Fixpoint tame (v : value) : bool :=
  match v with
  | VNull => false
  | VObj props =>
      forallb (fun p => printable (snd p)) props
      && (fix find (l : list (string * value)) : bool :=
            match l with
            | [] => true
            | (k, c) :: rest =>
                if String.eqb "children" k then
                  match c with
                  | VArr items => forallb tame items
                  | _ => true
                  end
                else find rest
            end) props
  | _ => true
  end.

Section ValueInduction.

Variable P : value -> Prop.

Hypothesis on_undefined : P VUndefined.
Hypothesis on_null : P VNull.
Hypothesis on_bool : forall b, P (VBool b).
Hypothesis on_num : forall n, P (VNum n).
Hypothesis on_str : forall s, P (VStr s).
Hypothesis on_date : forall tv, P (VDate tv).
Hypothesis on_regexp : forall p f, P (VRegExp p f).
Hypothesis on_arr : forall items, Forall P items -> P (VArr items).
Hypothesis on_obj :
  forall props, Forall (fun kv => P (snd kv)) props -> P (VObj props).

(** Induction over a value together with the values nested in it. *)
Fixpoint value_nested_ind (v : value) : P v :=
  match v with
  | VUndefined => on_undefined
  | VNull => on_null
  | VBool b => on_bool b
  | VNum n => on_num n
  | VStr s => on_str s
  | VDate tv => on_date tv
  | VRegExp p f => on_regexp p f
  | VArr items =>
      on_arr items
        ((fix all (l : list value) : Forall P l :=
            match l with
            | [] => Forall_nil P
            | x :: rest => Forall_cons x (value_nested_ind x) (all rest)
            end) items)
  | VObj props =>
      on_obj props
        ((fix all (l : list (string * value)) : Forall (fun kv => P (snd kv)) l :=
            match l with
            | [] => Forall_nil _
            | kv :: rest => Forall_cons kv (value_nested_ind (snd kv)) (all rest)
            end) props)
  end.

End ValueInduction.

(** ** Leaves and combinators, used to state what the compiler produces *)

Definition comparison_operations : list string :=
  ["eq"; "lt"; "le"; "lte"; "gt"; "ge"; "gte"].

Definition match_operations : list string :=
  ["cn"; "cni"; "sw"; "swi"; "ew"; "ewi"].

Definition holds_text (t : FeatureType) : bool :=
  match t with
  | nominal | text => true
  | _ => false
  end.

(** A valid leaf: its type is not a combinator, its right literal is not
    null, its left indexes a feature, and its operation is a comparison, or a
    string match on a feature that holds text. *)
Definition valid_leaf (features : list Feature.t) (q : QueryTree) : bool :=
  negb (is_combinator (type q))
  && negb (is_null (right q))
  && match index_lookup (Number_toString (left q)) 0%N features with
     | Some f =>
         includes comparison_operations (operation q)
         || (includes match_operations (operation q)
             && holds_text (Feature.type f))
     | None => false
     end.

(** The names of the features are field keys: none starts with a dollar,
    the mark of an operator. *)
Definition field_keys (features : list Feature.t) : bool :=
  forallb (fun f => negb (startsWith (Feature.name f) "$")) features.

(** Two compilations come out alike: both raise the same exception, or both
    return filters with the same truth value on every document, however the
    operators are read. *)
Definition same_outcome (r1 r2 : Result value) : Prop :=
  match r1, r2 with
  | Ok f1, Ok f2 =>
      forall (Doc : Type) (holds : string -> string -> value -> Doc -> bool)
             (d : Doc),
        eval_filter Doc holds f1 d = eval_filter Doc holds f2 d
  | Throw e1, Throw e2 => e1 = e2
  | _, _ => False
  end.

(** A node of the given type over the given children. *)
Definition combine (ty : string) (ch : list QueryTree) : QueryTree :=
  {| type := ty; operation := ""; left := Fin (-1) 0; right := Some "";
     children := ch |}.

(** The filter of one operator on one field. *)
Definition atom (field operator : string) (operand : value) : value :=
  VObj [(field, VObj [(operator, operand)])].

(** The recursive call of a given number of levels of [negateMongoQuery]. *)
Definition negate_self (n : nat) : value -> Result value :=
  match n with
  | O => fun _ => Throw RangeError
  | S m => negate_levels m
  end.

(** Two recursive calls agree, and do not deepen their argument, on the
    arguments nested less than [d]. *)
Definition agree_below (d : nat) (f g : value -> Result value) : Prop :=
  forall x, (array_depth x < d)%nat ->
    f x = g x /\ (forall r, f x = Ok r -> (array_depth r <= array_depth x)%nat).

(** ** Literal matching, used to state what a compiled pattern matches *)

(** The pattern that matches the code units of [s] one after the other,
    from the start of the subject when [start] is set and to its end when
    [finish] is set. *)
Definition anchored_literal (start finish : bool) (s : list ascii) : regex :=
  fold_right Seq Eps
    ((if start then [Bol] else []) ++ map Chr s ++ (if finish then [Eol] else [])).

Definition fold_case (ignore_case : bool) (s : string) : string :=
  if ignore_case then string_map canonicalize s else s.

(** [literal] occurs in [subject]: somewhere, or at its start, or at its
    end, up to the case of the letters when [ignore_case] is set. *)
Definition occurs (start finish ignore_case : bool) (literal subject : string)
  : Prop :=
  exists before found after,
    subject = before ++ found ++ after
    /\ fold_case ignore_case found = fold_case ignore_case literal
    /\ (start = true -> before = "")
    /\ (finish = true -> after = "").

(** The shape of the pattern of a string-match operation: anchored at the
    start, anchored at the end, ignoring case. *)
Definition match_shape (operation : string) : option (bool * bool * bool) :=
  if String.eqb operation "cn" then Some (false, false, false)
  else if String.eqb operation "cni" then Some (false, false, true)
  else if String.eqb operation "sw" then Some (true, false, false)
  else if String.eqb operation "swi" then Some (true, false, true)
  else if String.eqb operation "ew" then Some (false, true, false)
  else if String.eqb operation "ewi" then Some (false, true, true)
  else None.

(** The literal that reaches the pattern: the codec cuts a nominal literal
    to its first 255 code units and leaves a text literal as it is. *)
Definition coerced_literal (t : FeatureType) (s : string) : string :=
  match t with
  | nominal => substr0 255 s
  | _ => s
  end.

Definition chars_agree (ignore_case : bool) (s u : list ascii) : Prop :=
  Forall2 (fun c d => same_char ignore_case c d = true) s u.

(** A literal of 256 code units, and its first 255. *)
Definition long_literal : string :=
  string_of_list_ascii (repeat "a"%char 255) ++ "b".

Definition long_literal_cut : string :=
  string_of_list_ascii (repeat "a"%char 255).

Definition species_schema : list Feature.t :=
  [{| Feature.index := 0; Feature.type := numeric; Feature.name := "sepalLength" |};
   {| Feature.index := 1; Feature.type := nominal; Feature.name := "species" |}].

Definition leaf (operation : string) (left : Z) (right : option string)
  : QueryTree :=
  {| type := "single"; operation := operation; left := Fin left 0;
     right := right; children := [] |}.

(** What a leaf with the operation null compiles to. *)
Definition null_filter : value :=
  VObj [("$or", VArr [VObj [("$exists", VBool false)]; VObj [("$eq", VNull)]])].

(** ** Statements about the data source *)




(** A collection held as a list. It serves the examples where every document
    matches the filter and the list is already in the order of the cursor:
    [find] returns the documents up to the limit. *)
Definition listed : Backend (list value) :=
  {| connect := fun _ => Ok tt;
     insertMany := fun docs st => (Ok tt, (st ++ docs)%list);
     find := fun c st =>
       Ok (match cursor_limit c with
           | Some n => firstn n st
           | None => st
           end) |}.

(** A backend whose insert fails. *)
Definition failing : Backend (list value) :=
  {| connect := fun _ => Ok tt;
     insertMany := fun docs st => (Throw (BackendError "insert failed"), st);
     find := fun c st => Ok [] |}.

Definition iris_source : DataSource :=
  {| fields := species_schema; updateSem := O; updateQueue := [];
     requiredUpdate := false; closed := false |}.


(** The data source after [instances] went to the tail of the queue. *)
Definition enqueued (instances : list (list value)) (ds : DataSource) : DataSource :=
  {| fields := fields ds; updateSem := updateSem ds;
     updateQueue := (updateQueue ds ++ instances)%list;
     requiredUpdate := requiredUpdate ds; closed := closed ds |}.

(** The data source after a notice. *)
Definition noticed (ds : DataSource) : DataSource :=
  {| fields := fields ds; updateSem := S (updateSem ds);
     updateQueue := updateQueue ds;
     requiredUpdate := true; closed := closed ds |}.

(** A schema whose only feature is named like an operator. *)
Definition operator_schema : list Feature.t :=
  [{| Feature.index := 0; Feature.type := numeric; Feature.name := "$and" |}].

(** ** Canonical trees and typed values *)

(** What [Math.floor] returns: a number with no fraction digits, or one that
    is not finite. *)
Definition floored (n : number) : bool :=
  match n with
  | Fin _ e => 0 <=? e
  | _ => true
  end.

(** Every node of the tree has one of the five types, one of the fourteen
    operations or none, a floored left index, a right literal of at most
    1024 code units or null, and children only when it is a combinator. *)
Fixpoint canonical (t : QueryTree) : bool :=
  match t with
  | Build_QueryTree ty op lf rt ch =>
      includes query_types ty
      && (String.eqb op "" || includes query_operations op)
      && floored lf
      && match rt with
         | Some s => (String.length s <=? 1024)%nat
         | None => true
         end
      && (is_combinator ty || (List.length ch =? 0)%nat)
      && forallb canonical ch
  end.

(** The values of a feature of the given type: null, or a string of at most
    255 code units for nominal, any string for text, a number other than NaN
    for numeric, a boolean for logic, a valid date for date. *)
Definition typed (ty : FeatureType) (v : value) : bool :=
  match v with
  | VNull => true
  | VStr s =>
      match ty with
      | nominal => (String.length s <=? 255)%nat
      | text => true
      | _ => false
      end
  | VNum n =>
      match ty with
      | numeric => negb (isNaN n)
      | _ => false
      end
  | VBool _ =>
      match ty with
      | logic => true
      | _ => false
      end
  | VDate (Some _) =>
      match ty with
      | date => true
      | _ => false
      end
  | _ => false
  end.

Section TreeInduction.

Variable P : QueryTree -> Prop.

Hypothesis on_node :
  forall ty op lf rt ch, Forall P ch -> P (Build_QueryTree ty op lf rt ch).

(** Induction over a tree together with its children. *)
Fixpoint tree_nested_ind (t : QueryTree) : P t :=
  match t with
  | Build_QueryTree ty op lf rt ch =>
      on_node ty op lf rt ch
        ((fix all (l : list QueryTree) : Forall P l :=
            match l with
            | [] => Forall_nil P
            | c :: rest => Forall_cons c (tree_nested_ind c) (all rest)
            end) ch)
  end.

End TreeInduction.

(** ** The shapes of the filters that the compiler builds *)

(** A filter that [negateMongoQuery] takes apart without raising: the empty
    filter, [$and] or [$or] over an array of such filters, or one key other
    than [$not]. *)
Fixpoint negatable (f : value) : bool :=
  match f with
  | VObj [] => true
  | VObj [(k, c)] =>
      if String.eqb k "$and" || String.eqb k "$or" then
        match c with
        | VArr items => forallb negatable items
        | _ => false
        end
      else negb (String.eqb k "$not")
  | _ => false
  end.

(** A condition on a field: one operator, under any number of [$not]. *)
Fixpoint plain_condition (c : value) : bool :=
  match c with
  | VObj [(op, x)] =>
      if String.eqb op "$not" then plain_condition x
      else includes field_operators op
  | _ => false
  end.

(** A filter built from conditions on fields with [$and] and [$or] over
    non-empty arrays. *)
Fixpoint plain (f : value) : bool :=
  match f with
  | VObj [(k, c)] =>
      if String.eqb k "$and" || String.eqb k "$or" then
        match c with
        | VArr (x :: items) => plain x && forallb plain items
        | _ => false
        end
      else negb (startsWith k "$") && plain_condition c
  | _ => false
  end.

(** A filter without a condition: the empty filter, or [$and] or [$or] over
    a non-empty array of such filters. *)
Fixpoint vacuous (f : value) : bool :=
  match f with
  | VObj [] => true
  | VObj [(k, c)] =>
      (String.eqb k "$and" || String.eqb k "$or")
      && match c with
         | VArr (x :: items) => vacuous x && forallb vacuous items
         | _ => false
         end
  | _ => false
  end.

(** The conjunction and the disjunction of the values of a list of
    filters. *)
Definition all_of (l : list (option bool)) : option bool :=
  fold_right both (Some true) l.

Definition any_of (l : list (option bool)) : option bool :=
  fold_right either (Some false) l.

(** ** Trees by what the compiler makes of their leaves *)

(** A leaf that the compiler drops: its right literal is null under an
    operation other than null, or its left indexes no feature, or its
    operation is none of the fourteen. *)
Definition dropped (features : list Feature.t) (q : QueryTree) : bool :=
  negb (is_combinator (type q))
  && ((negb (String.eqb (operation q) "null") && is_null (right q))
      || match index_lookup (Number_toString (left q)) 0%N features with
         | None => true
         | Some _ => negb (includes query_operations (operation q))
         end).

(** A tree all of whose leaves are dropped. *)
Fixpoint hollow (features : list Feature.t) (q : QueryTree) : bool :=
  match q with
  | Build_QueryTree ty op lf rt ch =>
      if is_combinator ty then forallb (hollow features) ch
      else dropped features (Build_QueryTree ty op lf rt ch)
  end.

(** A tree all of whose leaves are valid and all of whose combinators have
    children. *)
Fixpoint solid (features : list Feature.t) (q : QueryTree) : bool :=
  match q with
  | Build_QueryTree ty op lf rt ch =>
      if is_combinator ty then
        negb (List.length ch =? 0)%nat && forallb (solid features) ch
      else valid_leaf features (Build_QueryTree ty op lf rt ch)
  end.

(** A leaf on which the compiler raises: a string match with a literal on a
    feature that holds no text, so that the codec hands [escapeRegExp] a
    number, a boolean, a date or null. The tree has such a leaf where the
    compiler visits: below combinators only. *)
Definition raising_leaf (features : list Feature.t) (q : QueryTree) : bool :=
  includes match_operations (operation q)
  && negb (is_null (right q))
  && match index_lookup (Number_toString (left q)) 0%N features with
     | Some f => negb (holds_text (Feature.type f))
     | None => false
     end.

Fixpoint raising (features : list Feature.t) (q : QueryTree) : bool :=
  match q with
  | Build_QueryTree ty op lf rt ch =>
      if is_combinator ty then existsb (raising features) ch
      else raising_leaf features (Build_QueryTree ty op lf rt ch)
  end.

(** The call returns, or raises a TypeError. *)
Definition only_TypeError {A : Type} (r : Result A) : Prop :=
  match r with
  | Ok _ => True
  | Throw e => e = TypeError
  end.

(** The outcome of the compiler on a tree: it raises a TypeError, or it
    returns a filter that the negation takes apart. *)
Definition compiles_or_raises (raises : bool) (r : Result value) : Prop :=
  if raises then r = Throw TypeError
  else exists f, r = Ok f /\ negatable f = true.

Section Meaning.

Variable engine : Engine.
Variable features : list Feature.t.
Variable Doc : Type.
Variable holds : string -> string -> value -> Doc -> bool.

(** The condition of a leaf: the one operator on one field that the leaf
    compiles to. *)
Definition leaf_holds (q : QueryTree) (d : Doc) : bool :=
  match toMongoFilter engine features q with
  | Ok (VObj [(field, VObj [(operator, operand)])]) => holds field operator operand d
  | _ => true
  end.

(** What a tree says of a document: [anyof] holds when a child holds,
    [allof] when every child holds, [not] when not every child holds. *)
Fixpoint meaning (q : QueryTree) (d : Doc) : bool :=
  match q with
  | Build_QueryTree ty op lf rt ch =>
      if String.eqb ty "anyof" then existsb (fun c => meaning c d) ch
      else if String.eqb ty "allof" then forallb (fun c => meaning c d) ch
      else if String.eqb ty "not" then negb (forallb (fun c => meaning c d) ch)
      else leaf_holds (Build_QueryTree ty op lf rt ch) d
  end.

End Meaning.

(** A tree over the species schema: sepalLength below 5, or not a species
    that contains "set" or ends in "a". *)
Definition species_tree : QueryTree :=
  combine "anyof"
    [leaf "lt" 0 (Some "5");
     combine "not" [combine "anyof" [leaf "cn" 1 (Some "set");
                                     leaf "ew" 1 (Some "a")]]].

(** ** The rest of the data source *)

(** The type that a configured string stands for. The configuration is not
    checked against the five types; [turnInto] and [getNominalValues] read
    every other string as they read ["text"]. *)
Definition feature_type_of (s : string) : FeatureType :=
  if String.eqb s "nominal" then nominal
  else if String.eqb s "numeric" then numeric
  else if String.eqb s "logic" then logic
  else if String.eqb s "date" then date
  else text.

(** [sourceFeatures.map((f, i) => ({ index: i, name: f,
    type: sourceFeaturesTypes[i] || "text" }))], from the index [i] on. *)
Fixpoint make_fields (i : Z) (sourceFeatures sourceFeaturesTypes : list string)
  : list Feature.t :=
  match sourceFeatures with
  | [] => []
  | f :: rest =>
      {| Feature.index := i;
         Feature.name := f;
         Feature.type :=
           feature_type_of
             match sourceFeaturesTypes with
             | t :: _ => if String.eqb t "" then "text" else t
             | [] => "text"
             end |}
      :: make_fields (i + 1) rest (tl sourceFeaturesTypes)
  end.

(** The constructor of [DataSource], from the feature names and the feature
    types of the configuration. *)
Definition DataSource_new (sourceFeatures sourceFeaturesTypes : list string)
  : DataSource :=
  {| fields := make_fields 0 sourceFeatures sourceFeaturesTypes;
     updateSem := O;
     updateQueue := [];
     requiredUpdate := false;
     closed := false |}.

(** [s.split(sep)] for a separator of one code unit *)
Fixpoint split_on (sep : ascii) (s : string) : list string :=
  match s with
  | EmptyString => [""]
  | String c rest =>
      match split_on sep rest with
      | piece :: pieces =>
          if Ascii.eqb c sep then "" :: piece :: pieces
          else String c piece :: pieces
      | [] => [String c ""]
      end
  end.

(** [parseInt(s, 10)]: leading white space is skipped, one sign is read, then
    the longest run of decimal digits; NaN when there is no digit. The value
    is exact: the rounding of integers beyond 2^53 is not modelled. *)
Definition parseInt10 (s : string) : number :=
  let l := drop_spaces (list_ascii_of_string s) in
  let '(negative, l) :=
    match l with
    | "-"%char :: r => (true, r)
    | "+"%char :: r => (false, r)
    | _ => (false, l)
    end in
  match read_digits 10 l 0%N 0 with
  | (v, len, _) =>
      if 0 <? len then Fin (if negative then - Z.of_N v else Z.of_N v) 0 else NaN
  end.

(** [a < 0], [a >= 0] and [a > 0] for a number [a] *)
Definition below_zero (a : number) : bool :=
  match a with
  | NaN => false
  | Infinity negative => negative
  | Fin m _ => m <? 0
  end.

Definition at_least_zero (a : number) : bool :=
  match a with
  | NaN => false
  | Infinity negative => negb negative
  | Fin m _ => 0 <=? m
  end.

Definition above_zero (a : number) : bool :=
  match a with
  | NaN => false
  | Infinity negative => negb negative
  | Fin m _ => 0 <? m
  end.

(** [this.fields[a]] for a number [a] *)
Definition field_at (fields : list Feature.t) (a : number) : option Feature.t :=
  index_lookup (Number_toString a) 0%N fields.

(** [DataSource.sanitizeProjection]; [None] stands for a projection that is
    undefined or null. *)
Definition sanitizeProjection (fields : list Feature.t) (projection : option string)
  : list number :=
  match projection with
  | None => []
  | Some p =>
      if String.eqb p "" then []
      else
        filter (fun a =>
                  if isNaN a || below_zero a then false
                  else match field_at fields a with
                       | Some _ => true
                       | None => false
                       end)
               (map parseInt10 (split_on ","%char p))
  end.

Section Query.

Variable engine : Engine.

(** The loop of [query] and of [sanitizeInstances] over the features: one
    value per feature, read from the row by the name of the feature. *)
Definition decode_row (features : list Feature.t) (row : value)
  : Result (list value) :=
  mapM (fun feature =>
          cell <- get row (Feature.name feature) ;;
          turnInto engine cell (Feature.type feature))
       features.

(** What [query] asks of the collection. *)
Record FindOptions : Type := {
  find_filter : value;
  find_sort : option (string * Z);
  find_projection : option (list (string * value));
  find_skip : option number;
  find_limit : option number
}.

(** The loop of [query] over a projection: the features it keeps, in the
    order of the projection, and the object of their names. *)
Fixpoint project (fields : list Feature.t) (projection : list number)
  (mongoProjection : list (string * value)) (features : list Feature.t)
  : list (string * value) * list Feature.t :=
  match projection with
  | [] => (mongoProjection, features)
  | f :: rest =>
      match field_at fields f with
      | Some feature =>
          project fields rest
            (assign (Feature.name feature) (VNum (Fin 1 0)) mongoProjection)
            (features ++ [feature])%list
      | None => project fields rest mongoProjection features
      end
  end.

(** [DataSource.query] up to the point where it opens the stream: the
    features that it hands to [onStart] and what it asks of the collection.
    A filter, a skip, a limit or a projection that is [null] is [None]. *)
Definition query_plan (fields : list Feature.t) (filter : option QueryTree)
  (order : number) (dir : string) (skip limit : option number)
  (projection : option (list number))
  : Result (list Feature.t * FindOptions) :=
  let '(mongoProjection, features) :=
    match projection with
    | Some (f :: rest) =>
        let '(p, fs) := project fields (f :: rest) [] [] in (Some p, fs)
    | _ => (None, fields)
    end in
  let mongoSort :=
    if at_least_zero order then
      match field_at fields order with
      | Some feature =>
          Some (Feature.name feature, if String.eqb dir "desc" then -1 else 1)
      | None => None
      end
    else None in
  cond1 <- toMongoFilter_of engine fields filter ;;
  Ok (features,
      {| find_filter := cond1;
         find_sort := mongoSort;
         find_projection := mongoProjection;
         find_skip := match skip with
                      | Some n => if above_zero n then Some n else None
                      | None => None
                      end;
         find_limit := match limit with
                       | Some n => if above_zero n then Some n else None
                       | None => None
                       end |}).

End Query.

Section Controller.

Variable Store : Type.

(** [StatusController.noticeUpdate], the handler of [POST /update/notice];
    the result is the status of the response. *)
Definition StatusController_noticeUpdate (authorized : bool) : Action Store Z :=
  if negb authorized then ret Store 401
  else and_then Store (noticeUpdate Store) (fun _ => ret Store 200).

End Controller.

(** ** The update service ([runUpdateService])

    The service runs beside the handlers of the requests. It gives way at
    each [await]: in [acquire], while a POST is under way, and during the
    pause of five seconds after a POST that failed. Between two such points
    it runs alone. The service is therefore a machine that moves on events:
    a handler enqueued instances, a handler noticed an update, the pending
    [await] of the service was resumed, the remote end replied. *)

(** Modelled from the spec: [Request.post] comes from [utils/request],
    which is not among the sources. Its callback receives an error, or a
    response with a status code. *)
Inductive Reply : Type :=
| Failed (err : Error)
| Answered (statusCode : Z).

(** [sendInstancesToDeepIntelligence], given the reply to its POST: it
    rejects with the error, or with an error that names the status code when
    the code is not 200, and resolves otherwise. *)
Definition sendInstancesToDeepIntelligence (reply : Reply) : Result unit :=
  match reply with
  | Failed err => Throw err
  | Answered statusCode =>
      if negb (statusCode =? 200)
      then Throw (BackendError ("Status code: " ++ Number_toString (Fin statusCode 0)))
      else Ok tt
  end.

(** Where the service waits. *)
Inductive Phase : Type :=
| Acquiring
| Posting (instancesToPush : list (list value))
| Pausing (instancesToPush : list (list value))
| Ended.

(** The data source, where the service waits, the bodies of the POSTs that
    it made and the bodies of those that were accepted, oldest first. *)
Record Service : Type := {
  source : DataSource;
  phase : Phase;
  posted : list (list (list value));
  accepted : list (list (list value))
}.

Inductive Event : Type :=
| Pushed (instances : list (list value))
| Noticed
| Resumed
| Replied (reply : Reply).

(** [while (!this.closed) { await this.updateSem.acquire(); ... *)
Definition enter_loop (ds : DataSource) : Phase :=
  if closed ds then Ended else Acquiring.

Definition runUpdateService (ds : DataSource) : Service :=
  {| source := ds; phase := enter_loop ds; posted := []; accepted := [] |}.

Definition service_step (sv : Service) (ev : Event) : Service :=
  let ds := source sv in
  match ev with
  | Pushed instances =>
      {| source := enqueued instances ds; phase := phase sv;
         posted := posted sv; accepted := accepted sv |}
  | Noticed =>
      {| source := noticed ds; phase := phase sv;
         posted := posted sv; accepted := accepted sv |}
  | Resumed =>
      match phase sv with
      | Acquiring =>
          match acquire (updateSem ds) with
          | None => sv
          | Some sem =>
              if negb (requiredUpdate ds) && (List.length (updateQueue ds) =? 0)%nat
              then
                {| source := {| fields := fields ds; updateSem := sem;
                                updateQueue := updateQueue ds;
                                requiredUpdate := requiredUpdate ds;
                                closed := closed ds |};
                   phase := enter_loop ds;
                   posted := posted sv; accepted := accepted sv |}
              else
                let instancesToPush :=
                  firstn DEEPINT_UPDATE_INSTANCES_LIMIT (updateQueue ds) in
                {| source := {| fields := fields ds; updateSem := sem;
                                updateQueue :=
                                  skipn DEEPINT_UPDATE_INSTANCES_LIMIT (updateQueue ds);
                                requiredUpdate := false;
                                closed := closed ds |};
                   phase := Posting instancesToPush;
                   posted := (posted sv ++ [instancesToPush])%list;
                   accepted := accepted sv |}
          end
      | Pausing instancesToPush =>
          {| source := ds; phase := Posting instancesToPush;
             posted := (posted sv ++ [instancesToPush])%list;
             accepted := accepted sv |}
      | Posting _ | Ended => sv
      end
  | Replied reply =>
      match phase sv with
      | Posting instancesToPush =>
          match sendInstancesToDeepIntelligence reply with
          | Ok _ =>
              {| source := ds; phase := enter_loop ds;
                 posted := posted sv;
                 accepted := (accepted sv ++ [instancesToPush])%list |}
          | Throw _ =>
              {| source := ds; phase := Pausing instancesToPush;
                 posted := posted sv; accepted := accepted sv |}
          end
      | _ => sv
      end
  end.

Definition service_run (sv : Service) (events : list Event) : Service :=
  fold_left service_step events sv.

(** ** Statements about the rest of the data source *)

(** The instances that the service took from the queue and still holds. *)
Definition in_flight (p : Phase) : list (list value) :=
  match p with
  | Posting instancesToPush | Pausing instancesToPush => instancesToPush
  | _ => []
  end.

(** Every instance that is accepted, in flight or queued, oldest first. *)
Definition backlog (sv : Service) : list (list value) :=
  (List.concat (accepted sv) ++ in_flight (phase sv) ++ updateQueue (source sv))%list.

(** The instances that the events enqueue, and the number of notices. *)
Definition pushed_by (events : list Event) : list (list value) :=
  flat_map (fun ev => match ev with Pushed instances => instances | _ => [] end)
           events.

Definition notices (events : list Event) : nat :=
  List.length (filter (fun ev => match ev with Noticed => true | _ => false end)
                      events).

(** The batches that the service took so far: those accepted and the one in
    flight. *)
Definition batches_taken (sv : Service) : nat :=
  (List.length (accepted sv)
   + match phase sv with
     | Posting _ | Pausing _ => 1
     | _ => 0
     end)%nat.

(** A POST that fails [k] times, each followed by the pause, and is then
    accepted. *)
Definition failures_then_success (failures : list Reply) : list Event :=
  (flat_map (fun reply => [Replied reply; Resumed]) failures
   ++ [Replied (Answered 200)])%list.

Definition fails (reply : Reply) : bool :=
  match sendInstancesToDeepIntelligence reply with
  | Ok _ => false
  | Throw _ => true
  end.

(** The features carry their positions as indices, from [i] on. *)
Fixpoint aligned_from (i : Z) (fs : list Feature.t) : bool :=
  match fs with
  | [] => true
  | f :: rest => (Feature.index f =? i) && aligned_from (i + 1) rest
  end.

Fixpoint distinct (l : list string) : bool :=
  match l with
  | [] => true
  | x :: rest => negb (includes rest x) && distinct rest
  end.

(** [l.join(",")] for strings *)
Fixpoint join_comma (l : list string) : string :=
  match l with
  | [] => ""
  | [x] => x
  | x :: rest => x ++ "," ++ join_comma rest
  end.

(** The number that indexes position [k]. *)
Definition index_number (k : N) : number := Fin (Z.of_N k) 0.

(** A schema of three features, built as the constructor builds it. *)
Definition iris_fields : list Feature.t :=
  make_fields 0 ["sepalLength"; "species"; "picked"] ["numeric"; "nominal"].
(** ** Sample evaluations of the host primitives *)

Example Number_toString_int : Number_toString (Fin 1500 (-1)) = "150".
Proof. reflexivity. Qed.

Example Number_toString_frac : Number_toString (Fin (-51) (-1)) = "-5.1".
Proof. reflexivity. Qed.

Example Number_toString_small : Number_toString (Fin 12 (-9)) = "1.2e-8".
Proof. reflexivity. Qed.

Example Number_toString_big : Number_toString (Fin 1 21) = "1e+21".
Proof. reflexivity. Qed.

Example StringToNumber_abc : StringToNumber "abc" = NaN.
Proof. reflexivity. Qed.

Example StringToNumber_dec : StringToNumber " -12.50e1 " = Fin (-1250) (-1).
Proof. reflexivity. Qed.

Example StringToNumber_hex : StringToNumber "0x1F" = Fin 31 0.
Proof. reflexivity. Qed.

Example StringToNumber_dot : StringToNumber "." = NaN.
Proof. reflexivity. Qed.

Example StringToNumber_empty : StringToNumber "" = Fin 0 0.
Proof. reflexivity. Qed.

Example ToString_array :
  ToString plain_engine (VArr [VNum (Fin 1 0); VNull; VArr [VStr "a"; VBool true]])
  = Ok "1,,a,true".
Proof. reflexivity. Qed.

Example ToString_own_toString :
  ToString plain_engine (VObj [("toString", VNum (Fin 1 0))]) = Throw TypeError.
Proof. reflexivity. Qed.

(** ** Sample runs of the sanitizer, the codec and the compiler *)

Example sanitize_mixed_case :
  sanitizeQueryTree plain_engine
    (VObj [("type", VStr "AnyOf");
           ("children",
            VArr [VObj [("type", VStr "single"); ("operation", VStr "EQ");
                        ("left", VNum (Fin 15 (-1))); ("right", VNum (Fin 51 (-1)))];
                  VNum (Fin 1 0)])]) 0
  = Ok {| type := "anyof"; operation := ""; left := Fin (-1) 0;
          right := Some "undefined";
          children :=
            [{| type := "single"; operation := "eq"; left := Fin 1 0;
                right := Some "5.1"; children := [] |};
             default_tree] |}.
Proof. reflexivity. Qed.

Example sanitize_keeps_null_literal :
  sanitizeQueryTree plain_engine
    (VObj [("type", VStr "one"); ("operation", VStr "null");
           ("left", VNum (Fin 0 0)); ("right", VNull)]) 0
  = Ok {| type := "one"; operation := "null"; left := Fin 0 0;
          right := None; children := [] |}.
Proof. reflexivity. Qed.

Example sanitizeFilter_absent :
  sanitizeFilter plain_engine VUndefined = Ok None.
Proof. reflexivity. Qed.

Example turnInto_numeric_string :
  turnInto plain_engine (VStr "5.1") numeric = Ok (VNum (Fin 51 (-1))).
Proof. reflexivity. Qed.

Example turnInto_logic_zero :
  turnInto plain_engine (VStr "0") logic = Ok (VBool false).
Proof. reflexivity. Qed.

Example turnInto_date_number :
  turnInto plain_engine (VNum (Fin 15 (-1))) date = Ok (VDate (Some 1)).
Proof. reflexivity. Qed.

Example compile_empty_combinators :
  toMongoFilter plain_engine species_schema (combine "anyof" []) = Ok (VObj [])
  /\ toMongoFilter plain_engine species_schema (combine "allof" []) = Ok (VObj [])
  /\ toMongoFilter plain_engine species_schema (combine "not" []) = Ok (VObj []).
Proof. repeat split; reflexivity. Qed.

Example compile_comparison :
  toMongoFilter plain_engine species_schema (leaf "le" 0 (Some "5.1"))
  = Ok (atom "sepalLength" "$lte" (VNum (Fin 51 (-1)))).
Proof. reflexivity. Qed.

Example compile_not_allof :
  toMongoFilter plain_engine species_schema
    (combine "not" [combine "allof" [leaf "eq" 0 (Some "5.1");
                                     leaf "sw" 1 (Some "set")]])
  = Ok (VObj [("$or", VArr [VObj [("$or", VArr
          [VObj [("sepalLength", wrap_not (VObj [("$eq", VNum (Fin 51 (-1)))]))];
           VObj [("species", wrap_not (VObj [("$regex", VRegExp "^set" "")]))]])]])]).
Proof. reflexivity. Qed.

Example compile_invalid_leaf :
  toMongoFilter plain_engine species_schema (leaf "eq" 7 (Some "x")) = Ok (VObj [])
  /\ toMongoFilter plain_engine species_schema (leaf "eq" 0 None) = Ok (VObj [])
  /\ toMongoFilter plain_engine species_schema (leaf "" 0 (Some "x")) = Ok (VObj []).
Proof. repeat split; reflexivity. Qed.

(** The negation of a filter that is empty is empty again, and a field
    whose name is an operator makes the negation raise: both lie outside the
    valid leaves. *)
Example negate_outside_valid_leaves :
  negateMongoQuery (VObj []) = Ok (VObj [])
  /\ negateMongoQuery (VObj [("$and", VObj [("$eq", VNum (Fin 1 0))])])
     = Throw TypeError.
Proof. split; reflexivity. Qed.

Example regex_outside_literals :
  regex_test "^(ab|cd)+$" "" "abcdab" = Some true
  /\ regex_test "^[a-c]{2,3}x" "i" "ABCx" = Some true
  /\ regex_test "a.b*" "" "xxacbbb" = Some true
  /\ regex_test "a\.b\*" "" "xxacbbb" = Some false.
Proof. repeat split; reflexivity. Qed.

Example drain_two_batches :
  forall ds,
    updateSem ds = 2%nat ->
    List.length (updateQueue ds) = 250%nat ->
    exists b1 ds1 b2 ds2,
      take_batch ds = Some (b1, ds1)
      /\ take_batch ds1 = Some (b2, ds2)
      /\ List.length b1 = 100%nat /\ List.length b2 = 100%nat
      /\ List.length (updateQueue ds2) = 50%nat
      /\ (b1 ++ b2 ++ updateQueue ds2)%list = updateQueue ds.
Proof.
  intros ds Hsem Hlen. unfold take_batch. rewrite Hsem. cbn [acquire].
  assert (Hq : (List.length (updateQueue ds) =? 0)%nat = false)
    by (rewrite Hlen; reflexivity).
  rewrite Hq, andb_false_r.
  do 4 eexists. split; [reflexivity |].
  cbn [updateSem acquire requiredUpdate updateQueue negb andb].
  assert (Hq1 : (List.length (skipn DEEPINT_UPDATE_INSTANCES_LIMIT (updateQueue ds)) =? 0)%nat = false).
  { rewrite length_skipn, Hlen. reflexivity. }
  rewrite Hq1. split; [reflexivity |].
  cbn [updateQueue].
  rewrite !length_firstn, !length_skipn, Hlen.
  repeat split; try reflexivity.
  rewrite !firstn_skipn. reflexivity.
Qed.

(** With a feature named like an operator the two trees of De Morgan both
    raise: [query.$and.map] finds the condition of the field, not an
    array. *)
Example compile_operator_named_field :
  toMongoFilter plain_engine operator_schema
    (combine "not" [combine "allof" [leaf "eq" 0 (Some "1"); leaf "eq" 0 (Some "2")]])
  = Throw TypeError
  /\ toMongoFilter plain_engine operator_schema
       (combine "anyof" [combine "not" [leaf "eq" 0 (Some "1")];
                         combine "not" [leaf "eq" 0 (Some "2")]])
     = Throw TypeError.
Proof. split; reflexivity. Qed.
(** ** Facts about the error monad *)

Lemma bind_Ok {A B : Type} (r : Result A) (k : A -> Result B) (b : B) :
  bind r k = Ok b -> exists a, r = Ok a /\ k a = Ok b.
Proof.
  destruct r as [a | e]; simpl; intros H; [exists a; auto | discriminate].
Qed.

Ltac bind_inv H :=
  let a := fresh "x" in
  let Ha := fresh "E" in
  apply bind_Ok in H; destruct H as (a & Ha & H).

Lemma mapM_ext {A B : Type} (f g : A -> Result B) (l : list A) :
  (forall x, In x l -> f x = g x) -> mapM f l = mapM g l.
Proof.
  induction l as [| x l IH]; simpl; intros H; [reflexivity |].
  rewrite (H x) by auto. rewrite IH by auto. reflexivity.
Qed.

Lemma mapM_length {A B : Type} (f : A -> Result B) (l : list A) (r : list B) :
  mapM f l = Ok r -> List.length r = List.length l.
Proof.
  revert r; induction l as [| x l IH]; simpl; intros r H.
  - inversion H; reflexivity.
  - bind_inv H. bind_inv H. inversion H; subst. simpl. f_equal. eauto.
Qed.

Lemma mapM_Forall2 {A B : Type} (f : A -> Result B) (l : list A) (r : list B) :
  mapM f l = Ok r <-> Forall2 (fun x y => f x = Ok y) l r.
Proof.
  revert r; induction l as [| x l IH]; simpl; intros r; split; intros H.
  - inversion H; constructor.
  - inversion H; reflexivity.
  - bind_inv H. bind_inv H. inversion H; subst. constructor; [assumption |].
    apply IH; assumption.
  - inversion H as [| ? y ? r' Hx Hr]; subst. rewrite Hx. simpl.
    apply IH in Hr. rewrite Hr. reflexivity.
Qed.

(** ** The sanitizer follows the recursion of the source *)

Lemma sanitize_node_ext engine (f g : value -> Z -> Result QueryTree) tree depth :
  (depth < QUERY_TREE_MAX_DEPH -> forall c, f c (depth + 1) = g c (depth + 1)) ->
  sanitize_node engine f tree depth = sanitize_node engine g tree depth.
Proof.
  intros H. unfold sanitize_node.
  destruct (String.eqb (typeof tree) "object"); [| reflexivity].
  destruct (get tree "type") as [ty |]; simpl; [| reflexivity].
  destruct (ToString engine ty) as [tys |]; simpl; [| reflexivity].
  destruct (get tree "operation") as [op |]; simpl; [| reflexivity].
  destruct (ToString engine op) as [ops |]; simpl; [| reflexivity].
  destruct (get tree "left") as [l |]; simpl; [| reflexivity].
  destruct (get tree "right") as [r |]; simpl; [| reflexivity].
  match goal with |- bind ?a _ = bind ?a _ => destruct a; simpl; [| reflexivity] end.
  destruct (depth <? QUERY_TREE_MAX_DEPH) eqn:Hd; simpl; [| reflexivity].
  apply Z.ltb_lt in Hd.
  match goal with |- context [is_combinator ?t] => destruct (is_combinator t) end;
    [| reflexivity].
  destruct (get tree "children") as [c |]; simpl; [| reflexivity].
  destruct c; try reflexivity.
  rewrite (mapM_ext (fun child => f child (depth + 1))
                    (fun child => g child (depth + 1))); auto.
Qed.

(** [sanitizeQueryTree] satisfies the recursive equation of the source. *)
Lemma sanitizeQueryTree_eq engine tree depth :
  sanitizeQueryTree engine tree depth
  = sanitize_node engine (sanitizeQueryTree engine) tree depth.
Proof.
  unfold sanitizeQueryTree.
  destruct (Z.ltb_spec depth QUERY_TREE_MAX_DEPH) as [Hd | Hd].
  - replace (Z.to_nat (QUERY_TREE_MAX_DEPH - depth))
      with (S (Z.to_nat (QUERY_TREE_MAX_DEPH - (depth + 1)))) by lia.
    simpl. apply sanitize_node_ext. intros _ c. reflexivity.
  - replace (Z.to_nat (QUERY_TREE_MAX_DEPH - depth)) with O by lia.
    simpl. apply sanitize_node_ext. lia.
Qed.

(** ** Strings *)

Lemma includes_In (l : list string) (s : string) :
  includes l s = true -> In s l.
Proof.
  unfold includes. intros H. apply existsb_exists in H.
  destruct H as (x & Hx & He). apply String.eqb_eq in He. subst. assumption.
Qed.

Lemma substring0_length (n : nat) (s : string) :
  (String.length (substring 0 n s) <= n)%nat.
Proof.
  revert s; induction n as [| n IH]; intros s.
  - destruct s; simpl; lia.
  - destruct s as [| c s]; simpl; [lia |]. specialize (IH s). lia.
Qed.

Lemma substring0_all (n : nat) (s : string) :
  (String.length s <= n)%nat -> substring 0 n s = s.
Proof.
  revert s; induction n as [| n IH]; intros s H.
  - destruct s; simpl in *; [reflexivity | lia].
  - destruct s as [| c s]; simpl in *; [reflexivity |]. f_equal. apply IH. lia.
Qed.

Lemma toLowerCase_query_type (s : string) :
  In s query_types -> toLowerCase s = s.
Proof.
  unfold query_types; simpl; intros H.
  repeat (destruct H as [H | H]; [subst; reflexivity |]). contradiction.
Qed.

Lemma toLowerCase_query_operation (s : string) :
  In s query_operations -> toLowerCase s = s.
Proof.
  unfold query_operations; simpl; intros H.
  repeat (destruct H as [H | H]; [subst; reflexivity |]). contradiction.
Qed.

Lemma Math_floor_idempotent (n : number) :
  Math_floor (Math_floor n) = Math_floor n.
Proof.
  destruct n as [| s | m e]; simpl; try reflexivity.
  destruct (0 <=? e) eqn:He; simpl; [rewrite He |]; reflexivity.
Qed.

(** ** What one call of the sanitizer returns *)

Lemma checked_type (s : string) :
  In (if negb (includes query_types s) then "anyof" else s) query_types.
Proof.
  destruct (includes query_types s) eqn:Hi; cbn [negb].
  - apply includes_In; assumption.
  - unfold query_types; simpl; auto.
Qed.

Lemma checked_operation (s : string) :
  let op := if negb (includes query_operations s) then "" else s in
  op = "" \/ In op query_operations.
Proof.
  destruct (includes query_operations s) eqn:Hi; cbn [negb].
  - right; apply includes_In; assumption.
  - left; reflexivity.
Qed.

Lemma sanitize_node_Ok engine self tree depth t :
  sanitize_node engine self tree depth = Ok t ->
  In (type t) query_types
  /\ (operation t = "" \/ In (operation t) query_operations)
  /\ Math_floor (left t) = left t
  /\ (forall s, right t = Some s -> (String.length s <= 1024)%nat)
  /\ kept_children self tree depth t.
Proof.
  unfold sanitize_node, kept_children. intros H.
  destruct (String.eqb (typeof tree) "object"); cbn [andb].
  2:{ injection H as <-. unfold query_types; simpl.
      repeat split; auto.
      intros s Hs; injection Hs as <-; simpl; lia. }
  apply bind_Ok in H; destruct H as (ty & _ & H).
  apply bind_Ok in H; destruct H as (tys & _ & H).
  apply bind_Ok in H; destruct H as (op & _ & H).
  apply bind_Ok in H; destruct H as (ops & _ & H).
  apply bind_Ok in H; destruct H as (lf & _ & H).
  apply bind_Ok in H; destruct H as (rv & _ & H).
  apply bind_Ok in H; destruct H as (rt & Hrt & H).
  apply bind_Ok in H; destruct H as (ch & Hch & H).
  injection H as <-.
  cbn [type operation left right children].
  split; [| split; [| split; [| split]]].
  - apply (checked_type (toLowerCase tys)).
  - apply (checked_operation (toLowerCase ops)).
  - destruct lf; try reflexivity. apply Math_floor_idempotent.
  - intros s Hs. rewrite Hs in Hrt.
    assert (Hr : exists r,
               s = if (1024 <? String.length r)%nat then substr0 1024 r else r).
    { destruct rv; try discriminate;
        apply bind_Ok in Hrt; destruct Hrt as (r & _ & Hrt);
        injection Hrt as <-; eauto. }
    destruct Hr as (r & Hr). subst s.
    destruct (Nat.ltb_spec 1024 (String.length r)); [| lia].
    apply substring0_length.
  - destruct ((depth <? QUERY_TREE_MAX_DEPH) && is_combinator _).
    2:{ injection Hch as <-; reflexivity. }
    apply bind_Ok in Hch; destruct Hch as (cv & Hcv & Hch).
    exists cv. split; [assumption |].
    destruct cv; try (injection Hch as <-; reflexivity). assumption.
Qed.

Lemma In_includes (l : list string) (s : string) :
  In s l -> includes l s = true.
Proof.
  intros H. unfold includes. apply existsb_exists. exists s. split; auto.
  apply String.eqb_refl.
Qed.

Lemma typeof_tree_value t : typeof (tree_value t) = "object".
Proof. destruct t; reflexivity. Qed.

Lemma get_tree_type t : get (tree_value t) "type" = Ok (VStr (type t)).
Proof. destruct t; reflexivity. Qed.

Lemma get_tree_operation t :
  get (tree_value t) "operation" = Ok (VStr (operation t)).
Proof. destruct t; reflexivity. Qed.

Lemma get_tree_left t : get (tree_value t) "left" = Ok (VNum (left t)).
Proof. destruct t; reflexivity. Qed.

Lemma get_tree_right t :
  get (tree_value t) "right"
  = Ok (match right t with Some s => VStr s | None => VNull end).
Proof. destruct t; reflexivity. Qed.

Lemma get_tree_children t :
  get (tree_value t) "children" = Ok (VArr (map tree_value (children t))).
Proof. destruct t; reflexivity. Qed.

Lemma mapM_map_fixed {A B : Type} (f : A -> Result B) (g : B -> A) (l : list B) :
  (forall y, In y l -> f (g y) = Ok y) -> mapM f (map g l) = Ok l.
Proof.
  induction l as [| y l IH]; simpl; intros H; [reflexivity |].
  rewrite H by auto. simpl. rewrite IH by auto. reflexivity.
Qed.

Lemma mapM_In {A B : Type} (f : A -> Result B) (l : list A) (r : list B) (y : B) :
  mapM f l = Ok r -> In y r -> exists x, In x l /\ f x = Ok y.
Proof.
  revert r; induction l as [| x l IH]; simpl; intros r H Hy.
  - injection H as <-. contradiction.
  - apply bind_Ok in H; destruct H as (b & Hb & H).
    apply bind_Ok in H; destruct H as (bs & Hbs & H).
    injection H as <-. destruct Hy as [-> | Hy]; [eauto |].
    destruct (IH bs Hbs Hy) as (x' & Hx' & Hf). eauto.
Qed.

Lemma sanitized_children_fixed self tree depth t :
  typeof tree = "object" ->
  kept_children self tree depth t ->
  (forall x c, self x (depth + 1) = Ok c -> self (tree_value c) (depth + 1) = Ok c) ->
  (if (depth <? QUERY_TREE_MAX_DEPH) && is_combinator (type t)
   then match VArr (map tree_value (children t)) with
        | VArr items => mapM (fun child => self child (depth + 1))
                             (firstn QUERY_TREE_MAX_CHILDREN items)
        | _ => Ok []
        end
   else Ok []) = Ok (children t).
Proof.
  unfold kept_children. intros Hobj Hch Hself. rewrite Hobj in Hch.
  cbn [String.eqb Ascii.eqb Bool.eqb andb] in Hch.
  destruct ((depth <? QUERY_TREE_MAX_DEPH) && is_combinator (type t)).
  2:{ rewrite Hch; reflexivity. }
  destruct Hch as (cv & _ & Hch).
  destruct cv; try (rewrite Hch; reflexivity).
  rewrite firstn_all2.
  2:{ rewrite length_map, (mapM_length _ _ _ Hch), length_firstn.
      apply Nat.le_min_l. }
  apply mapM_map_fixed. intros c Hc'.
  destruct (mapM_In _ _ _ _ Hch Hc') as (x & _ & Hx). eauto.
Qed.

Lemma sanitize_node_fixed engine self tree depth t :
  sanitize_node engine self tree depth = Ok t ->
  (forall x c, self x (depth + 1) = Ok c -> self (tree_value c) (depth + 1) = Ok c) ->
  sanitize_node engine self (tree_value t) depth = Ok t.
Proof.
  intros H Hself.
  destruct (sanitize_node_Ok _ _ _ _ _ H) as (Hty & Hop & Hlf & Hrt & Hch).
  assert (Hkept :
    (if (depth <? QUERY_TREE_MAX_DEPH) && is_combinator (type t)
     then match VArr (map tree_value (children t)) with
          | VArr items => mapM (fun child => self child (depth + 1))
                               (firstn QUERY_TREE_MAX_CHILDREN items)
          | _ => Ok []
          end
     else Ok []) = Ok (children t)).
  { destruct (String.eqb (typeof tree) "object") eqn:Hobj.
    - apply String.eqb_eq in Hobj.
      apply (sanitized_children_fixed _ _ _ _ Hobj Hch Hself).
    - unfold kept_children in Hch. rewrite Hobj in Hch. cbn [andb] in Hch.
      rewrite Hch.
      destruct ((depth <? QUERY_TREE_MAX_DEPH) && is_combinator (type t));
        reflexivity. }
  clear Hch H.
  unfold sanitize_node.
  rewrite typeof_tree_value, String.eqb_refl.
  rewrite get_tree_type, get_tree_operation, get_tree_left, get_tree_right.
  cbn [bind ToString].
  rewrite (toLowerCase_query_type _ Hty), (In_includes _ _ Hty).
  assert (Hop' : (if negb (includes query_operations (toLowerCase (operation t)))
                  then "" else toLowerCase (operation t)) = operation t).
  { destruct Hop as [Hop | Hop].
    - rewrite Hop. reflexivity.
    - rewrite (toLowerCase_query_operation _ Hop), (In_includes _ _ Hop).
      reflexivity. }
  rewrite Hop'. cbn [negb].
  rewrite Hlf.
  destruct (right t) as [s |] eqn:Hr.
  - cbn [ToString bind]. specialize (Hrt s eq_refl).
    destruct (Nat.ltb_spec 1024 (String.length s)) as [Hlen | _]; [lia |].
    cbn [bind]. rewrite get_tree_children. cbn [bind].
    rewrite Hkept. cbn [bind].
    rewrite <- Hr. destruct t; reflexivity.
  - cbn [bind]. rewrite get_tree_children. cbn [bind].
    rewrite Hkept. cbn [bind].
    rewrite <- Hr. destruct t; reflexivity.
Qed.

Lemma sanitize_levels_fixed engine (n : nat) :
  forall tree depth t,
    sanitize_levels engine n tree depth = Ok t ->
    sanitize_levels engine n (tree_value t) depth = Ok t.
Proof.
  induction n as [| n IH]; intros tree depth t H; simpl in *.
  - apply (sanitize_node_fixed _ _ _ _ _ H). intros x c Hc. exact Hc.
  - apply (sanitize_node_fixed _ _ _ _ _ H). intros x c Hc. apply (IH _ _ _ Hc).
Qed.

Lemma sanitizeQueryTree_fixed engine tree depth t :
  sanitizeQueryTree engine tree depth = Ok t ->
  sanitizeQueryTree engine (tree_value t) depth = Ok t.
Proof. apply sanitize_levels_fixed. Qed.

(** C4. Sanitization is idempotent: sanitizing the tree that the sanitizer
    returned for an input gives that tree again, so every sanitized tree is
    a fixed point; on an input where the sanitizer raises, the second pass
    is not reached and the composition raises the same exception. *)
Theorem sanitizeQueryTree_idempotent (engine : Engine) (x : value) :
  (t <- sanitizeQueryTree engine x 0 ;; sanitizeQueryTree engine (tree_value t) 0)
  = sanitizeQueryTree engine x 0
  /\ (forall t, sanitizeQueryTree engine x 0 = Ok t ->
                sanitizeQueryTree engine (tree_value t) 0 = Ok t).
Proof.
  split.
  - destruct (sanitizeQueryTree engine x 0) as [t | e] eqn:H; simpl.
    + apply sanitizeQueryTree_fixed in H. exact H.
    + reflexivity.
  - intros t H. apply (sanitizeQueryTree_fixed _ _ _ _ H).
Qed.

Lemma sanitizeQueryTree_idempotent_witness :
  sanitizeQueryTree plain_engine anyof_chain 0 = Ok anyof_chain_sanitized
  /\ sanitizeQueryTree plain_engine (tree_value anyof_chain_sanitized) 0
     = Ok anyof_chain_sanitized.
Proof.
  split; [reflexivity |].
  apply (proj2 (sanitizeQueryTree_idempotent plain_engine anyof_chain)).
  reflexivity.
Defined.

(** C1. The sanitizer is not total. [typeof null] is ["object"], so a
    [null] input passes the guard and reading [tree.type] raises a
    TypeError, at every depth; the same happens below the root for a [null]
    element of a [children] array. An input that is not an object (a number,
    a string, a boolean, undefined) does give the default node. *)
Theorem sanitizeQueryTree_raises_on_null (engine : Engine) :
  (forall depth, sanitizeQueryTree engine VNull depth = Throw TypeError)
  /\ sanitizeQueryTree engine
       (VObj [("type", VStr "anyof"); ("children", VArr [VNull])]) 0
     = Throw TypeError
  /\ (forall x depth,
        String.eqb (typeof x) "object" = false ->
        sanitizeQueryTree engine x depth = Ok default_tree).
Proof.
  split; [| split].
  - intros depth. rewrite sanitizeQueryTree_eq. reflexivity.
  - reflexivity.
  - intros x depth H. rewrite sanitizeQueryTree_eq. unfold sanitize_node.
    rewrite H. reflexivity.
Qed.

Lemma sanitizeQueryTree_raises_on_null_witness :
  sanitizeQueryTree plain_engine (VNum (Fin 5 0)) 0 = Ok default_tree.
Proof.
  apply (proj2 (proj2 (sanitizeQueryTree_raises_on_null plain_engine))).
  reflexivity.
Defined.

(** ** The bounds of the sanitizer *)

Lemma tree_depth_children_le (t : QueryTree) (m : nat) :
  (forall c, In c (children t) -> (S (tree_depth c) <= m)%nat) ->
  (tree_depth t <= m)%nat.
Proof.
  destruct t as [ty op lf rt ch]; cbn [children tree_depth].
  induction ch as [| c ch IH]; intros H; [lia |].
  apply Nat.max_lub.
  - apply H; left; reflexivity.
  - apply IH. intros c' Hc'. apply H; right; assumption.
Qed.

Lemma tree_depth_child (t c : QueryTree) :
  In c (children t) -> (S (tree_depth c) <= tree_depth t)%nat.
Proof.
  destruct t as [ty op lf rt ch]; cbn [children tree_depth].
  induction ch as [| c' ch IH]; intros H; [contradiction |].
  destruct H as [-> | H].
  - apply Nat.le_max_l.
  - etransitivity; [apply IH, H | apply Nat.le_max_r].
Qed.

Lemma in_bounds_eq (d : Z) (t : QueryTree) :
  in_bounds d t
  = (d <=? QUERY_TREE_MAX_DEPH)
    && (List.length (children t) <=? QUERY_TREE_MAX_CHILDREN)%nat
    && ((d <? QUERY_TREE_MAX_DEPH) || (List.length (children t) =? 0)%nat)
    && forallb (in_bounds (d + 1)) (children t).
Proof. destruct t; reflexivity. Qed.

Lemma in_bounds_default (d : Z) :
  d <= QUERY_TREE_MAX_DEPH -> in_bounds d default_tree = true.
Proof.
  intros H. rewrite in_bounds_eq. apply Z.leb_le in H. rewrite H.
  cbn. rewrite orb_true_r. reflexivity.
Qed.

Lemma sanitize_node_in_bounds engine self tree d t :
  sanitize_node engine self tree d = Ok t ->
  d <= QUERY_TREE_MAX_DEPH ->
  (forall x c, d < QUERY_TREE_MAX_DEPH -> self x (d + 1) = Ok c ->
               in_bounds (d + 1) c = true) ->
  in_bounds d t = true.
Proof.
  intros H Hd Hself.
  destruct (sanitize_node_Ok _ _ _ _ _ H) as (_ & _ & _ & _ & Hch).
  unfold kept_children in Hch. rewrite in_bounds_eq.
  apply Z.leb_le in Hd. rewrite Hd. cbn [andb].
  assert (Hnil : children t = [] ->
    (List.length (children t) <=? QUERY_TREE_MAX_CHILDREN)%nat
    && ((d <? QUERY_TREE_MAX_DEPH) || (List.length (children t) =? 0)%nat)
    && forallb (in_bounds (d + 1)) (children t) = true).
  { intros ->. cbn. rewrite orb_true_r. reflexivity. }
  destruct (String.eqb (typeof tree) "object"); cbn [andb] in Hch; [| auto].
  destruct (d <? QUERY_TREE_MAX_DEPH) eqn:Hlt; cbn [andb] in Hch; [| auto].
  destruct (is_combinator (type t)); [| auto].
  destruct Hch as (cv & _ & Hch).
  destruct cv; auto.
  cbn [orb]. rewrite andb_true_r. apply andb_true_intro. split.
  - apply Nat.leb_le. rewrite (mapM_length _ _ _ Hch), length_firstn.
    apply Nat.le_min_l.
  - apply forallb_forall. intros c Hc.
    destruct (mapM_In _ _ _ _ Hch Hc) as (x & _ & Hx).
    apply (Hself x c); [apply Z.ltb_lt; assumption | assumption].
Qed.

Lemma sanitize_levels_in_bounds engine (n : nat) :
  forall tree d t,
    sanitize_levels engine n tree d = Ok t ->
    d <= QUERY_TREE_MAX_DEPH ->
    in_bounds d t = true.
Proof.
  induction n as [| n IH]; intros tree d t H Hd; simpl in H.
  - apply (sanitize_node_in_bounds _ _ _ _ _ H Hd).
    intros x c Hlt Hc. injection Hc as <-.
    apply in_bounds_default. lia.
  - apply (sanitize_node_in_bounds _ _ _ _ _ H Hd).
    intros x c Hlt Hc. apply (IH _ _ _ Hc). lia.
Qed.

Lemma in_bounds_depth (k : nat) :
  forall d t,
    Z.to_nat (QUERY_TREE_MAX_DEPH - d) = k ->
    in_bounds d t = true ->
    (tree_depth t <= k)%nat.
Proof.
  induction k as [| k IH]; intros d t Hk H; rewrite in_bounds_eq in H;
    apply andb_prop in H; destruct H as (H & Hall);
    apply andb_prop in H; destruct H as (H & Hleaf);
    apply andb_prop in H; destruct H as (Hd & Hlen);
    apply Z.leb_le in Hd.
  - destruct (Z.ltb_spec d QUERY_TREE_MAX_DEPH) as [Hlt | _]; [lia |].
    cbn [orb] in Hleaf. apply Nat.eqb_eq in Hleaf.
    apply tree_depth_children_le. intros c Hc.
    destruct (children t); [contradiction | discriminate].
  - apply tree_depth_children_le. intros c Hc.
    apply le_n_S. apply (IH (d + 1)); [lia |].
    rewrite forallb_forall in Hall. apply Hall, Hc.
Qed.

Lemma is_combinator_query_type (s : string) :
  is_combinator s = true -> includes query_types s = true.
Proof.
  intros H. apply includes_In in H. apply In_includes.
  unfold query_types. simpl in *. intuition.
Qed.

Lemma sanitize_node_type engine self props s d t :
  sanitize_node engine self (VObj props) d = Ok t ->
  lookup "type" props = Some (VStr s) ->
  is_combinator (toLowerCase s) = true ->
  type t = toLowerCase s.
Proof.
  unfold sanitize_node. cbn [typeof get]. rewrite String.eqb_refl.
  intros H Hs Hc. rewrite Hs in H. cbn [bind ToString] in H.
  rewrite (is_combinator_query_type _ Hc) in H. cbn [negb] in H.
  apply bind_Ok in H; destruct H as (ops & _ & H).
  apply bind_Ok in H; destruct H as (rt & _ & H).
  apply bind_Ok in H; destruct H as (ch & _ & H).
  injection H as <-. reflexivity.
Qed.

Lemma mapM_nth_error {A B : Type} (f : A -> Result B) (l : list A) (r : list B)
  (i : nat) (x : A) :
  mapM f l = Ok r -> nth_error l i = Some x ->
  exists y, nth_error r i = Some y /\ f x = Ok y.
Proof.
  revert r i; induction l as [| a l IH]; intros r i H Hx.
  - destruct i; discriminate.
  - simpl in H.
    apply bind_Ok in H; destruct H as (b & Hb & H).
    apply bind_Ok in H; destruct H as (bs & Hbs & H).
    injection H as <-. destruct i as [| i]; simpl in *.
    + injection Hx as <-. eauto.
    + apply (IH _ _ Hbs Hx).
Qed.

Lemma combinator_chain_depth engine (n : nat) (x : value) :
  combinator_chain n x ->
  forall d t,
    sanitizeQueryTree engine x d = Ok t ->
    (Nat.min n (Z.to_nat (QUERY_TREE_MAX_DEPH - d)) <= tree_depth t)%nat.
Proof.
  induction 1 as [v | n props s items i c Hty Hcomb Hch Hnth Hi Hchain IH];
    intros d t H; [apply Nat.le_0_l |].
  destruct (Z.ltb_spec d QUERY_TREE_MAX_DEPH) as [Hd | Hd].
  2:{ replace (Z.to_nat (QUERY_TREE_MAX_DEPH - d)) with O by lia.
      rewrite Nat.min_0_r. apply Nat.le_0_l. }
  rewrite sanitizeQueryTree_eq in H.
  pose proof (sanitize_node_type _ _ _ _ _ _ H Hty Hcomb) as Htype.
  destruct (sanitize_node_Ok _ _ _ _ _ H) as (_ & _ & _ & _ & Hkept).
  unfold kept_children in Hkept. cbn [typeof] in Hkept.
  rewrite String.eqb_refl, Htype, Hcomb in Hkept.
  apply Z.ltb_lt in Hd. rewrite Hd in Hkept. cbn [andb] in Hkept.
  apply Z.ltb_lt in Hd.
  destruct Hkept as (cv & Hget & Hkept).
  cbn [get] in Hget. rewrite Hch in Hget. injection Hget as <-.
  assert (Hnth' : nth_error (firstn QUERY_TREE_MAX_CHILDREN items) i = Some c).
  { rewrite nth_error_firstn.
    destruct (Nat.ltb_spec i QUERY_TREE_MAX_CHILDREN); [assumption | lia]. }
  destruct (mapM_nth_error _ _ _ _ _ Hkept Hnth') as (tc & Htc & Hsan).
  specialize (IH _ _ Hsan).
  apply nth_error_In in Htc. apply tree_depth_child in Htc.
  replace (Z.to_nat (QUERY_TREE_MAX_DEPH - d))
    with (S (Z.to_nat (QUERY_TREE_MAX_DEPH - (d + 1)))) by lia.
  cbn [Nat.min]. lia.
Qed.

(** C3, as the code has it. When the sanitizer returns a tree for an input
    at a depth of at most 4: every node of the tree lies at depth at most 4
    and has at most 16 children, and a node at depth 4 has none; the children
    of the returned node are the sanitized forms, in order and one level
    down, of the first 16 elements of the [children] array of the input when
    the input is an object, the depth is below 4 and the type of the node is
    anyof, allof or not, and the node has no children otherwise; the tree is
    no deeper than the levels left below [depth], and it is exactly that deep
    (4 when [depth] is 0) when the input is nested at least that deep along
    a chain of combinator nodes, each among the first 16 children of the one
    above. *)
Theorem sanitizeQueryTree_bounds (engine : Engine) (x : value) (depth : Z)
  (t : QueryTree) :
  sanitizeQueryTree engine x depth = Ok t ->
  depth <= QUERY_TREE_MAX_DEPH ->
  in_bounds depth t = true
  /\ kept_children (sanitizeQueryTree engine) x depth t
  /\ (tree_depth t <= Z.to_nat (QUERY_TREE_MAX_DEPH - depth))%nat
  /\ (forall n, (Z.to_nat (QUERY_TREE_MAX_DEPH - depth) <= n)%nat ->
                combinator_chain n x ->
                tree_depth t = Z.to_nat (QUERY_TREE_MAX_DEPH - depth)).
Proof.
  intros H Hd.
  assert (Hb : in_bounds depth t = true)
    by apply (sanitize_levels_in_bounds _ _ _ _ _ H Hd).
  assert (Hle : (tree_depth t <= Z.to_nat (QUERY_TREE_MAX_DEPH - depth))%nat)
    by apply (in_bounds_depth _ _ _ eq_refl Hb).
  split; [exact Hb | split; [| split; [exact Hle |]]].
  - rewrite sanitizeQueryTree_eq in H.
    apply (sanitize_node_Ok _ _ _ _ _ H).
  - intros n Hn Hchain.
    pose proof (combinator_chain_depth engine _ _ Hchain _ _ H) as Hge.
    rewrite Nat.min_r in Hge by assumption. lia.
Qed.

Lemma anyof_chain_nested : combinator_chain 5 anyof_chain.
Proof.
  unfold anyof_chain.
  repeat (eapply (chain_step _ _ _ _ 0);
          [reflexivity | reflexivity | reflexivity | reflexivity
          | unfold QUERY_TREE_MAX_CHILDREN; lia |]).
  apply chain_end.
Qed.

Lemma sanitizeQueryTree_bounds_witness :
  in_bounds 0 anyof_chain_sanitized = true
  /\ kept_children (sanitizeQueryTree plain_engine) anyof_chain 0
       anyof_chain_sanitized
  /\ (tree_depth anyof_chain_sanitized <= 4)%nat
  /\ (forall n, (4 <= n)%nat -> combinator_chain n anyof_chain ->
                tree_depth anyof_chain_sanitized = 4%nat).
Proof.
  apply (sanitizeQueryTree_bounds plain_engine anyof_chain 0 anyof_chain_sanitized).
  - reflexivity.
  - unfold QUERY_TREE_MAX_DEPH. lia.
Defined.

(** C3, as the claim has it, fails: an input nested five levels deep does
    not always give a tree of depth 4. Below a node of type [single] the
    [children] array is not read, and the tree has depth 0. *)
Lemma sanitizeQueryTree_depth_counterexample :
  nesting single_over_chain = 5%nat
  /\ sanitizeQueryTree plain_engine single_over_chain 0
     = Ok {| type := "single"; operation := ""; left := Fin (-1) 0;
             right := Some "undefined"; children := [] |}
  /\ tree_depth {| type := "single"; operation := ""; left := Fin (-1) 0;
                   right := Some "undefined"; children := [] |} <> 4%nat.
Proof.
  split; [reflexivity | split; [reflexivity | discriminate]].
Qed.

(** ** Inputs on which the sanitizer returns *)

Lemma ToString_printable engine (v : value) :
  printable v = true -> returns (ToString engine v).
Proof.
  induction v using value_nested_ind; intros Hp;
    try (eexists; reflexivity).
  - destruct b; eexists; reflexivity.
  - cbn [ToString]. cbn [printable] in Hp.
    match goal with
    | |- returns (?join items true) =>
        enough (Hjoin : forall first, returns (join items first)) by apply Hjoin
    end.
    induction H as [| x items Hx _ IH]; intros first; [eexists; reflexivity |].
    cbn [forallb] in Hp. apply andb_prop in Hp. destruct Hp as (Hpx & Hpi).
    destruct (IH Hpi false) as (t & Ht).
    destruct (Hx Hpx) as (s & Hs).
    destruct x; simpl in *; try rewrite Hs; rewrite Ht; eexists; reflexivity.
  - cbn [ToString]. cbn [printable] in Hp. apply negb_true_iff in Hp.
    rewrite Hp. eexists; reflexivity.
Qed.

Lemma index_lookup_none {A : Type} (k : string) (items : list A) :
  (forall u, String.eqb k (NilEmpty.string_of_uint u) = false) ->
  forall i, index_lookup k i items = None.
Proof.
  intros Hk. induction items as [| x items IH]; intros i; cbn [index_lookup];
    [reflexivity |].
  unfold decimal_of_N. rewrite Hk. apply IH.
Qed.

Lemma prop_printable (props : list (string * value)) (k : string) :
  forallb (fun p => printable (snd p)) props = true ->
  printable (prop props k) = true.
Proof.
  unfold prop. induction props as [| [k' v] props IH]; cbn [forallb lookup snd];
    intros H; [reflexivity |].
  apply andb_prop in H. destruct H as (Hv & Hrest).
  destruct (String.eqb k k'); auto.
Qed.

Lemma tame_children (props : list (string * value)) (items : list value) :
  tame (VObj props) = true ->
  lookup "children" props = Some (VArr items) ->
  forallb tame items = true.
Proof.
  cbn [tame]. intros H. apply andb_prop in H. destruct H as (_ & H). revert H.
  induction props as [| [k v] props IH]; cbn [lookup]; intros H Hl;
    [discriminate |].
  destruct (String.eqb "children" k).
  - injection Hl as ->. exact H.
  - apply IH; assumption.
Qed.

Lemma In_firstn {A : Type} (n : nat) (l : list A) (x : A) :
  In x (firstn n l) -> In x l.
Proof.
  revert l; induction n as [| n IH]; intros [| y l]; cbn [firstn In];
    try contradiction.
  intros [H | H]; auto.
Qed.

Lemma mapM_returns {A B : Type} (f : A -> Result B) (l : list A) :
  (forall x, In x l -> returns (f x)) -> returns (mapM f l).
Proof.
  induction l as [| x l IH]; intros H; cbn [mapM]; [eexists; reflexivity |].
  destruct (H x) as (y & ->); [left; reflexivity |].
  destruct IH as (ys & ->); [intros z Hz; apply H; right; assumption |].
  eexists; reflexivity.
Qed.

Lemma sanitize_right_returns engine (v : value) :
  printable v = true ->
  returns (match v with
           | VNull => Ok None
           | _ =>
               right <- ToString engine v ;;
               Ok (Some (if (1024 <? String.length right)%nat
                         then substr0 1024 right else right))
           end).
Proof.
  intros Hp. destruct (ToString_printable engine v Hp) as (s & Hs).
  destruct v; try rewrite Hs; eexists; reflexivity.
Qed.

Lemma sanitize_node_returns engine self (tree : value) (depth : Z) :
  tame tree = true ->
  (forall c, tame c = true -> returns (self c (depth + 1))) ->
  returns (sanitize_node engine self tree depth).
Proof.
  intros Ht Hself. unfold sanitize_node.
  destruct (String.eqb (typeof tree) "object") eqn:Hobj; [| eexists; reflexivity].
  assert (Hget : forall k,
            In k ["type"; "operation"; "left"; "right"; "children"] ->
            get tree k = Ok (match tree with
                             | VObj props => prop props k
                             | _ => VUndefined
                             end)).
  { intros k Hk. destruct tree; try discriminate; try reflexivity.
    cbn [get].
    cbn [In] in Hk.
    repeat (destruct Hk as [<- | Hk];
            [cbn [String.eqb Ascii.eqb Bool.eqb];
             rewrite index_lookup_none; [reflexivity |];
             intros u; destruct u; reflexivity |]).
    contradiction. }
  assert (Hprint : forall k,
            printable (match tree with
                       | VObj props => prop props k
                       | _ => VUndefined
                       end) = true).
  { intros k. destruct tree; try reflexivity.
    apply prop_printable. cbn [tame] in Ht. apply andb_prop in Ht. apply Ht. }
  rewrite !Hget by (cbn; tauto). cbn [bind].
  destruct (ToString_printable engine _ (Hprint "type")) as (ty & ->).
  destruct (ToString_printable engine _ (Hprint "operation")) as (op & ->).
  cbn [bind].
  destruct (sanitize_right_returns engine _ (Hprint "right")) as (rt & ->).
  cbn [bind].
  match goal with
  | |- context [if ?c then _ else Ok []] => destruct c
  end; [| eexists; reflexivity].
  cbn [bind].
  destruct tree as [| | | | | | | | props]; try (eexists; reflexivity).
  unfold prop. destruct (lookup "children" props) as [cv |] eqn:Hl;
    [| eexists; reflexivity].
  destruct cv; try (eexists; reflexivity).
  pose proof (tame_children _ _ Ht Hl) as Hitems.
  destruct (mapM_returns (fun child => self child (depth + 1))
              (firstn QUERY_TREE_MAX_CHILDREN items)) as (ch & ->).
  - intros x Hx. apply Hself. rewrite forallb_forall in Hitems.
    apply Hitems. apply (In_firstn _ _ _ Hx).
  - eexists; reflexivity.
Qed.

(** The sanitizer returns on every input that has no [null] where a node is
    expected and no own [toString] among the properties of its nodes, at
    every depth. *)
Lemma sanitizeQueryTree_returns engine (tree : value) (depth : Z) :
  tame tree = true -> returns (sanitizeQueryTree engine tree depth).
Proof.
  unfold sanitizeQueryTree.
  generalize (Z.to_nat (QUERY_TREE_MAX_DEPH - depth)). intros n.
  revert tree depth. induction n as [| n IH]; intros tree depth Ht;
    cbn [sanitize_levels]; apply sanitize_node_returns; auto.
  intros c _. eexists; reflexivity.
Qed.

(** ** The instance codec *)

Lemma ToNumber_returns engine (data : value) (s : string) :
  ToString engine data = Ok s -> returns (ToNumber engine data).
Proof.
  intros H. unfold returns.
  destruct data as [| | [|] | n | x | [tv |] | p f | items | props];
    cbn [ToNumber]; try (eexists; reflexivity);
    rewrite H; eexists; reflexivity.
Qed.

Lemma turnInto_date_returns engine (data : value) :
  exists tv, turnInto engine data date = Ok (VDate tv)
             \/ turnInto engine data date = Ok VNull.
Proof.
  unfold turnInto.
  destruct data; try (exists None; right; reflexivity);
    match goal with
    | |- context [bind ?c _] => destruct c as [[t |] | e]
    end; cbn [bind toISOString]; eauto.
Qed.

Lemma turnInto_logic_returns engine (data : value) :
  returns (turnInto engine data logic).
Proof.
  unfold returns, turnInto.
  destruct data; try (eexists; reflexivity).
  destruct (String.eqb s "true" || String.eqb s "1"); [eexists; reflexivity |].
  destruct (String.eqb s "false" || String.eqb s "0"); eexists; reflexivity.
Qed.

(** The codec returns on every raw value that has a string form. *)
Lemma turnInto_returns engine (data : value) (type : FeatureType) (s : string) :
  ToString engine data = Ok s -> returns (turnInto engine data type).
Proof.
  intros Hs.
  destruct (is_nullish data) eqn:Hn.
  { destruct data; try discriminate; exists VNull; reflexivity. }
  destruct type.
  - unfold returns, turnInto.
    destruct data; try discriminate; rewrite Hs; eexists; reflexivity.
  - unfold returns, turnInto.
    destruct data; try discriminate; rewrite Hs; eexists; reflexivity.
  - destruct (ToNumber_returns engine data s Hs) as (n & Hnum).
    unfold returns, turnInto.
    destruct data; try discriminate; rewrite Hnum; cbn [bind];
      destruct (isNaN n); eexists; reflexivity.
  - apply turnInto_logic_returns.
  - destruct (turnInto_date_returns engine data) as (tv & [H | H]);
      rewrite H; eexists; reflexivity.
Qed.

Lemma turnInto_printable engine (data : value) (type : FeatureType) :
  printable data = true -> returns (turnInto engine data type).
Proof.
  intros Hp. destruct (ToString_printable engine data Hp) as (s & Hs).
  apply (turnInto_returns engine data type s Hs).
Qed.

(** An object with an own property [toString] has no string form; the
    nominal, text and numeric branches convert without a guard and raise. *)
Lemma turnInto_raises_on_own_toString engine :
  turnInto engine (VObj [("toString", VNum (Fin 1 0))]) nominal = Throw TypeError
  /\ turnInto engine (VObj [("toString", VNum (Fin 1 0))]) text = Throw TypeError
  /\ turnInto engine (VObj [("toString", VNum (Fin 1 0))]) numeric = Throw TypeError
  /\ turnInto engine (VObj [("toString", VNum (Fin 1 0))]) date = Ok epoch.
Proof. repeat split; reflexivity. Qed.

(** C5, as the code has it. [null] and [undefined] give [null] for every
    declared type, the date type included, since the check comes before the
    switch. Every other raw value that has a string form gives a value for
    every declared type, and the date and logic types give a value for every
    raw value. ["abc"] as numeric is [null], ["1"] as logic is [true]. A raw
    value other than [null] and [undefined] whose date cannot be built, or
    is the invalid date, gives the epoch. A nominal value is the string form
    of the raw value cut to its first 255 code units. *)
Theorem turnInto_codec (engine : Engine) (data : value) (type : FeatureType) :
  (is_nullish data = true -> turnInto engine data type = Ok VNull)
  /\ (forall s, ToString engine data = Ok s -> returns (turnInto engine data type))
  /\ returns (turnInto engine data date)
  /\ returns (turnInto engine data logic)
  /\ turnInto engine (VStr "abc") numeric = Ok VNull
  /\ turnInto engine (VStr "1") logic = Ok (VBool true)
  /\ (is_nullish data = false ->
      (forall t, Date_construct engine data <> Ok (Some t)) ->
      turnInto engine data date = Ok epoch)
  /\ (forall s, is_nullish data = false -> ToString engine data = Ok s ->
      turnInto engine data nominal = Ok (VStr (substr0 255 s))
      /\ (String.length (substr0 255 s) <= 255)%nat).
Proof.
  split; [| split; [| split; [| split; [| split; [| split; [| split]]]]]].
  - destruct data; try discriminate; reflexivity.
  - apply turnInto_returns.
  - destruct (turnInto_date_returns engine data) as (tv & [H | H]);
      rewrite H; eexists; reflexivity.
  - apply turnInto_logic_returns.
  - reflexivity.
  - reflexivity.
  - intros Hn Hfail. unfold turnInto.
    destruct data; try discriminate;
      match goal with
      | |- context [bind ?c _] => destruct c as [[t |] | e] eqn:Hc
      end; cbn [bind toISOString]; try reflexivity;
      exfalso; apply (Hfail t); reflexivity.
  - intros s Hn Hs. split; [| apply substring0_length].
    unfold turnInto. destruct data; try discriminate; rewrite Hs; reflexivity.
Qed.

Lemma turnInto_codec_witness :
  turnInto plain_engine (VStr "not a date") date = Ok epoch
  /\ turnInto plain_engine (VArr [VStr "a"; VNum (Fin 15 (-1))]) nominal
     = Ok (VStr "a,1.5")
  /\ turnInto plain_engine VUndefined numeric = Ok VNull
  /\ returns (turnInto plain_engine (VNum (Fin 7 0)) text).
Proof.
  pose proof (turnInto_codec plain_engine (VStr "not a date") date)
    as (_ & _ & _ & _ & _ & _ & Hdate & _).
  pose proof (turnInto_codec plain_engine (VArr [VStr "a"; VNum (Fin 15 (-1))]) nominal)
    as (_ & _ & _ & _ & _ & _ & _ & Hnominal).
  pose proof (turnInto_codec plain_engine VUndefined numeric) as (Hnull & _).
  pose proof (turnInto_codec plain_engine (VNum (Fin 7 0)) text)
    as (_ & Htotal & _).
  split; [| split; [| split]].
  - apply Hdate; [reflexivity | discriminate].
  - apply (Hnominal "a,1.5"); reflexivity.
  - apply Hnull; reflexivity.
  - apply (Htotal "7"); reflexivity.
Defined.

(** C5, as the claim has it, fails for [undefined] with the date type: the
    result is [null], not the epoch. *)
Lemma turnInto_undefined_date_counterexample :
  turnInto plain_engine VUndefined date = Ok VNull /\ VNull <> epoch.
Proof. split; [reflexivity | discriminate]. Qed.

(** ** The nesting of arrays, which bounds the recursion of the negation *)

Lemma array_depth_arr (items : list value) :
  array_depth (VArr items) = S (list_max (map array_depth items)).
Proof.
  cbn [array_depth]. f_equal.
  unfold list_max.
  induction items as [| x items IH]; [reflexivity |].
  cbn [map fold_right]. rewrite <- IH. reflexivity.
Qed.

Lemma array_depth_obj (props : list (string * value)) :
  array_depth (VObj props)
  = list_max (map (fun p => array_depth (snd p)) props).
Proof.
  cbn [array_depth].
  unfold list_max.
  induction props as [| [k x] props IH]; [reflexivity |].
  cbn [map fold_right snd]. rewrite <- IH. reflexivity.
Qed.

Lemma array_depth_item (items : list value) (x : value) :
  In x items -> (array_depth x < array_depth (VArr items))%nat.
Proof.
  intros H. rewrite array_depth_arr. apply Nat.lt_succ_r.
  assert (Hall : Forall (fun k => (k <= list_max (map array_depth items))%nat)
                        (map array_depth items))
    by (apply list_max_le; apply Nat.le_refl).
  rewrite Forall_forall in Hall. apply Hall, in_map, H.
Qed.

Lemma array_depth_items (items : list value) (d : nat) :
  (forall x, In x items -> (array_depth x <= d)%nat) ->
  (array_depth (VArr items) <= S d)%nat.
Proof.
  intros H. rewrite array_depth_arr. apply le_n_S, list_max_le.
  apply Forall_forall. intros k Hk. apply in_map_iff in Hk.
  destruct Hk as (x & <- & Hx). apply H, Hx.
Qed.

Lemma array_depth_prop (props : list (string * value)) (k : string) (v : value) :
  In (k, v) props -> (array_depth v <= array_depth (VObj props))%nat.
Proof.
  intros H. rewrite array_depth_obj.
  assert (Hall : Forall (fun n => (n <= list_max (map (fun p => array_depth (snd p)) props))%nat)
                        (map (fun p => array_depth (snd p)) props))
    by (apply list_max_le; apply Nat.le_refl).
  rewrite Forall_forall in Hall.
  apply Hall. apply in_map_iff. exists (k, v). split; [reflexivity | assumption].
Qed.

Lemma array_depth_props (props : list (string * value)) (d : nat) :
  (forall k v, In (k, v) props -> (array_depth v <= d)%nat) ->
  (array_depth (VObj props) <= d)%nat.
Proof.
  intros H. rewrite array_depth_obj. apply list_max_le.
  apply Forall_forall. intros n Hn. apply in_map_iff in Hn.
  destruct Hn as ([k v] & <- & Hx). apply (H k v), Hx.
Qed.

Lemma lookup_In (k : string) (props : list (string * value)) (v : value) :
  lookup k props = Some v -> In (k, v) props.
Proof.
  induction props as [| [k' v'] props IH]; simpl; [discriminate |].
  destruct (String.eqb_spec k k') as [-> | _]; intros H.
  - injection H as ->. left; reflexivity.
  - right; auto.
Qed.

Lemma assign_In (k : string) (v : value) (props : list (string * value))
  (k' : string) (v' : value) :
  In (k', v') (assign k v props) -> (k', v') = (k, v) \/ In (k', v') props.
Proof.
  induction props as [| [k0 v0] props IH]; simpl.
  - intros [H | []]; left; symmetry; assumption.
  - destruct (String.eqb k k0); simpl; intros [H | H]; auto.
    destruct (IH H); auto.
Qed.

Lemma remove_key_In (k : string) (props : list (string * value))
  (x : string * value) :
  In x (remove_key k props) -> In x props.
Proof.
  induction props as [| [k0 v0] props IH]; simpl; [auto |].
  destruct (String.eqb k k0); simpl; intros H; [right; auto |].
  destruct H; auto.
Qed.

Lemma array_depth_get (props : list (string * value)) (k : string) :
  (array_depth (prop props k) <= array_depth (VObj props))%nat.
Proof.
  unfold prop. destruct (lookup k props) as [v |] eqn:H; [| apply Nat.le_0_l].
  apply (array_depth_prop _ k), lookup_In, H.
Qed.

Lemma array_depth_assign (props : list (string * value)) (k : string)
  (v : value) (d : nat) :
  (array_depth v <= d)%nat -> (array_depth (VObj props) <= d)%nat ->
  (array_depth (VObj (assign k v props)) <= d)%nat.
Proof.
  intros Hv Hp. apply array_depth_props. intros k' v' H.
  destruct (assign_In _ _ _ _ _ H) as [E | Hin].
  - injection E as -> ->. assumption.
  - etransitivity; [apply (array_depth_prop _ _ _ Hin) | assumption].
Qed.

Lemma array_depth_remove (props : list (string * value)) (k : string) (d : nat) :
  (array_depth (VObj props) <= d)%nat ->
  (array_depth (VObj (remove_key k props)) <= d)%nat.
Proof.
  intros Hp. apply array_depth_props. intros k' v' H.
  apply remove_key_In in H.
  etransitivity; [apply (array_depth_prop _ _ _ H) | assumption].
Qed.

Lemma array_depth_wrap_not (v : value) :
  array_depth (wrap_not v) = array_depth v.
Proof. unfold wrap_not. rewrite array_depth_obj. cbn. apply Nat.max_0_r. Qed.

Lemma mapM_agree (d : nat) (f g : value -> Result value) (items : list value) :
  agree_below d f g ->
  (array_depth (VArr items) <= d)%nat ->
  mapM f items = mapM g items
  /\ (forall r, mapM f items = Ok r -> (array_depth (VArr r) <= d)%nat).
Proof.
  intros Hfg Hd. split.
  - apply mapM_ext. intros x Hx. apply Hfg.
    apply array_depth_item in Hx. lia.
  - intros r Hr. destruct d as [| d].
    { rewrite array_depth_arr in Hd. lia. }
    apply array_depth_items. intros y Hy.
    destruct (mapM_In _ _ _ _ Hr Hy) as (x & Hx & Hfx).
    apply array_depth_item in Hx.
    destruct (Hfg x) as (_ & Hmono); [lia |].
    specialize (Hmono _ Hfx). lia.
Qed.

Lemma negate_keys_agree (d : nat) (f g : value -> Result value) :
  agree_below d f g ->
  forall ks query,
    (array_depth (VObj query) <= d)%nat ->
    negate_keys f ks query = negate_keys g ks query
    /\ (forall r, negate_keys f ks query = Ok r -> (array_depth r <= d)%nat).
Proof.
  intros Hfg. induction ks as [| key ks IH]; intros query Hq; cbn [negate_keys].
  - split; [reflexivity |]. intros r H; injection H as <-; assumption.
  - destruct (negb (startsWith key "$")).
    { apply IH. apply array_depth_assign; [| assumption].
      rewrite array_depth_wrap_not.
      etransitivity; [apply array_depth_get | assumption]. }
    destruct (String.eqb key "$and").
    { pose proof (array_depth_get query "$and") as Hget.
      destruct (prop query "$and") as [| | | | | | | items |];
        try (split; [reflexivity | discriminate]).
      destruct (mapM_agree d f g items Hfg) as (Heq & Hmono); [lia |].
      rewrite <- Heq. destruct (mapM f items) as [negated | e]; cbn [bind].
      - apply IH. apply array_depth_remove, array_depth_assign; auto.
      - split; [reflexivity | discriminate]. }
    destruct (String.eqb key "$or").
    { pose proof (array_depth_get query "$or") as Hget.
      destruct (prop query "$or") as [| | | | | | | items |];
        try (split; [reflexivity | discriminate]).
      destruct (mapM_agree d f g items Hfg) as (Heq & Hmono); [lia |].
      rewrite <- Heq. destruct (mapM f items) as [negated | e]; cbn [bind].
      - apply IH. apply array_depth_remove, array_depth_assign; auto.
      - split; [reflexivity | discriminate]. }
    destruct (String.eqb key "$not").
    { split; [reflexivity |]. intros r H; injection H as <-.
      etransitivity; [apply array_depth_get | assumption]. }
    apply IH; assumption.
Qed.

Lemma array_depth_map_wrap (items : list value) :
  array_depth (VArr (map wrap_not items)) = array_depth (VArr items).
Proof.
  rewrite !array_depth_arr. f_equal. rewrite map_map. f_equal.
  apply map_ext. intros x. apply array_depth_wrap_not.
Qed.

Lemma negate_query_agree (f g : value -> Result value) (query : value) :
  agree_below (array_depth query) f g ->
  negate_query f query = negate_query g query
  /\ (forall r, negate_query f query = Ok r ->
                (array_depth r <= array_depth query)%nat).
Proof.
  intros Hfg.
  destruct query as [| | b | n | s | tv | p fl | items | props];
    cbn [negate_query];
    try (split; [reflexivity | discriminate]);
    try (split; [reflexivity | intros r H; injection H as <-; apply Nat.le_refl]).
  - destruct (String.eqb s "");
      (split; [reflexivity |]); [| discriminate].
    intros r H; injection H as <-; apply Nat.le_refl.
  - split; [reflexivity |]. intros r H; injection H as <-.
    rewrite array_depth_map_wrap. apply Nat.le_refl.
  - apply (negate_keys_agree _ f g Hfg). apply Nat.le_refl.
Qed.

Lemma negate_levels_self (n : nat) (query : value) :
  negate_levels n query = negate_query (negate_self n) query.
Proof. destruct n; reflexivity. Qed.

Lemma negate_levels_enough (n : nat) :
  forall query,
    (array_depth query <= n)%nat ->
    negate_levels n query = negateMongoQuery query
    /\ (forall r, negate_levels n query = Ok r ->
                  (array_depth r <= array_depth query)%nat).
Proof.
  induction n as [n IH] using (well_founded_induction Nat.lt_wf_0).
  intros query Hq. unfold negateMongoQuery.
  rewrite !negate_levels_self. apply negate_query_agree.
  intros x Hx. unfold negate_self.
  destruct n as [| n]; [lia |].
  destruct (array_depth query) as [| k]; [lia |].
  destruct (IH n (Nat.lt_succ_diag_r n) x) as (En & Hmono); [lia |].
  split; [| exact Hmono].
  rewrite En.
  destruct (Nat.eq_dec k n) as [-> | Hne]; [symmetry; assumption |].
  destruct (IH k ltac:(lia) x) as (Ek & _); [lia |].
  symmetry; assumption.
Qed.

(** [negateMongoQuery] satisfies the recursive equation of the source. *)
Lemma negateMongoQuery_eq (query : value) :
  negateMongoQuery query = negate_query negateMongoQuery query.
Proof.
  unfold negateMongoQuery at 1. rewrite negate_levels_self.
  apply negate_query_agree. intros x Hx. unfold negate_self.
  destruct (array_depth query) as [| k]; [lia |].
  apply negate_levels_enough. lia.
Qed.

(** ** The compiler on leaves and combinators *)

Lemma toMongoFilter_eq engine features (query : QueryTree) :
  toMongoFilter engine features query
  = if String.eqb (type query) "anyof" then
      filters <- mapM (toMongoFilter engine features) (children query) ;;
      match filters with
      | [] => Ok (VObj [])
      | _ => Ok (VObj [("$or", VArr filters)])
      end
    else if String.eqb (type query) "allof" then
      filters <- mapM (toMongoFilter engine features) (children query) ;;
      match filters with
      | [] => Ok (VObj [])
      | _ => Ok (VObj [("$and", VArr filters)])
      end
    else if String.eqb (type query) "not" then
      nd <- mapM (toMongoFilter engine features) (children query) ;;
      match nd with
      | [] => Ok (VObj [])
      | _ => negateMongoQuery (VObj [("$and", VArr nd)])
      end
    else leaf_filter engine features query.
Proof. destruct query; reflexivity. Qed.

(** On a combinator only the type and the children count. *)
Lemma toMongoFilter_combinator engine features (query : QueryTree) :
  is_combinator (type query) = true ->
  toMongoFilter engine features query
  = toMongoFilter engine features (combine (type query) (children query)).
Proof.
  intros H. rewrite (toMongoFilter_eq engine features query).
  rewrite (toMongoFilter_eq engine features (combine _ _)).
  cbn [combine type children].
  unfold is_combinator, includes in H. cbn [existsb] in H.
  destruct (String.eqb (type query) "anyof"); [reflexivity |].
  destruct (String.eqb (type query) "allof"); [reflexivity |].
  destruct (String.eqb (type query) "not"); [reflexivity |].
  discriminate H.
Qed.

Lemma turnInto_string engine (s : string) (ty : FeatureType) :
  exists v, turnInto engine (VStr s) ty = Ok v
            /\ (holds_text ty = true -> exists s', v = VStr s').
Proof.
  destruct ty; cbn [turnInto holds_text ToString bind].
  - eexists; split; [reflexivity | eauto].
  - eexists; split; [reflexivity | eauto].
  - cbn [ToNumber bind]. destruct (isNaN (StringToNumber s));
      eexists; (split; [reflexivity | discriminate]).
  - destruct (String.eqb s "true" || String.eqb s "1");
      [eexists; split; [reflexivity | discriminate] |].
    destruct (String.eqb s "false" || String.eqb s "0");
      eexists; (split; [reflexivity | discriminate]).
  - cbn [Date_construct bind]. destruct (Date_parse engine s);
      cbn [toISOString bind]; eexists; (split; [reflexivity | discriminate]).
Qed.

Lemma not_combinator (ty : string) :
  is_combinator ty = false ->
  String.eqb ty "anyof" = false /\ String.eqb ty "allof" = false
  /\ String.eqb ty "not" = false.
Proof.
  unfold is_combinator, includes. cbn [existsb].
  rewrite !orb_false_iff. intuition.
Qed.

Lemma index_lookup_In {A : Type} (k : string) (items : list A) (x : A) :
  forall i, index_lookup k i items = Some x -> In x items.
Proof.
  induction items as [| y items IH]; intros i; cbn [index_lookup];
    [discriminate |].
  destruct (String.eqb k (decimal_of_N i)).
  - intros H; injection H as ->. left; reflexivity.
  - intros H. right. apply (IH _ H).
Qed.

(** A valid leaf compiles to one operator on the field of its feature. *)
Lemma valid_leaf_compiles engine features (q : QueryTree) :
  valid_leaf features q = true ->
  exists f operator operand,
    index_lookup (Number_toString (left q)) 0%N features = Some f
    /\ toMongoFilter engine features q
       = Ok (atom (Feature.name f) operator operand)
    /\ includes field_operators operator = true.
Proof.
  unfold valid_leaf. intros H.
  apply andb_prop in H; destruct H as (H & Hop).
  apply andb_prop in H; destruct H as (Hty & Hr).
  apply negb_true_iff in Hty. apply negb_true_iff in Hr.
  destruct (not_combinator _ Hty) as (H1 & H2 & H3).
  rewrite toMongoFilter_eq, H1, H2, H3. unfold leaf_filter.
  rewrite Hr, andb_false_r.
  destruct (index_lookup (Number_toString (left q)) 0%N features) as [f |];
    [| discriminate].
  destruct (right q) as [s |]; [| discriminate]. cbn [nullable_string].
  destruct (turnInto_string engine s (Feature.type f)) as (cmp & Hcmp & Htext).
  rewrite Hcmp. cbn [bind]. exists f.
  apply orb_prop in Hop. destruct Hop as [Hop | Hop].
  - apply includes_In in Hop. unfold comparison_operations in Hop.
    cbn [In] in Hop.
    repeat (destruct Hop as [Hop | Hop];
            [rewrite <- Hop; cbn;
             do 2 eexists; split; [reflexivity | split; reflexivity] |]).
    contradiction.
  - apply andb_prop in Hop; destruct Hop as (Hop & Ht).
    destruct (Htext Ht) as (s' & ->).
    apply includes_In in Hop. unfold match_operations in Hop. cbn [In] in Hop.
    repeat (destruct Hop as [Hop | Hop];
            [rewrite <- Hop; cbn;
             do 2 eexists; split; [reflexivity | split; reflexivity] |]).
    contradiction.
Qed.

Lemma field_keys_name (features : list Feature.t) (k : string) (f : Feature.t) :
  field_keys features = true ->
  forall i, index_lookup k i features = Some f ->
  startsWith (Feature.name f) "$" = false.
Proof.
  unfold field_keys. intros Hk i Hf. rewrite forallb_forall in Hk.
  apply negb_true_iff. apply Hk. apply (index_lookup_In _ _ _ _ Hf).
Qed.

(** ** Negation pushed through the filter *)

Lemma field_key_not_operator (k : string) :
  startsWith k "$" = false ->
  String.eqb k "$and" = false /\ String.eqb k "$or" = false
  /\ String.eqb k "$not" = false.
Proof.
  intros H. repeat split; apply String.eqb_neq; intros ->; discriminate.
Qed.

Lemma negate_and (items : list value) :
  negateMongoQuery (VObj [("$and", VArr items)])
  = (negated <- mapM negateMongoQuery items ;; Ok (VObj [("$or", VArr negated)])).
Proof.
  rewrite negateMongoQuery_eq. cbn.
  destruct (mapM negateMongoQuery items); reflexivity.
Qed.

Lemma negate_or (items : list value) :
  negateMongoQuery (VObj [("$or", VArr items)])
  = (negated <- mapM negateMongoQuery items ;; Ok (VObj [("$and", VArr negated)])).
Proof.
  rewrite negateMongoQuery_eq. cbn.
  destruct (mapM negateMongoQuery items); reflexivity.
Qed.

Lemma negate_not (x : value) : negateMongoQuery (VObj [("$not", x)]) = Ok x.
Proof. rewrite negateMongoQuery_eq. reflexivity. Qed.

Lemma negate_field (field : string) (condition : value) :
  startsWith field "$" = false ->
  negateMongoQuery (VObj [(field, condition)])
  = Ok (VObj [(field, wrap_not condition)]).
Proof.
  intros H. rewrite negateMongoQuery_eq.
  cbn [negate_query keys map fst negate_keys]. rewrite H. cbn [negb].
  unfold prop. cbn [lookup assign]. rewrite String.eqb_refl. reflexivity.
Qed.

Lemma eval_atom (Doc : Type) (holds : string -> string -> value -> Doc -> bool)
  (field operator : string) (operand : value) (d : Doc) :
  startsWith field "$" = false ->
  includes field_operators operator = true ->
  eval_filter Doc holds (atom field operator operand) d
  = Some (holds field operator operand d).
Proof.
  intros Hf Ho. destruct (field_key_not_operator _ Hf) as (H1 & H2 & _).
  unfold atom. cbn [eval_filter]. rewrite H1, H2, Hf.
  apply includes_In in Ho. unfold field_operators in Ho. cbn [In] in Ho.
  repeat (destruct Ho as [Ho | Ho];
          [rewrite <- Ho; cbn; rewrite !andb_true_r; reflexivity |]).
  contradiction.
Qed.

Lemma eval_negated_atom (Doc : Type)
  (holds : string -> string -> value -> Doc -> bool)
  (field operator : string) (operand : value) (d : Doc) :
  startsWith field "$" = false ->
  includes field_operators operator = true ->
  eval_filter Doc holds (VObj [(field, wrap_not (VObj [(operator, operand)]))]) d
  = Some (negb (holds field operator operand d)).
Proof.
  intros Hf Ho. destruct (field_key_not_operator _ Hf) as (H1 & H2 & _).
  unfold wrap_not. cbn [eval_filter]. rewrite H1, H2, Hf.
  apply includes_In in Ho. unfold field_operators in Ho. cbn [In] in Ho.
  repeat (destruct Ho as [Ho | Ho];
          [rewrite <- Ho; cbn; rewrite !andb_true_r; reflexivity |]).
  contradiction.
Qed.

Lemma eval_or1 (Doc : Type) (holds : string -> string -> value -> Doc -> bool)
  (x : value) (d : Doc) :
  eval_filter Doc holds (VObj [("$or", VArr [x])]) d
  = both (either (eval_filter Doc holds x d) (Some false)) (Some true).
Proof. reflexivity. Qed.

Lemma eval_or2 (Doc : Type) (holds : string -> string -> value -> Doc -> bool)
  (x y : value) (d : Doc) :
  eval_filter Doc holds (VObj [("$or", VArr [x; y])]) d
  = both (either (eval_filter Doc holds x d)
                 (either (eval_filter Doc holds y d) (Some false)))
         (Some true).
Proof. reflexivity. Qed.

Lemma eval_and2 (Doc : Type) (holds : string -> string -> value -> Doc -> bool)
  (x y : value) (d : Doc) :
  eval_filter Doc holds (VObj [("$and", VArr [x; y])]) d
  = both (both (eval_filter Doc holds x d)
               (both (eval_filter Doc holds y d) (Some true)))
         (Some true).
Proof. reflexivity. Qed.

Lemma eval_or_regroup (Doc : Type)
  (holds : string -> string -> value -> Doc -> bool) (a b : value) (d : Doc) :
  eval_filter Doc holds (VObj [("$or", VArr [VObj [("$or", VArr [a; b])]])]) d
  = eval_filter Doc holds
      (VObj [("$or", VArr [VObj [("$or", VArr [a])]; VObj [("$or", VArr [b])]])]) d.
Proof.
  rewrite eval_or1, !eval_or2, !eval_or1.
  destruct (eval_filter Doc holds a d) as [[|] |],
           (eval_filter Doc holds b d) as [[|] |]; reflexivity.
Qed.

(** The two trees of De Morgan over leaves that compile to [fa] and [fb]:
    both negate [fa], then [fb], and differ only in how they group the
    results under [$or]. *)
Lemma toMongoFilter_not_allof engine features (A B : QueryTree) (fa fb : value) :
  toMongoFilter engine features A = Ok fa ->
  toMongoFilter engine features B = Ok fb ->
  toMongoFilter engine features (combine "allof" [A; B])
  = Ok (VObj [("$and", VArr [fa; fb])])
  /\ toMongoFilter engine features (combine "not" [combine "allof" [A; B]])
     = (a <- negateMongoQuery fa ;;
        b <- negateMongoQuery fb ;;
        Ok (VObj [("$or", VArr [VObj [("$or", VArr [a; b])]])]))
  /\ toMongoFilter engine features
       (combine "anyof" [combine "not" [A]; combine "not" [B]])
     = (a <- negateMongoQuery fa ;;
        b <- negateMongoQuery fb ;;
        Ok (VObj [("$or", VArr [VObj [("$or", VArr [a])];
                                 VObj [("$or", VArr [b])]])])).
Proof.
  intros HA HB.
  assert (H0 : toMongoFilter engine features (combine "allof" [A; B])
               = Ok (VObj [("$and", VArr [fa; fb])])).
  { rewrite toMongoFilter_eq.
    cbn [combine type children String.eqb Ascii.eqb Bool.eqb mapM].
    rewrite HA, HB. reflexivity. }
  assert (Hnot : forall X fx,
            toMongoFilter engine features X = Ok fx ->
            toMongoFilter engine features (combine "not" [X])
            = (a <- negateMongoQuery fx ;; Ok (VObj [("$or", VArr [a])]))).
  { intros X fx HX. rewrite toMongoFilter_eq.
    cbn [combine type children String.eqb Ascii.eqb Bool.eqb mapM].
    rewrite HX. cbn [bind]. rewrite negate_and. cbn [mapM].
    destruct (negateMongoQuery fx); reflexivity. }
  split; [exact H0 | split].
  - rewrite (Hnot _ _ H0). rewrite negate_and. cbn [mapM].
    destruct (negateMongoQuery fa); cbn [bind]; [| reflexivity].
    destruct (negateMongoQuery fb); reflexivity.
  - rewrite toMongoFilter_eq.
    cbn [combine type children String.eqb Ascii.eqb Bool.eqb mapM].
    fold (combine "not" [A]). fold (combine "not" [B]).
    rewrite (Hnot _ _ HA), (Hnot _ _ HB).
    destruct (negateMongoQuery fa); cbn [bind]; [| reflexivity].
    destruct (negateMongoQuery fb); reflexivity.
Qed.

(** Whatever two trees compile to, the two trees of De Morgan over them
    come out alike. *)
Lemma de_morgan_same_outcome engine features (A B : QueryTree) (fa fb : value) :
  toMongoFilter engine features A = Ok fa ->
  toMongoFilter engine features B = Ok fb ->
  same_outcome
    (toMongoFilter engine features (combine "not" [combine "allof" [A; B]]))
    (toMongoFilter engine features
       (combine "anyof" [combine "not" [A]; combine "not" [B]])).
Proof.
  intros EA EB.
  destruct (toMongoFilter_not_allof _ _ _ _ _ _ EA EB) as (_ & E1 & E2).
  rewrite E1, E2. unfold same_outcome.
  destruct (negateMongoQuery fa) as [a | e]; cbn [bind]; [| reflexivity].
  destruct (negateMongoQuery fb) as [b | e]; cbn [bind]; [| reflexivity].
  intros Doc holds d. apply eval_or_regroup.
Qed.

(** C2. Negation is pushed through the filter by De Morgan: the negation of
    [$and] is the [$or] of the negated elements, the negation of [$or] is the
    [$and] of the negated elements, the negation of [$not] is its operand,
    and the negation of a field condition is that condition under [$not],
    which holds exactly when the condition does not. For all valid leaves A
    and B, not(allof(A, B)) and anyof(not(A), not(B)) come out alike; where
    the names of the features are field keys, both compile to filters, which
    have the same truth value on every document, however the operators are
    read, and that value is the negation of the value of allof(A, B). *)
Theorem negation_de_morgan (engine : Engine) (features : list Feature.t) :
  (forall items,
     negateMongoQuery (VObj [("$and", VArr items)])
     = (negated <- mapM negateMongoQuery items ;; Ok (VObj [("$or", VArr negated)])))
  /\ (forall items,
        negateMongoQuery (VObj [("$or", VArr items)])
        = (negated <- mapM negateMongoQuery items ;; Ok (VObj [("$and", VArr negated)])))
  /\ (forall x, negateMongoQuery (VObj [("$not", x)]) = Ok x)
  /\ (forall field operator operand,
        startsWith field "$" = false ->
        includes field_operators operator = true ->
        negateMongoQuery (atom field operator operand)
        = Ok (VObj [(field, wrap_not (VObj [(operator, operand)]))])
        /\ forall Doc holds (d : Doc),
             eval_filter Doc holds (VObj [(field, wrap_not (VObj [(operator, operand)]))]) d
             = option_map negb (eval_filter Doc holds (atom field operator operand) d))
  /\ (forall A B,
        valid_leaf features A = true ->
        valid_leaf features B = true ->
        same_outcome
          (toMongoFilter engine features (combine "not" [combine "allof" [A; B]]))
          (toMongoFilter engine features
             (combine "anyof" [combine "not" [A]; combine "not" [B]]))
        /\ (field_keys features = true ->
            exists f1 f2 f0,
              toMongoFilter engine features
                (combine "not" [combine "allof" [A; B]]) = Ok f1
              /\ toMongoFilter engine features
                   (combine "anyof" [combine "not" [A]; combine "not" [B]]) = Ok f2
              /\ toMongoFilter engine features (combine "allof" [A; B]) = Ok f0
              /\ forall Doc holds (d : Doc),
                   eval_filter Doc holds f1 d = eval_filter Doc holds f2 d
                   /\ exists b, eval_filter Doc holds f0 d = Some b
                                /\ eval_filter Doc holds f1 d = Some (negb b))).
Proof.
  split; [exact negate_and | split; [exact negate_or | split; [exact negate_not |]]].
  split.
  - intros field operator operand Hf Ho. split.
    + unfold atom. apply negate_field, Hf.
    + intros Doc holds d.
      rewrite (eval_atom _ _ _ _ _ _ Hf Ho), (eval_negated_atom _ _ _ _ _ _ Hf Ho).
      reflexivity.
  - intros A B HA HB.
    destruct (valid_leaf_compiles engine _ _ HA) as (fA & oa & xa & HfA & EA & Hoa).
    destruct (valid_leaf_compiles engine _ _ HB) as (fB & ob & xb & HfB & EB & Hob).
    destruct (toMongoFilter_not_allof _ _ _ _ _ _ EA EB) as (E0 & E1 & E2).
    split.
    + apply (de_morgan_same_outcome _ _ _ _ _ _ EA EB).
    + intros Hkeys.
      pose proof (field_keys_name _ _ _ Hkeys _ HfA) as Hfa.
      pose proof (field_keys_name _ _ _ Hkeys _ HfB) as Hfb.
      rewrite E1, E2, E0. unfold atom.
      rewrite (negate_field _ _ Hfa), (negate_field _ _ Hfb). cbn [bind].
      do 3 eexists. split; [reflexivity | split; [reflexivity | split; [reflexivity |]]].
      intros Doc holds d. split; [apply eval_or_regroup |].
      rewrite eval_and2, eval_or1, eval_or2.
      fold (atom (Feature.name fA) oa xa). fold (atom (Feature.name fB) ob xb).
      rewrite !(eval_atom _ _ _ _ _ _ Hfa Hoa), !(eval_atom _ _ _ _ _ _ Hfb Hob).
      rewrite !(eval_negated_atom _ _ _ _ _ _ Hfa Hoa),
              !(eval_negated_atom _ _ _ _ _ _ Hfb Hob).
      destruct (holds (Feature.name fA) oa xa d), (holds (Feature.name fB) ob xb d);
        cbn; eauto.
Qed.

(** ** Reading an escaped literal *)

Lemma escaped_step_literal (r : reader) (c : ascii) :
  needs_escape c = true -> escaped_step r c = Some (push_atom r (Chr c)).
Proof.
  destruct c as [[|] [|] [|] [|] [|] [|] [|] [|]]; intros H;
    try discriminate H; reflexivity.
Qed.

Lemma normal_step_literal (r : reader) (c : ascii) :
  needs_escape c = false -> normal_step r c = Some (push_atom r (Chr c)).
Proof.
  destruct c as [[|] [|] [|] [|] [|] [|] [|] [|]]; intros H;
    try discriminate H; reflexivity.
Qed.

Lemma read_all_app (r : reader) (a b : list ascii) :
  read_all r (a ++ b)%list
  = match read_all r a with
    | Some r' => read_all r' b
    | None => None
    end.
Proof.
  revert r; induction a as [| c a IH]; intros r; cbn [read_all app];
    [reflexivity |].
  destruct (read_step r c); [apply IH | reflexivity].
Qed.

Lemma list_ascii_of_string_app (a b : string) :
  list_ascii_of_string (a ++ b)
  = (list_ascii_of_string a ++ list_ascii_of_string b)%list.
Proof.
  induction a as [| c a IH]; cbn; [reflexivity |]. rewrite IH. reflexivity.
Qed.

Lemma string_of_list_ascii_app (a b : list ascii) :
  string_of_list_ascii (a ++ b)%list
  = (string_of_list_ascii a ++ string_of_list_ascii b)%string.
Proof.
  induction a as [| c a IH]; cbn; [reflexivity |]. rewrite IH. reflexivity.
Qed.

(** Every code unit of an escaped literal is read as itself: no code unit
    of the literal acts as a pattern. *)
Lemma read_escaped (s : string) :
  forall r, mode r = Normal ->
    exists l,
      read_all r (list_ascii_of_string (escape_chars s))
      = Some {| stack := stack r; done := done r;
                terms := (rev (map Chr (list_ascii_of_string s)) ++ terms r)%list;
                last := l; mode := Normal |}.
Proof.
  induction s as [| c s IH]; intros r Hm.
  - exists (last r). destruct r; cbn in *; subst; reflexivity.
  - cbn [escape_chars]. destruct (needs_escape c) eqn:Hc.
    + cbn [list_ascii_of_string read_all]. unfold read_step at 1. rewrite Hm.
      change (normal_step r backslash) with (Some (with_mode r Escaped)).
      unfold read_step at 1. cbn [with_mode mode].
      rewrite (escaped_step_literal _ _ Hc).
      destruct (IH (push_atom (with_mode r Escaped) (Chr c)) eq_refl) as (l & ->).
      exists l. cbn [push_atom with_mode stack done terms map rev].
      rewrite <- app_assoc. reflexivity.
    + cbn [list_ascii_of_string read_all]. unfold read_step at 1. rewrite Hm.
      rewrite (normal_step_literal _ _ Hc).
      destruct (IH (push_atom r (Chr c)) eq_refl) as (l & ->).
      exists l. cbn [push_atom stack done terms map rev].
      rewrite <- app_assoc. reflexivity.
Qed.

Lemma normal_step_dollar (r : reader) :
  normal_step r "$" = Some (push_assertion r Eol).
Proof. reflexivity. Qed.

Lemma sequence_rev (l : list regex) :
  sequence (rev l) = fold_right Seq Eps l.
Proof.
  unfold sequence. rewrite <- fold_left_rev_right, rev_involutive. reflexivity.
Qed.

Lemma read_pattern_literal (start finish : bool) (s : string) :
  read_pattern ((if start then "^" else "") ++ escape_chars s
                ++ (if finish then "$" else ""))
  = Some (anchored_literal start finish (list_ascii_of_string s)).
Proof.
  unfold read_pattern. rewrite !list_ascii_of_string_app, !read_all_app.
  assert (Hstart : exists r0,
            read_all reader_start (list_ascii_of_string (if start then "^" else ""))
            = Some r0
            /\ mode r0 = Normal /\ stack r0 = [] /\ done r0 = []
            /\ terms r0 = if start then [Bol] else []).
  { destruct start; eexists; (split; [reflexivity | repeat split]). }
  destruct Hstart as (r0 & -> & Hm & Hs & Hd & Ht). cbv beta iota.
  rewrite read_all_app.
  destruct (read_escaped s r0 Hm) as (l & ->). cbv beta iota.
  rewrite Hs, Hd, Ht.
  unfold anchored_literal.
  destruct finish; cbn [list_ascii_of_string read_all read_step mode];
    try rewrite normal_step_dollar;
    unfold read_end, push_assertion, alternatives;
    cbn [mode stack done terms fold_left].
  - f_equal.
    replace (Eol :: rev (map Chr (list_ascii_of_string s)) ++ (if start then [Bol] else []))%list
      with (rev ((if start then [Bol] else []) ++ map Chr (list_ascii_of_string s) ++ [Eol])%list).
    + apply sequence_rev.
    + rewrite !rev_app_distr. destruct start; reflexivity.
  - f_equal. rewrite app_nil_r.
    replace (rev (map Chr (list_ascii_of_string s)) ++ (if start then [Bol] else []))%list
      with (rev ((if start then [Bol] else []) ++ map Chr (list_ascii_of_string s))%list).
    + apply sequence_rev.
    + rewrite rev_app_distr. destruct start; reflexivity.
Qed.

(** ** Matching a literal *)

Lemma matches_at_chr ic (c : ascii) (R : regex) (pre rest : list ascii) :
  matches_at ic (Seq (Chr c) R) (pre, rest)
  = match rest with
    | d :: rest' => same_char ic c d && matches_at ic R (d :: pre, rest')
    | [] => false
    end.
Proof.
  unfold matches_at. cbn [match_from]. unfold consume, advance. cbn [snd fst].
  destruct rest as [| d rest]; [reflexivity |].
  destruct (same_char ic c d); cbn [flat_map andb]; [| reflexivity].
  rewrite app_nil_r. reflexivity.
Qed.

Lemma matches_at_bol ic (R : regex) (pre rest : list ascii) :
  matches_at ic (Seq Bol R) (pre, rest)
  = match pre with
    | [] => matches_at ic R (pre, rest)
    | _ => false
    end.
Proof.
  unfold matches_at. cbn [match_from fst].
  destruct pre; cbn [flat_map]; [rewrite app_nil_r |]; reflexivity.
Qed.

Lemma matches_at_eol ic (pre rest : list ascii) :
  matches_at ic (Seq Eol Eps) (pre, rest)
  = match rest with
    | [] => true
    | _ => false
    end.
Proof. destruct rest; reflexivity. Qed.

Lemma matches_literal ic (s : list ascii) (tail : list regex) :
  forall pre rest,
    matches_at ic (fold_right Seq Eps (map Chr s ++ tail)%list) (pre, rest) = true
    <-> exists u rest',
          rest = (u ++ rest')%list
          /\ chars_agree ic s u
          /\ matches_at ic (fold_right Seq Eps tail) ((rev u ++ pre)%list, rest') = true.
Proof.
  unfold chars_agree.
  induction s as [| c s IH]; intros pre rest; cbn [map app fold_right].
  - split.
    + intros H. exists [], rest. repeat split; [constructor | exact H].
    + intros (u & rest' & -> & Hu & H). inversion Hu; subst. exact H.
  - rewrite matches_at_chr. destruct rest as [| d rest].
    + split; [discriminate |].
      intros (u & rest' & Hr & Hu & _). inversion Hu; subst. discriminate.
    + rewrite andb_true_iff, IH. split.
      * intros (Hc & u & rest' & -> & Hu & H).
        exists (d :: u), rest'. repeat split; [constructor; assumption |].
        cbn [rev]. rewrite <- app_assoc. exact H.
      * intros (u & rest' & Hr & Hu & H).
        inversion Hu as [| ? d' ? u' Hc Hu']; subst.
        injection Hr as <- ->. split; [assumption |].
        exists u', rest'. repeat split; [assumption |].
        cbn [rev] in H. rewrite <- app_assoc in H. exact H.
Qed.

Lemma search_spec ic (r : regex) :
  forall rest pre,
    search ic r pre rest = true
    <-> exists u v,
          rest = (u ++ v)%list
          /\ matches_at ic r ((rev u ++ pre)%list, v) = true.
Proof.
  induction rest as [| d rest IH]; intros pre; cbn [search].
  - rewrite orb_false_r. split.
    + intros H. exists [], []. split; [reflexivity | exact H].
    + intros (u & v & Hr & H). symmetry in Hr.
      apply app_eq_nil in Hr. destruct Hr as (-> & ->). exact H.
  - rewrite orb_true_iff, IH. split.
    + intros [H | (u & v & -> & H)].
      * exists [], (d :: rest). split; [reflexivity | exact H].
      * exists (d :: u), v. split; [reflexivity |].
        cbn [rev]. rewrite <- app_assoc. exact H.
    + intros (u & v & Hr & H). destruct u as [| d' u].
      * left. cbn in Hr. subst v. exact H.
      * right. injection Hr as <- ->. exists u, v. split; [reflexivity |].
        cbn [rev] in H. rewrite <- app_assoc in H. exact H.
Qed.

Lemma chars_agree_fold ic :
  forall S U : string,
    chars_agree ic (list_ascii_of_string S) (list_ascii_of_string U)
    <-> fold_case ic U = fold_case ic S.
Proof.
  unfold chars_agree, fold_case, same_char.
  induction S as [| c S IH]; intros [| d U]; cbn [list_ascii_of_string string_map].
  - split; [destruct ic; reflexivity | constructor].
  - split; [intros H; inversion H | destruct ic; discriminate].
  - split; [intros H; inversion H | destruct ic; discriminate].
  - split.
    + intros H. inversion H as [| ? ? ? ? Hc Hrest]; subst.
      apply IH in Hrest. destruct ic.
      * apply Ascii.eqb_eq in Hc. rewrite Hc, Hrest. reflexivity.
      * apply Ascii.eqb_eq in Hc. rewrite Hc, Hrest. reflexivity.
    + intros H. constructor.
      * destruct ic; injection H as Hc _; apply Ascii.eqb_eq; auto.
      * apply IH. destruct ic; injection H as _ Hrest; exact Hrest.
Qed.

(** The pattern built from an escaped literal matches a subject exactly when
    the literal occurs in it. *)
Lemma literal_search (start finish ic : bool) (s t : string) :
  search ic (anchored_literal start finish (list_ascii_of_string s)) []
         (list_ascii_of_string t) = true
  <-> occurs start finish ic s t.
Proof.
  rewrite search_spec. unfold occurs, anchored_literal. split.
  - intros (u0 & v & Ht & H). rewrite app_nil_r in H.
    assert (Hstart : (start = true -> u0 = [])
              /\ matches_at ic
                   (fold_right Seq Eps
                      (map Chr (list_ascii_of_string s)
                       ++ (if finish then [Eol] else []))%list)
                   (rev u0, v) = true).
    { destruct start; cbn [app fold_right] in H.
      - rewrite matches_at_bol in H. destruct (rev u0) eqn:Hrev; [| discriminate].
        split; [| exact H]. intros _.
        rewrite <- (rev_involutive u0), Hrev. reflexivity.
      - split; [discriminate | exact H]. }
    destruct Hstart as (Hstart & Hlit).
    apply matches_literal in Hlit.
    destruct Hlit as (u & rest & -> & Hu & Hend).
    exists (string_of_list_ascii u0), (string_of_list_ascii u),
           (string_of_list_ascii rest).
    repeat split.
    + rewrite <- !string_of_list_ascii_app, <- Ht.
      symmetry. apply string_of_list_ascii_of_string.
    + apply chars_agree_fold.
      rewrite list_ascii_of_string_of_list_ascii. exact Hu.
    + intros Hs. rewrite (Hstart Hs). reflexivity.
    + intros Hf. subst finish. cbn [fold_right] in Hend.
      rewrite matches_at_eol in Hend. destruct rest; [reflexivity | discriminate].
  - intros (before & found & after & -> & Hfound & Hstart & Hfinish).
    exists (list_ascii_of_string before),
           (list_ascii_of_string found ++ list_ascii_of_string after)%list.
    split; [rewrite !list_ascii_of_string_app; reflexivity |].
    rewrite app_nil_r.
    assert (Hlit : matches_at ic
                   (fold_right Seq Eps
                      (map Chr (list_ascii_of_string s)
                       ++ (if finish then [Eol] else []))%list)
                   (rev (list_ascii_of_string before),
                    (list_ascii_of_string found ++ list_ascii_of_string after)%list)
                   = true).
    { apply matches_literal.
      exists (list_ascii_of_string found), (list_ascii_of_string after).
      repeat split; [apply chars_agree_fold; exact Hfound |].
      destruct finish; [| reflexivity].
      rewrite (Hfinish eq_refl). reflexivity. }
    destruct start; cbn [app fold_right]; [| exact Hlit].
    rewrite matches_at_bol. rewrite (Hstart eq_refl) in *. exact Hlit.
Qed.

Lemma regex_test_literal (start finish ic : bool) (s t : string) :
  exists b,
    regex_test ((if start then "^" else "") ++ escape_chars s
                ++ (if finish then "$" else ""))
               (if ic then "i" else "") t = Some b
    /\ (b = true <-> occurs start finish ic s t).
Proof.
  unfold regex_test. rewrite read_pattern_literal.
  replace (read_flags (if ic then "i" else "")) with (Some ic)
    by (destruct ic; reflexivity).
  eexists. split; [reflexivity |]. apply literal_search.
Qed.

(** ** String matches and the null test in compiled filters *)

Lemma match_shape_cases (op : string) (shape : bool * bool * bool) :
  match_shape op = Some shape ->
  (op = "cn" /\ shape = (false, false, false))
  \/ (op = "cni" /\ shape = (false, false, true))
  \/ (op = "sw" /\ shape = (true, false, false))
  \/ (op = "swi" /\ shape = (true, false, true))
  \/ (op = "ew" /\ shape = (false, true, false))
  \/ (op = "ewi" /\ shape = (false, true, true)).
Proof.
  unfold match_shape.
  repeat match goal with
         | |- context [String.eqb op ?k] =>
             destruct (String.eqb_spec op k) as [-> | _];
             [intros H; injection H as <-; tauto |]
         end.
  discriminate.
Qed.

(** C6, as the code has it. On a feature that holds text, a string-match
    leaf with a literal [s] compiles to a [$regex] condition on the field of
    the feature. Its pattern is the escaped form of the literal as the codec
    returns it (the first 255 code units of [s] for a nominal feature, [s]
    itself for a text feature), after [^] for sw and swi and before [$] for
    ew and ewi, with the flag [i] for the variants that ignore case. The
    pattern reads as that literal, code unit by code unit, so it matches a
    subject exactly when the subject contains, starts with or ends with the
    literal, up to case for the [i] variants. *)
Theorem string_match_literal (engine : Engine) (features : list Feature.t)
  (q : QueryTree) (f : Feature.t) (s : string) (start finish ic : bool) :
  is_combinator (type q) = false ->
  right q = Some s ->
  index_lookup (Number_toString (left q)) 0%N features = Some f ->
  holds_text (Feature.type f) = true ->
  match_shape (operation q) = Some (start, finish, ic) ->
  let literal := coerced_literal (Feature.type f) s in
  let pattern := (if start then "^" else "") ++ escape_chars literal
                 ++ (if finish then "$" else "") in
  let flags := if ic then "i" else "" in
  toMongoFilter engine features q
  = Ok (atom (Feature.name f) "$regex" (VRegExp pattern flags))
  /\ read_pattern pattern
     = Some (anchored_literal start finish (list_ascii_of_string literal))
  /\ forall t, exists b,
       regex_test pattern flags t = Some b
       /\ (b = true <-> occurs start finish ic literal t).
Proof.
  intros Hty Hr Hf Htext Hshape literal pattern flags.
  split; [| split].
  - destruct (not_combinator _ Hty) as (H1 & H2 & H3).
    rewrite toMongoFilter_eq, H1, H2, H3. unfold leaf_filter.
    rewrite Hr, Hf. cbn [is_null andb nullable_string]. rewrite andb_false_r.
    assert (Hcmp : turnInto engine (VStr s) (Feature.type f) = Ok (VStr literal)).
    { unfold literal. destruct (Feature.type f); try discriminate; reflexivity. }
    rewrite Hcmp. cbn [bind]. subst pattern flags.
    destruct (match_shape_cases _ _ Hshape)
      as [(-> & E) | [(-> & E) | [(-> & E) | [(-> & E) | [(-> & E) | (-> & E)]]]]];
      injection E as -> -> ->; reflexivity.
  - apply read_pattern_literal.
  - intros t. apply regex_test_literal.
Qed.

Lemma string_match_literal_witness :
  toMongoFilter plain_engine species_schema (leaf "cn" 1 (Some "a.b*"))
  = Ok (atom "species" "$regex" (VRegExp "a\.b\*" ""))
  /\ regex_test "a\.b\*" "" "xa.b*y" = Some true
  /\ regex_test "a\.b\*" "" "xaabbby" = Some false
  /\ (exists b, regex_test "a\.b\*" "" "a.b" = Some b
                /\ (b = true <-> occurs false false false "a.b*" "a.b")).
Proof.
  pose proof (string_match_literal plain_engine species_schema
                (leaf "cn" 1 (Some "a.b*"))
                {| Feature.index := 1; Feature.type := nominal;
                   Feature.name := "species" |}
                "a.b*" false false false
                eq_refl eq_refl eq_refl eq_refl eq_refl) as (Hc & _ & Ht).
  split; [exact Hc | split; [reflexivity | split; [reflexivity |]]].
  exact (Ht "a.b").
Defined.

Lemma length_append (a b : string) :
  String.length (a ++ b) = (String.length a + String.length b)%nat.
Proof. induction a as [| c a IH]; cbn; [reflexivity |]. rewrite IH. reflexivity. Qed.

(** C6, as the claim has it, fails on a nominal feature for a literal longer
    than 255 code units: the pattern holds only the first 255. With the
    operation ew and the literal of 255 [a] and one [b], the pattern matches
    the subject of 255 [a], which does not end with the literal. *)
Lemma string_match_truncation_counterexample :
  toMongoFilter plain_engine species_schema (leaf "ew" 1 (Some long_literal))
  = Ok (atom "species" "$regex" (VRegExp (escape_chars long_literal_cut ++ "$") ""))
  /\ regex_test (escape_chars long_literal_cut ++ "$") "" long_literal_cut = Some true
  /\ ~ occurs false true false long_literal long_literal_cut.
Proof.
  split; [vm_compute; reflexivity | split; [vm_compute; reflexivity |]].
  intros (before & found & after & Ht & Hfound & _ & Hafter).
  cbn [fold_case] in Hfound. subst found. rewrite (Hafter eq_refl) in Ht.
  apply (f_equal String.length) in Ht.
  rewrite !length_append in Ht.
  replace (String.length long_literal_cut) with 255%nat in Ht by (vm_compute; reflexivity).
  replace (String.length long_literal) with 256%nat in Ht by (vm_compute; reflexivity).
  lia.
Qed.

(** On a feature that holds no text the codec returns a number, a boolean,
    a date or null, and escaping it raises. *)
Lemma string_match_raises_on_numeric :
  toMongoFilter plain_engine species_schema (leaf "cn" 0 (Some "5"))
  = Throw TypeError.
Proof. reflexivity. Qed.

(** C7. A leaf with the operation null compiles to a filter that does not
    name the field of its feature: it is the same filter for every feature,
    so it cannot say that this field is absent or null. The backend refuses
    it, since [$exists] is no operator of the top level. *)
Theorem null_leaf_ignores_field (engine : Engine) (features : list Feature.t)
  (q : QueryTree) (f : Feature.t) :
  is_combinator (type q) = false ->
  operation q = "null" ->
  index_lookup (Number_toString (left q)) 0%N features = Some f ->
  toMongoFilter engine features q = Ok null_filter
  /\ forall Doc holds (d : Doc), eval_filter Doc holds null_filter d = None.
Proof.
  intros Hty Hop Hf. split; [| reflexivity].
  destruct (not_combinator _ Hty) as (H1 & H2 & H3).
  rewrite toMongoFilter_eq, H1, H2, H3. unfold leaf_filter.
  rewrite Hop, Hf. cbn [String.eqb Ascii.eqb Bool.eqb negb andb].
  assert (Hcmp : exists cmp,
            turnInto engine (nullable_string (right q)) (Feature.type f) = Ok cmp).
  { destruct (right q) as [s |]; cbn [nullable_string].
    - destruct (turnInto_string engine s (Feature.type f)) as (v & Hv & _). eauto.
    - exists VNull. reflexivity. }
  destruct Hcmp as (cmp & ->). reflexivity.
Qed.

Lemma null_leaf_ignores_field_witness :
  toMongoFilter plain_engine species_schema (leaf "null" 1 None) = Ok null_filter
  /\ toMongoFilter plain_engine species_schema (leaf "null" 0 None) = Ok null_filter.
Proof.
  split.
  - apply (null_leaf_ignores_field plain_engine species_schema (leaf "null" 1 None)
             {| Feature.index := 1; Feature.type := nominal;
                Feature.name := "species" |}); reflexivity.
  - apply (null_leaf_ignores_field plain_engine species_schema (leaf "null" 0 None)
             {| Feature.index := 0; Feature.type := numeric;
                Feature.name := "sepalLength" |}); reflexivity.
Defined.

Lemma negation_de_morgan_witness :
  same_outcome
    (toMongoFilter plain_engine species_schema
       (combine "not" [combine "allof" [leaf "eq" 0 (Some "5.1");
                                        leaf "cn" 1 (Some "set")]]))
    (toMongoFilter plain_engine species_schema
       (combine "anyof" [combine "not" [leaf "eq" 0 (Some "5.1")];
                         combine "not" [leaf "cn" 1 (Some "set")]]))
  /\ exists f1 f2 f0,
       toMongoFilter plain_engine species_schema
         (combine "not" [combine "allof" [leaf "eq" 0 (Some "5.1");
                                          leaf "cn" 1 (Some "set")]]) = Ok f1
       /\ toMongoFilter plain_engine species_schema
            (combine "anyof" [combine "not" [leaf "eq" 0 (Some "5.1")];
                              combine "not" [leaf "cn" 1 (Some "set")]]) = Ok f2
       /\ toMongoFilter plain_engine species_schema
            (combine "allof" [leaf "eq" 0 (Some "5.1"); leaf "cn" 1 (Some "set")])
          = Ok f0
       /\ forall Doc holds (d : Doc),
            eval_filter Doc holds f1 d = eval_filter Doc holds f2 d
            /\ exists b, eval_filter Doc holds f0 d = Some b
                         /\ eval_filter Doc holds f1 d = Some (negb b).
Proof.
  destruct (proj2 (proj2 (proj2 (proj2
              (negation_de_morgan plain_engine species_schema))))
              (leaf "eq" 0 (Some "5.1")) (leaf "cn" 1 (Some "set"))
              eq_refl eq_refl) as (Hsame & Hkeys).
  split; [exact Hsame | apply Hkeys; reflexivity].
Defined.

(** ** The update queue *)

Lemma push_all (instances : list (list value)) :
  forall ds,
    fold_left (fun ds i => queue_push i ds) instances ds = enqueued instances ds.
Proof.
  induction instances as [| i instances IH]; intros ds; cbn [fold_left].
  - unfold enqueued. rewrite app_nil_r. destruct ds; reflexivity.
  - rewrite IH. unfold enqueued, queue_push. cbn.
    rewrite <- app_assoc. reflexivity.
Qed.

Lemma pushInstances_run (Store : Type) (backend : Backend Store)
  (instances : list (list value)) (ds : DataSource) (st : Store) :
  pushInstances Store backend instances (ds, st)
  = match connect backend st with
    | Throw e => (Throw e, (ds, st))
    | Ok _ =>
        match insertMany backend (map (mongo_row (fields ds)) instances) st with
        | (Throw e, st') => (Throw e, (ds, st'))
        | (Ok _, st') => (Ok tt, (enqueued instances ds, st'))
        end
    end.
Proof.
  unfold pushInstances, and_then, this, await_connect, await_insertMany, update.
  cbn [fst snd].
  destruct (connect backend st) as [[] | e]; [| reflexivity].
  destruct (insertMany backend (map (mongo_row (fields ds)) instances) st)
    as [[[] | e] st']; [| reflexivity].
  cbn [fst snd]. rewrite push_all. reflexivity.
Qed.



(** C10. When the insert fails, [pushInstances] rejects with the error of
    the backend and leaves the data source as it was: the update queue and
    the wake-up counter are unchanged, since the instances go to the queue
    only after the insert returned. The same holds when the connection
    fails. The handler then rejects as well and does not notice an update. *)
Theorem pushInstances_failed_insert (engine : Engine) (Store : Type)
  (backend : Backend Store) (instances : list (list value))
  (ds : DataSource) (st st' : Store) (e : Error) :
  (connect backend st = Throw e /\ st' = st)
  \/ (connect backend st = Ok tt
      /\ insertMany backend (map (mongo_row (fields ds)) instances) st
         = (Throw e, st')) ->
  pushInstances Store backend instances (ds, st) = (Throw e, (ds, st'))
  /\ (forall body,
        sanitizeInstances engine (fields ds)
          (if ToBoolean body then body else VArr []) = Ok instances ->
        StatusController_pushInstances engine Store backend true body (ds, st)
        = (Throw e, (ds, st'))).
Proof.
  intros H.
  assert (Hpush : pushInstances Store backend instances (ds, st)
                  = (Throw e, (ds, st'))).
  { rewrite pushInstances_run.
    destruct H as [(Hc & ->) | (Hc & Hi)]; rewrite Hc; [reflexivity |].
    rewrite Hi. reflexivity. }
  split; [exact Hpush |].
  intros body Hbody.
  unfold StatusController_pushInstances. cbn [negb].
  unfold and_then at 1. unfold this at 1. cbn [fst].
  unfold and_then at 1. unfold lift at 1. rewrite Hbody.
  unfold and_then at 1. rewrite Hpush.
  reflexivity.
Qed.

Lemma pushInstances_failed_insert_witness :
  pushInstances (list value) failing [[VNum (Fin 51 (-1)); VStr "setosa"]]
    (iris_source, [])
  = (Throw (BackendError "insert failed"), (iris_source, [])).
Proof.
  apply (pushInstances_failed_insert plain_engine (list value) failing
           [[VNum (Fin 51 (-1)); VStr "setosa"]] iris_source [] []
           (BackendError "insert failed")).
  right. split; reflexivity.
Defined.

(** ** Nominal values *)








(** ** The canonical form of sanitized trees *)

Lemma get_error (v : value) (k : string) (e : Error) :
  get v k = Throw e -> e = TypeError.
Proof.
  destruct v; cbn [get]; try discriminate;
    try (intros H; injection H as <-; reflexivity).
  - destruct (String.eqb k "length"); discriminate.
  - destruct (String.eqb k "length"); discriminate.
Qed.

Lemma ToString_error engine (v : value) (e : Error) :
  ToString engine v = Throw e -> e = TypeError.
Proof.
  revert e. induction v using value_nested_ind; intros e; cbn [ToString];
    try discriminate.
  - destruct b; discriminate.
  - match goal with
    | |- ?join items true = _ -> _ =>
        enough (Hj : forall first, join items first = Throw e -> e = TypeError)
          by apply Hj
    end.
    induction H as [| x items Hx _ IH]; intros first; [discriminate |].
    destruct (match x with
              | VUndefined | VNull => Ok ""
              | _ => ToString engine x
              end) as [s | e'] eqn:Es; cbn [bind].
    + match goal with
      | |- context [bind ?r _] => destruct r as [t | e''] eqn:Et
      end; cbn [bind]; [discriminate |].
      intros E; injection E as <-. apply (IH false). exact Et.
    + intros E; injection E as <-.
      destruct x; try discriminate; apply Hx; exact Es.
  - destruct (has_own "toString" props); [| discriminate].
    intros E; injection E as <-; reflexivity.
Qed.

Lemma mapM_error {A B : Type} (f : A -> Result B) (l : list A) (e : Error) :
  mapM f l = Throw e -> exists x, In x l /\ f x = Throw e.
Proof.
  induction l as [| x l IH]; cbn [mapM]; [discriminate |].
  destruct (f x) as [y | e'] eqn:Ex; cbn [bind].
  - destruct (mapM f l) as [ys | e''] eqn:El; cbn [bind]; [discriminate |].
    intros E; injection E as <-. destruct (IH eq_refl) as (x' & Hin & Hx').
    exists x'. split; [right; assumption | assumption].
  - intros E; injection E as <-. exists x. split; [left; reflexivity | assumption].
Qed.

Lemma sanitize_node_error engine self (tree : value) (depth : Z) (e : Error) :
  sanitize_node engine self tree depth = Throw e ->
  (forall x e', self x (depth + 1) = Throw e' -> e' = TypeError) ->
  e = TypeError.
Proof.
  unfold sanitize_node. intros H Hself.
  destruct (String.eqb (typeof tree) "object"); [| discriminate].
  destruct (get tree "type") as [ty | e1] eqn:E1; cbn [bind] in H.
  2:{ injection H as <-. apply (get_error _ _ _ E1). }
  destruct (ToString engine ty) as [tys | e2] eqn:E2; cbn [bind] in H.
  2:{ injection H as <-. apply (ToString_error _ _ _ E2). }
  destruct (get tree "operation") as [op | e3] eqn:E3; cbn [bind] in H.
  2:{ injection H as <-. apply (get_error _ _ _ E3). }
  destruct (ToString engine op) as [ops | e4] eqn:E4; cbn [bind] in H.
  2:{ injection H as <-. apply (ToString_error _ _ _ E4). }
  destruct (get tree "left") as [lf | e5] eqn:E5; cbn [bind] in H.
  2:{ injection H as <-. apply (get_error _ _ _ E5). }
  destruct (get tree "right") as [rv | e6] eqn:E6; cbn [bind] in H.
  2:{ injection H as <-. apply (get_error _ _ _ E6). }
  match type of H with
  | bind ?r _ = _ => destruct r as [rt | e7] eqn:E7; cbn [bind] in H
  end.
  2:{ injection H as <-.
      destruct rv; try discriminate;
        (destruct (ToString engine _) eqn:Er in E7; cbn [bind] in E7;
         [discriminate | injection E7 as <-; apply (ToString_error _ _ _ Er)]). }
  match type of H with
  | bind ?r _ = _ => destruct r as [ch | e8] eqn:E8; cbn [bind] in H
  end; [discriminate |].
  injection H as <-.
  match type of E8 with
  | (if ?c then _ else _) = _ => destruct c; [| discriminate]
  end.
  destruct (get tree "children") as [cv | e'] eqn:Ec; cbn [bind] in E8.
  - destruct cv; try discriminate.
    destruct (mapM_error _ _ _ E8) as (x & _ & Hx). apply (Hself _ _ Hx).
  - injection E8 as <-. apply (get_error _ _ _ Ec).
Qed.

Lemma floored_fixed (n : number) : Math_floor n = n -> floored n = true.
Proof.
  destruct n as [| s | m e]; cbn [Math_floor floored]; try reflexivity.
  destruct (0 <=? e) eqn:He; [reflexivity |].
  intros H. injection H as _ <-. discriminate He.
Qed.

Lemma canonical_eq (t : QueryTree) :
  canonical t
  = includes query_types (type t)
    && (String.eqb (operation t) "" || includes query_operations (operation t))
    && floored (left t)
    && match right t with
       | Some s => (String.length s <=? 1024)%nat
       | None => true
       end
    && (is_combinator (type t) || (List.length (children t) =? 0)%nat)
    && forallb canonical (children t).
Proof. destruct t; reflexivity. Qed.

Lemma sanitize_node_canonical engine self (tree : value) (depth : Z) (t : QueryTree) :
  sanitize_node engine self tree depth = Ok t ->
  (forall x c, self x (depth + 1) = Ok c -> canonical c = true) ->
  canonical t = true.
Proof.
  intros H Hself.
  destruct (sanitize_node_Ok _ _ _ _ _ H) as (Hty & Hop & Hlf & Hrt & Hch).
  rewrite canonical_eq.
  rewrite (In_includes _ _ Hty), (floored_fixed _ Hlf). cbn [andb].
  assert (Hop' : String.eqb (operation t) ""
                 || includes query_operations (operation t) = true).
  { destruct Hop as [-> | Hop]; [reflexivity |].
    rewrite (In_includes _ _ Hop). apply orb_true_r. }
  rewrite Hop'. cbn [andb].
  assert (Hrt' : match right t with
                 | Some s => (String.length s <=? 1024)%nat
                 | None => true
                 end = true).
  { destruct (right t) as [s |]; [| reflexivity].
    apply Nat.leb_le. apply Hrt. reflexivity. }
  rewrite Hrt'. cbn [andb].
  unfold kept_children in Hch.
  destruct (String.eqb (typeof tree) "object"
            && (depth <? QUERY_TREE_MAX_DEPH) && is_combinator (type t)) eqn:Hguard.
  2:{ rewrite Hch. cbn [List.length Nat.eqb forallb].
      rewrite orb_true_r. reflexivity. }
  apply andb_prop in Hguard. destruct Hguard as (_ & ->). cbn [orb andb].
  destruct Hch as (cv & _ & Hch).
  destruct cv; try (rewrite Hch; reflexivity).
  apply forallb_forall. intros c Hc.
  destruct (mapM_In _ _ _ _ Hch Hc) as (x & _ & Hx). apply (Hself _ _ Hx).
Qed.

Lemma sanitize_levels_canonical engine (n : nat) :
  forall tree depth,
    match sanitize_levels engine n tree depth with
    | Ok t => canonical t = true
    | Throw e => e = TypeError
    end.
Proof.
  induction n as [| n IH]; intros tree depth; cbn [sanitize_levels].
  - destruct (sanitize_node engine _ tree depth) as [t | e] eqn:H.
    + apply (sanitize_node_canonical _ _ _ _ _ H).
      intros x c Hc. injection Hc as <-. reflexivity.
    + apply (sanitize_node_error _ _ _ _ _ H). discriminate.
  - destruct (sanitize_node engine _ tree depth) as [t | e] eqn:H.
    + apply (sanitize_node_canonical _ _ _ _ _ H).
      intros x c Hc. specialize (IH x (depth + 1)). rewrite Hc in IH. exact IH.
    + apply (sanitize_node_error _ _ _ _ _ H).
      intros x e' Hx. specialize (IH x (depth + 1)). rewrite Hx in IH. exact IH.
Qed.

(** X1. Whatever the input and the depth, the sanitizer either raises a
    TypeError or returns a tree in canonical form: every node has one of the
    five types, one of the fourteen operations or the empty one, a floored
    left index, a right literal of at most 1024 code units or null, and
    children only under a combinator. *)
Theorem sanitizeQueryTree_canonical (engine : Engine) (tree : value) (depth : Z) :
  match sanitizeQueryTree engine tree depth with
  | Ok t => canonical t = true
  | Throw e => e = TypeError
  end.
Proof. apply sanitize_levels_canonical. Qed.
(** ** The values of the codec *)

Lemma turnInto_typed engine (data : value) (ty : FeatureType) (v : value) :
  turnInto engine data ty = Ok v -> typed ty v = true.
Proof.
  unfold turnInto. intros H.
  destruct (is_nullish data) eqn:Hn.
  { destruct data; try discriminate Hn; injection H as <-; reflexivity. }
  assert (H' : match ty with
               | nominal => s <- ToString engine data ;; Ok (VStr (substr0 255 s))
               | text => s <- ToString engine data ;; Ok (VStr s)
               | numeric =>
                   n <- ToNumber engine data ;;
                   if isNaN n then Ok VNull else Ok (VNum n)
               | logic =>
                   match data with
                   | VStr s =>
                       if String.eqb s "true" || String.eqb s "1" then Ok (VBool true)
                       else if String.eqb s "false" || String.eqb s "0"
                       then Ok (VBool false)
                       else Ok (VBool (ToBoolean data))
                   | _ => Ok (VBool (ToBoolean data))
                   end
               | date =>
                   match (tv <- Date_construct engine data ;;
                          _ <- toISOString tv ;;
                          Ok (VDate tv)) with
                   | Ok d => Ok d
                   | Throw _ => Ok (VDate (Some 0))
                   end
               end = Ok v).
  { destruct data; try discriminate Hn; exact H. }
  clear H Hn. destruct ty.
  - bind_inv H'. injection H' as <-. cbn [typed].
    apply Nat.leb_le, substring0_length.
  - bind_inv H'. injection H' as <-. reflexivity.
  - bind_inv H'. destruct (isNaN x) eqn:Hx; injection H' as <-; cbn [typed];
      [reflexivity | rewrite Hx; reflexivity].
  - destruct data;
      try (injection H' as <-; reflexivity).
    destruct (String.eqb s "true" || String.eqb s "1");
      [injection H' as <-; reflexivity |].
    destruct (String.eqb s "false" || String.eqb s "0");
      injection H' as <-; reflexivity.
  - destruct (Date_construct engine data) as [[t |] | e]; cbn [bind toISOString] in H';
      injection H' as <-; reflexivity.
Qed.

Lemma typed_fixed engine (ty : FeatureType) (v : value) :
  typed ty v = true -> turnInto engine v ty = Ok v.
Proof.
  destruct v as [| | b | n | s | [t |] | p f | items | props], ty;
    cbn [typed]; intros H; try discriminate H; try reflexivity.
  - cbn [turnInto ToNumber bind]. apply negb_true_iff in H. rewrite H. reflexivity.
  - cbn [turnInto ToString bind]. apply Nat.leb_le in H.
    unfold substr0. rewrite substring0_all by assumption. reflexivity.
Qed.

(** X3. The codec returns only values of the declared type: null, or a
    string of at most 255 code units for nominal, a string for text, a number
    other than NaN for numeric, a boolean for logic, a valid date for date.
    Every such value is a fixed point of the codec, so converting a second
    time changes nothing: the values of a type are exactly the results of
    the codec for that type. *)
Theorem turnInto_idempotent (engine : Engine) (data : value) (ty : FeatureType) :
  (v <- turnInto engine data ty ;; turnInto engine v ty) = turnInto engine data ty
  /\ (forall v, turnInto engine data ty = Ok v -> typed ty v = true)
  /\ (forall v, typed ty v = true -> turnInto engine v ty = Ok v).
Proof.
  split; [| split].
  - destruct (turnInto engine data ty) as [v | e] eqn:H; cbn [bind]; [| reflexivity].
    apply typed_fixed. apply (turnInto_typed _ _ _ _ H).
  - intros v. apply turnInto_typed.
  - intros v. apply typed_fixed.
Qed.

Lemma turnInto_idempotent_witness :
  turnInto plain_engine (VNum (Fin 15 (-1))) nominal = Ok (VStr "1.5")
  /\ turnInto plain_engine (VStr "1.5") nominal = Ok (VStr "1.5").
Proof.
  split; [reflexivity |].
  apply (proj2 (proj2 (turnInto_idempotent plain_engine VNull nominal))).
  reflexivity.
Defined.
(** ** Induction over filters *)

Lemma filter_nested_ind (R : value -> Prop) :
  (forall v,
     (forall k items x, v = VObj [(k, VArr items)] -> In x items -> R x) -> R v) ->
  forall v, R v.
Proof.
  intros step v.
  enough (H : R v /\ (forall items, v = VArr items -> Forall R items)) by apply H.
  induction v using value_nested_ind;
    try (split; [apply step; discriminate | discriminate]).
  - split; [apply step; discriminate |].
    intros items' E; injection E as <-.
    apply Forall_impl with (2 := H). intros x Hx; apply Hx.
  - split; [| discriminate].
    apply step. intros k items x E Hin. injection E as ->.
    apply Forall_inv in H. cbn [snd] in H. destruct H as (_ & H).
    specialize (H items eq_refl). rewrite Forall_forall in H. apply H, Hin.
Qed.

Lemma eval_and (Doc : Type) (holds : string -> string -> value -> Doc -> bool)
  (x : value) (items : list value) (d : Doc) :
  eval_filter Doc holds (VObj [("$and", VArr (x :: items))]) d
  = both (all_of (map (fun y => eval_filter Doc holds y d) (x :: items))) (Some true).
Proof.
  cbn [eval_filter String.eqb Ascii.eqb Bool.eqb]. f_equal.
  unfold all_of. cbn [map fold_right]. f_equal.
  induction items as [| y l IH]; [reflexivity |].
  cbn [map fold_right]. rewrite <- IH. reflexivity.
Qed.

Lemma eval_or (Doc : Type) (holds : string -> string -> value -> Doc -> bool)
  (x : value) (items : list value) (d : Doc) :
  eval_filter Doc holds (VObj [("$or", VArr (x :: items))]) d
  = both (any_of (map (fun y => eval_filter Doc holds y d) (x :: items))) (Some true).
Proof.
  cbn [eval_filter String.eqb Ascii.eqb Bool.eqb]. f_equal.
  unfold any_of. cbn [map fold_right]. f_equal.
  induction items as [| y l IH]; [reflexivity |].
  cbn [map fold_right]. rewrite <- IH. reflexivity.
Qed.
(** ** Negation over the shapes of filters *)

Lemma negate_empty : negateMongoQuery (VObj []) = Ok (VObj []).
Proof. reflexivity. Qed.

Lemma negate_operator (k : string) (c : value) :
  startsWith k "$" = true ->
  String.eqb k "$and" = false -> String.eqb k "$or" = false ->
  String.eqb k "$not" = false ->
  negateMongoQuery (VObj [(k, c)]) = Ok (VObj [(k, c)]).
Proof.
  intros H H1 H2 H3. rewrite negateMongoQuery_eq.
  cbn [negate_query keys map fst negate_keys]. rewrite H, H1, H2, H3.
  reflexivity.
Qed.

Lemma mapM_related {A B : Type} (f : A -> Result B) (Q : A -> B -> Prop)
  (l : list A) :
  (forall x, In x l -> exists y, f x = Ok y /\ Q x y) ->
  exists ys, mapM f l = Ok ys /\ Forall2 Q l ys.
Proof.
  induction l as [| x l IH]; intros H; cbn [mapM].
  - exists []. split; [reflexivity | constructor].
  - destruct (H x) as (y & Ey & Hy); [left; reflexivity |].
    destruct IH as (ys & Eys & Hys); [intros z Hz; apply H; right; assumption |].
    exists (y :: ys). rewrite Ey, Eys. split; [reflexivity |].
    constructor; assumption.
Qed.

Lemma negatable_inv (f : value) :
  negatable f = true ->
  f = VObj []
  \/ (exists items,
        (f = VObj [("$and", VArr items)] \/ f = VObj [("$or", VArr items)])
        /\ forallb negatable items = true)
  \/ (exists k c,
        f = VObj [(k, c)] /\ String.eqb k "$and" = false
        /\ String.eqb k "$or" = false /\ String.eqb k "$not" = false).
Proof.
  destruct f as [| | | | | | | | props]; try discriminate.
  destruct props as [| [k c] [| p props]]; try discriminate; [left; reflexivity |].
  cbn [negatable]. intros H. right.
  destruct (String.eqb k "$and") eqn:H1; cbn [orb] in H.
  { apply String.eqb_eq in H1. subst k. left.
    destruct c; try discriminate. eauto. }
  destruct (String.eqb k "$or") eqn:H2; cbn [orb] in H.
  { apply String.eqb_eq in H2. subst k. left.
    destruct c; try discriminate. eauto. }
  right. apply negb_true_iff in H. eauto 8.
Qed.

Lemma Forall2_forallb {A B : Type} (Q : A -> B -> Prop) (p : B -> bool)
  (l : list A) (r : list B) :
  Forall2 Q l r -> (forall x y, Q x y -> p y = true) -> forallb p r = true.
Proof.
  intros H Hp. induction H as [| x y l r Hxy _ IH]; [reflexivity |].
  cbn [forallb]. rewrite (Hp _ _ Hxy), IH. reflexivity.
Qed.

(** [negateMongoQuery] returns on every negatable filter, with a negatable
    filter. *)
Lemma negate_negatable (f : value) :
  negatable f = true ->
  exists f', negateMongoQuery f = Ok f' /\ negatable f' = true.
Proof.
  induction f as [f IH] using filter_nested_ind. intros H.
  destruct (negatable_inv _ H) as [-> | [(items & Hf & Hall) | (k & c & -> & H1 & H2 & H3)]].
  - exists (VObj []). split; reflexivity.
  - rewrite forallb_forall in Hall.
    assert (Hitems : exists ys, mapM negateMongoQuery items = Ok ys
                                /\ Forall2 (fun _ y => negatable y = true) items ys).
    { apply mapM_related. intros x Hx.
      destruct Hf as [-> | ->]; apply (IH _ _ x eq_refl Hx); apply Hall, Hx. }
    destruct Hitems as (ys & Eys & Hys).
    assert (Hys' : forallb negatable ys = true)
      by (apply (Forall2_forallb _ _ _ _ Hys); auto).
    destruct Hf as [-> | ->].
    + rewrite negate_and, Eys. cbn [bind]. eexists. split; [reflexivity |].
      cbn [negatable String.eqb Ascii.eqb Bool.eqb orb]. exact Hys'.
    + rewrite negate_or, Eys. cbn [bind]. eexists. split; [reflexivity |].
      cbn [negatable String.eqb Ascii.eqb Bool.eqb orb]. exact Hys'.
  - destruct (startsWith k "$") eqn:Hk.
    + rewrite (negate_operator _ _ Hk H1 H2 H3). eexists. split; [reflexivity |].
      exact H.
    + rewrite (negate_field _ _ Hk). eexists. split; [reflexivity |].
      cbn [negatable]. rewrite H1, H2, H3. reflexivity.
Qed.

(** *** Filters without a condition *)

Lemma vacuous_inv (f : value) :
  vacuous f = true ->
  f = VObj []
  \/ exists x items,
       (f = VObj [("$and", VArr (x :: items))]
        \/ f = VObj [("$or", VArr (x :: items))])
       /\ forallb vacuous (x :: items) = true.
Proof.
  destruct f as [| | | | | | | | props]; try discriminate.
  destruct props as [| [k c] [| p props]]; try discriminate; [left; reflexivity |].
  cbn [vacuous]. intros H. right.
  apply andb_prop in H. destruct H as (Hk & H).
  destruct c as [| | | | | | | [| x items] |]; try discriminate.
  exists x, items. split; [| exact H].
  apply orb_prop in Hk. destruct Hk as [Hk | Hk]; apply String.eqb_eq in Hk;
    subst k; auto.
Qed.

Lemma Forall2_cons_inv_l {A B : Type} (Q : A -> B -> Prop) (x : A) (l : list A)
  (r : list B) :
  Forall2 Q (x :: l) r -> exists y r', r = y :: r' /\ Q x y /\ Forall2 Q l r'.
Proof. intros H. inversion H; subst. eauto. Qed.

Lemma negate_vacuous (f : value) :
  vacuous f = true ->
  exists f', negateMongoQuery f = Ok f' /\ vacuous f' = true.
Proof.
  induction f as [f IH] using filter_nested_ind. intros H.
  destruct (vacuous_inv _ H) as [-> | (x & items & Hf & Hall)].
  - exists (VObj []). split; reflexivity.
  - rewrite forallb_forall in Hall.
    assert (Hitems : exists ys, mapM negateMongoQuery (x :: items) = Ok ys
                                /\ Forall2 (fun _ y => vacuous y = true) (x :: items) ys).
    { apply mapM_related. intros z Hz.
      destruct Hf as [-> | ->]; apply (IH _ _ z eq_refl Hz); apply Hall, Hz. }
    destruct Hitems as (ys & Eys & Hys).
    assert (Hys' : forallb vacuous ys = true)
      by (apply (Forall2_forallb _ _ _ _ Hys); auto).
    destruct (Forall2_cons_inv_l _ _ _ _ Hys) as (y & ys' & -> & _ & _).
    destruct Hf as [-> | ->].
    + rewrite negate_and, Eys. cbn [bind]. eexists. split; [reflexivity |].
      exact Hys'.
    + rewrite negate_or, Eys. cbn [bind]. eexists. split; [reflexivity |].
      exact Hys'.
Qed.

Lemma eval_vacuous (Doc : Type) (holds : string -> string -> value -> Doc -> bool)
  (d : Doc) (f : value) :
  vacuous f = true -> eval_filter Doc holds f d = Some true.
Proof.
  induction f as [f IH] using filter_nested_ind. intros H.
  destruct (vacuous_inv _ H) as [-> | (x & items & Hf & Hall)]; [reflexivity |].
  rewrite forallb_forall in Hall.
  assert (Hvals : map (fun y => eval_filter Doc holds y d) (x :: items)
                  = map (fun _ => Some true) (x :: items)).
  { apply map_ext_in. intros z Hz.
    destruct Hf as [-> | ->]; apply (IH _ _ z eq_refl Hz); apply Hall, Hz. }
  destruct Hf as [-> | ->].
  - rewrite eval_and, Hvals. clear. cbn [map all_of fold_right both andb].
    enough (E : fold_right both (Some true) (map (fun _ : value => Some true) items)
                = Some true) by (rewrite E; reflexivity).
    induction items as [| z l IHl]; [reflexivity |].
    cbn [map fold_right]. rewrite IHl. reflexivity.
  - rewrite eval_or, Hvals. clear. cbn [map any_of fold_right].
    destruct (fold_right either (Some false) (map (fun _ : value => Some true) items))
      as [b |] eqn:E; [reflexivity |].
    exfalso. revert E. induction items as [| z l IHl]; [discriminate |].
    cbn [map fold_right].
    destruct (fold_right either (Some false) (map (fun _ : value => Some true) l));
      [discriminate | intros _; apply IHl; reflexivity].
Qed.
(** *** Filters built from conditions *)

Lemma field_operator_dollar (op : string) :
  includes field_operators op = true ->
  startsWith op "$" = true /\ String.eqb op "$not" = false.
Proof.
  intros H. apply includes_In in H. unfold field_operators in H. cbn [In] in H.
  repeat (destruct H as [H | H]; [rewrite <- H; split; reflexivity |]).
  contradiction.
Qed.

Lemma both_true (r : option bool) : both r (Some true) = r.
Proof. destruct r as [b |]; [cbn; rewrite andb_true_r |]; reflexivity. Qed.

Lemma eval_condition_operator (Doc : Type)
  (holds : string -> string -> value -> Doc -> bool)
  (field op : string) (x : value) (d : Doc) :
  includes field_operators op = true ->
  eval_condition Doc holds field (VObj [(op, x)]) d = Some (holds field op x d).
Proof.
  intros H. destruct (field_operator_dollar _ H) as (H1 & H2).
  cbn [eval_condition is_operator_doc]. rewrite H1, H2, H. apply both_true.
Qed.

Lemma eval_condition_not (Doc : Type)
  (holds : string -> string -> value -> Doc -> bool)
  (field : string) (props : list (string * value)) (d : Doc) :
  eval_condition Doc holds field (wrap_not (VObj props)) d
  = option_map negb (eval_condition Doc holds field (VObj props) d).
Proof.
  unfold wrap_not.
  change (eval_condition Doc holds field (VObj [("$not", VObj props)]) d)
    with (both (option_map negb (eval_condition Doc holds field (VObj props) d))
               (Some true)).
  apply both_true.
Qed.

Lemma plain_condition_inv (c : value) :
  plain_condition c = true ->
  exists op x, c = VObj [(op, x)]
    /\ (if String.eqb op "$not" then plain_condition x = true
        else includes field_operators op = true).
Proof.
  destruct c as [| | | | | | | | props]; try discriminate.
  destruct props as [| [op x] [| p props]]; try discriminate.
  cbn [plain_condition]. intros H. exists op, x. split; [reflexivity |].
  destruct (String.eqb op "$not"); exact H.
Qed.

Lemma eval_plain_condition (Doc : Type)
  (holds : string -> string -> value -> Doc -> bool)
  (field : string) (d : Doc) (c : value) :
  plain_condition c = true ->
  exists b, eval_condition Doc holds field c d = Some b.
Proof.
  induction c using value_nested_ind; try discriminate.
  intros Hc. destruct (plain_condition_inv _ Hc) as (op & x & E & Hop).
  injection E as ->. apply Forall_inv in H. cbn [snd] in H.
  destruct (String.eqb op "$not") eqn:Hnot.
  - apply String.eqb_eq in Hnot. subst op.
    destruct (H Hop) as (b & Hb).
    destruct (plain_condition_inv _ Hop) as (op' & x' & -> & _).
    exists (negb b). fold (wrap_not (VObj [(op', x')])).
    rewrite eval_condition_not, Hb. reflexivity.
  - eexists. apply eval_condition_operator, Hop.
Qed.

Lemma plain_inv (f : value) :
  plain f = true ->
  (exists x items,
     (f = VObj [("$and", VArr (x :: items))] \/ f = VObj [("$or", VArr (x :: items))])
     /\ forallb plain (x :: items) = true)
  \/ (exists k c,
        f = VObj [(k, c)] /\ startsWith k "$" = false /\ plain_condition c = true).
Proof.
  destruct f as [| | | | | | | | props]; try discriminate.
  destruct props as [| [k c] [| p props]]; try discriminate.
  cbn [plain]. intros H.
  destruct (String.eqb k "$and") eqn:H1; cbn [orb] in H.
  { apply String.eqb_eq in H1. subst k. left.
    destruct c as [| | | | | | | [| x items] |]; try discriminate. eauto 6. }
  destruct (String.eqb k "$or") eqn:H2; cbn [orb] in H.
  { apply String.eqb_eq in H2. subst k. left.
    destruct c as [| | | | | | | [| x items] |]; try discriminate. eauto 6. }
  right. apply andb_prop in H. destruct H as (Hk & Hc).
  apply negb_true_iff in Hk. eauto.
Qed.

Lemma eval_field (Doc : Type) (holds : string -> string -> value -> Doc -> bool)
  (k : string) (c : value) (d : Doc) :
  startsWith k "$" = false ->
  eval_filter Doc holds (VObj [(k, c)]) d = eval_condition Doc holds k c d.
Proof.
  intros Hk. destruct (field_key_not_operator _ Hk) as (H1 & H2 & _).
  cbn [eval_filter]. rewrite H1, H2, Hk. apply both_true.
Qed.

(** De Morgan over the values of two lists of filters. *)
Lemma negated_values (l r : list (option bool)) :
  Forall2 (fun u v => exists b, u = Some b /\ v = Some (negb b)) l r ->
  exists b, all_of l = Some b /\ any_of r = Some (negb b)
            /\ exists b', any_of l = Some b' /\ all_of r = Some (negb b').
Proof.
  induction 1 as [| u v l r (b & -> & ->) _ (B & E1 & E2 & B' & E3 & E4)].
  - exists true. split; [reflexivity | split; [reflexivity |]].
    exists false. split; reflexivity.
  - unfold all_of, any_of in *. cbn [fold_right]. rewrite E1, E2, E3, E4.
    exists (b && B). split; [reflexivity |]. split.
    + cbn [either]. rewrite negb_andb. reflexivity.
    + exists (b || B'). split; [reflexivity |].
      cbn [both]. rewrite negb_orb. reflexivity.
Qed.

Lemma Forall2_map2 {A B C D : Type} (Q : C -> D -> Prop) (f : A -> C) (g : B -> D)
  (l : list A) (r : list B) :
  Forall2 (fun x y => Q (f x) (g y)) l r -> Forall2 Q (map f l) (map g r).
Proof. induction 1; cbn [map]; constructor; assumption. Qed.

(** [negateMongoQuery] returns on every plain filter, with a plain filter
    that holds exactly where the argument does not. *)
Lemma negate_plain (f : value) :
  plain f = true ->
  exists f',
    negateMongoQuery f = Ok f' /\ plain f' = true
    /\ forall Doc holds (d : Doc),
         exists b, eval_filter Doc holds f d = Some b
                   /\ eval_filter Doc holds f' d = Some (negb b).
Proof.
  induction f as [f IH] using filter_nested_ind. intros H.
  destruct (plain_inv _ H) as [(x & items & Hf & Hall) | (k & c & -> & Hk & Hc)].
  - rewrite forallb_forall in Hall.
    assert (Hitems : exists ys,
               mapM negateMongoQuery (x :: items) = Ok ys
               /\ Forall2 (fun z y =>
                             plain y = true
                             /\ forall Doc holds (d : Doc),
                                  exists b, eval_filter Doc holds z d = Some b
                                            /\ eval_filter Doc holds y d = Some (negb b))
                          (x :: items) ys).
    { apply mapM_related. intros z Hz.
      destruct Hf as [-> | ->];
        (destruct (IH _ _ z eq_refl Hz (Hall _ Hz)) as (y & E & Hy); eauto). }
    destruct Hitems as (ys & Eys & Hys).
    assert (Hys' : forallb plain ys = true).
    { apply (Forall2_forallb _ _ _ _ Hys). intros ? ? (Hp & _). exact Hp. }
    assert (Hvals : forall Doc holds (d : Doc),
               Forall2 (fun u v => exists b, u = Some b /\ v = Some (negb b))
                       (map (fun z => eval_filter Doc holds z d) (x :: items))
                       (map (fun y => eval_filter Doc holds y d) ys)).
    { intros Doc holds d. apply Forall2_map2.
      apply Forall2_impl with (2 := Hys). intros z y (_ & Hzy). apply Hzy. }
    destruct (Forall2_cons_inv_l _ _ _ _ Hys) as (y & ys' & -> & _ & _).
    cbn [forallb] in Hys'.
    destruct Hf as [-> | ->].
    + rewrite negate_and, Eys. cbn [bind]. eexists. split; [reflexivity |].
      split; [exact Hys' |].
      intros Doc holds d. rewrite eval_and, eval_or, !both_true.
      destruct (negated_values _ _ (Hvals Doc holds d)) as (b & E1 & E2 & _).
      exists b. split; assumption.
    + rewrite negate_or, Eys. cbn [bind]. eexists. split; [reflexivity |].
      split; [exact Hys' |].
      intros Doc holds d. rewrite eval_and, eval_or, !both_true.
      destruct (negated_values _ _ (Hvals Doc holds d)) as (_ & _ & _ & b & E1 & E2).
      exists b. split; assumption.
  - rewrite (negate_field _ _ Hk). eexists. split; [reflexivity |].
    destruct (field_key_not_operator _ Hk) as (H1 & H2 & _).
    split.
    + cbn [plain wrap_not plain_condition String.eqb Ascii.eqb Bool.eqb].
      rewrite H1, H2, Hk. exact Hc.
    + intros Doc holds d. rewrite !(eval_field _ _ _ _ _ Hk).
      destruct (eval_plain_condition Doc holds k d c Hc) as (b & Hb).
      exists b. split; [exact Hb |].
      destruct (plain_condition_inv _ Hc) as (op & x & -> & _).
      rewrite eval_condition_not, Hb. reflexivity.
Qed.
(** ** Trees without a usable leaf *)

Lemma is_combinator_cases (ty : string) :
  is_combinator ty = true -> ty = "anyof" \/ ty = "allof" \/ ty = "not".
Proof.
  unfold is_combinator. intros H. apply includes_In in H. cbn [In] in H.
  intuition.
Qed.

Lemma not_query_operation (op : string) :
  includes query_operations op = false ->
  Forall (fun o => String.eqb op o = false) query_operations.
Proof.
  unfold includes. intros H.
  apply Forall_forall. intros o Ho.
  destruct (String.eqb op o) eqn:E; [| reflexivity].
  rewrite <- H. symmetry. apply existsb_exists. eauto.
Qed.

Lemma turnInto_nullable engine (r : option string) (ty : FeatureType) :
  returns (turnInto engine (nullable_string r) ty).
Proof.
  destruct r as [s |]; cbn [nullable_string].
  - destruct (turnInto_string engine s ty) as (v & -> & _). eexists; reflexivity.
  - eexists; reflexivity.
Qed.

Lemma dropped_compiles engine features (q : QueryTree) :
  dropped features q = true -> toMongoFilter engine features q = Ok (VObj []).
Proof.
  unfold dropped. intros H. apply andb_prop in H. destruct H as (Hty & H).
  apply negb_true_iff in Hty. destruct (not_combinator _ Hty) as (H1 & H2 & H3).
  rewrite toMongoFilter_eq, H1, H2, H3. unfold leaf_filter.
  destruct (negb (String.eqb (operation q) "null") && is_null (right q));
    [reflexivity |].
  cbn [orb] in H.
  destruct (index_lookup (Number_toString (left q)) 0%N features) as [f |];
    [| reflexivity].
  apply negb_true_iff in H. apply not_query_operation in H.
  destruct (turnInto_nullable engine (right q) (Feature.type f)) as (cmp & ->).
  cbn [bind]. unfold query_operations in H.
  repeat (let E := fresh "E" in
          apply Forall_cons_iff in H; destruct H as (E & H); try rewrite E).
  reflexivity.
Qed.

Lemma hollow_eq features (q : QueryTree) :
  hollow features q
  = if is_combinator (type q) then forallb (hollow features) (children q)
    else dropped features q.
Proof. destruct q; reflexivity. Qed.

Lemma hollow_compiles engine features (q : QueryTree) :
  hollow features q = true ->
  exists f, toMongoFilter engine features q = Ok f /\ vacuous f = true.
Proof.
  induction q as [ty op lf rt ch IH] using tree_nested_ind.
  rewrite hollow_eq. cbn [type children]. intros H.
  destruct (is_combinator ty) eqn:Hty.
  2:{ rewrite (dropped_compiles _ _ _ H). eexists; split; reflexivity. }
  rewrite forallb_forall in H. rewrite Forall_forall in IH.
  assert (Hch : exists fs,
             mapM (toMongoFilter engine features) ch = Ok fs
             /\ Forall2 (fun _ f => vacuous f = true) ch fs).
  { apply mapM_related. intros c Hc. apply (IH c Hc), H, Hc. }
  destruct Hch as (fs & Efs & Hfs).
  assert (Hfs' : forallb vacuous fs = true)
    by (apply (Forall2_forallb _ _ _ _ Hfs); auto).
  rewrite toMongoFilter_eq. cbn [type children]. rewrite Efs. cbn [bind].
  destruct fs as [| f fs].
  { destruct (is_combinator_cases _ Hty) as [-> | [-> | ->]];
      eexists; split; reflexivity. }
  destruct (is_combinator_cases _ Hty) as [-> | [-> | ->]];
    cbn [String.eqb Ascii.eqb Bool.eqb].
  - eexists; split; [reflexivity | exact Hfs'].
  - eexists; split; [reflexivity | exact Hfs'].
  - apply (negate_vacuous (VObj [("$and", VArr (f :: fs))])). exact Hfs'.
Qed.

(** X5. A tree without a usable leaf matches every document, whatever its
    combinators: when every leaf is dropped (a null literal under an
    operation other than null, a left index without a feature, an unknown
    operation), the tree compiles to a filter without a condition, which
    holds of every document, also under [not]: the negation of the empty
    filter is the empty filter. *)
Theorem toMongoFilter_hollow (engine : Engine) (features : list Feature.t)
  (q : QueryTree) :
  hollow features q = true ->
  exists f,
    toMongoFilter engine features q = Ok f
    /\ vacuous f = true
    /\ forall Doc holds (d : Doc), eval_filter Doc holds f d = Some true.
Proof.
  intros H. destruct (hollow_compiles engine _ _ H) as (f & E & Hf).
  exists f. split; [exact E | split; [exact Hf |]].
  intros Doc holds d. apply eval_vacuous, Hf.
Qed.

Lemma toMongoFilter_hollow_witness :
  exists f,
    toMongoFilter plain_engine species_schema
      (combine "not" [leaf "eq" 7 (Some "x"); combine "anyof" [];
                      leaf "eq" 0 None]) = Ok f
    /\ vacuous f = true
    /\ forall Doc holds (d : Doc), eval_filter Doc holds f d = Some true.
Proof.
  apply (toMongoFilter_hollow plain_engine species_schema). reflexivity.
Defined.
(** X4. On a filter built from conditions on fields with [$and] and [$or]
    over non-empty arrays, [negateMongoQuery] returns a filter of the same
    kind that holds of a document exactly when the argument does not, however
    the operators are read; negating twice gives a filter that holds exactly
    when the argument does. *)
Theorem negateMongoQuery_complement (f : value) :
  plain f = true ->
  exists f' f'',
    negateMongoQuery f = Ok f' /\ plain f' = true
    /\ negateMongoQuery f' = Ok f''
    /\ forall Doc holds (d : Doc),
         exists b, eval_filter Doc holds f d = Some b
                   /\ eval_filter Doc holds f' d = Some (negb b)
                   /\ eval_filter Doc holds f'' d = Some b.
Proof.
  intros H.
  destruct (negate_plain f H) as (f' & E' & H' & Hv).
  destruct (negate_plain f' H') as (f'' & E'' & _ & Hv').
  exists f', f''. split; [exact E' | split; [exact H' | split; [exact E'' |]]].
  intros Doc holds d.
  destruct (Hv Doc holds d) as (b & Hb & Hb').
  destruct (Hv' Doc holds d) as (b' & Hc & Hc').
  rewrite Hb' in Hc. injection Hc as <-. rewrite negb_involutive in Hc'.
  exists b. auto.
Qed.

Lemma negateMongoQuery_complement_witness :
  exists f' f'',
    negateMongoQuery
      (VObj [("$and", VArr [atom "species" "$eq" (VStr "setosa");
                            VObj [("$or", VArr [atom "sepalLength" "$lt" (VNum (Fin 5 0));
                                                VObj [("species",
                                                       wrap_not (VObj [("$regex",
                                                         VRegExp "a$" "")]))]])]])])
    = Ok f'
    /\ plain f' = true
    /\ negateMongoQuery f' = Ok f''
    /\ forall Doc holds (d : Doc),
         exists b,
           eval_filter Doc holds
             (VObj [("$and", VArr [atom "species" "$eq" (VStr "setosa");
                                   VObj [("$or", VArr [atom "sepalLength" "$lt" (VNum (Fin 5 0));
                                                       VObj [("species",
                                                              wrap_not (VObj [("$regex",
                                                                VRegExp "a$" "")]))]])]])]) d
           = Some b
           /\ eval_filter Doc holds f' d = Some (negb b)
           /\ eval_filter Doc holds f'' d = Some b.
Proof.
  apply negateMongoQuery_complement. reflexivity.
Defined.

(** ** What a compiled tree means *)

Lemma solid_eq features (q : QueryTree) :
  solid features q
  = if is_combinator (type q) then
      negb (List.length (children q) =? 0)%nat && forallb (solid features) (children q)
    else valid_leaf features q.
Proof. destruct q; reflexivity. Qed.

Lemma meaning_eq engine features (Doc : Type)
  (holds : string -> string -> value -> Doc -> bool) (q : QueryTree) (d : Doc) :
  meaning engine features Doc holds q d
  = if String.eqb (type q) "anyof"
    then existsb (fun c => meaning engine features Doc holds c d) (children q)
    else if String.eqb (type q) "allof"
    then forallb (fun c => meaning engine features Doc holds c d) (children q)
    else if String.eqb (type q) "not"
    then negb (forallb (fun c => meaning engine features Doc holds c d) (children q))
    else leaf_holds engine features Doc holds q d.
Proof. destruct q; reflexivity. Qed.

Lemma plain_atom (field operator : string) (operand : value) :
  startsWith field "$" = false ->
  includes field_operators operator = true ->
  plain (atom field operator operand) = true.
Proof.
  intros Hf Ho. destruct (field_key_not_operator _ Hf) as (H1 & H2 & _).
  destruct (field_operator_dollar _ Ho) as (_ & H3).
  unfold atom. cbn [plain plain_condition]. rewrite H1, H2, Hf, H3, Ho.
  reflexivity.
Qed.

Lemma values_of_children (Doc : Type)
  (holds : string -> string -> value -> Doc -> bool) (d : Doc)
  (m : QueryTree -> bool) (ch : list QueryTree) (fs : list value) :
  Forall2 (fun c f => eval_filter Doc holds f d = Some (m c)) ch fs ->
  all_of (map (fun f => eval_filter Doc holds f d) fs) = Some (forallb m ch)
  /\ any_of (map (fun f => eval_filter Doc holds f d) fs) = Some (existsb m ch).
Proof.
  induction 1 as [| c f ch fs Hcf _ (IH1 & IH2)]; [split; reflexivity |].
  unfold all_of, any_of in *. cbn [map fold_right forallb existsb].
  rewrite Hcf, IH1, IH2. split; reflexivity.
Qed.

Lemma solid_compiles engine features (q : QueryTree) :
  field_keys features = true ->
  solid features q = true ->
  exists f,
    toMongoFilter engine features q = Ok f
    /\ plain f = true
    /\ forall Doc holds (d : Doc),
         eval_filter Doc holds f d = Some (meaning engine features Doc holds q d).
Proof.
  intros Hkeys.
  induction q as [ty op lf rt ch IH] using tree_nested_ind.
  rewrite solid_eq. cbn [type children]. intros H.
  destruct (is_combinator ty) eqn:Hty.
  2:{ destruct (valid_leaf_compiles engine _ _ H) as (ft & o & x & Hft & E & Ho).
      pose proof (field_keys_name _ _ _ Hkeys _ Hft) as Hname.
      exists (atom (Feature.name ft) o x).
      split; [exact E | split; [apply plain_atom; assumption |]].
      intros Doc holds d. rewrite (eval_atom _ _ _ _ _ _ Hname Ho).
      rewrite meaning_eq. cbn [type].
      destruct (not_combinator _ Hty) as (H1 & H2 & H3). rewrite H1, H2, H3.
      unfold leaf_holds. rewrite E. reflexivity. }
  apply andb_prop in H. destruct H as (Hlen & H).
  rewrite forallb_forall in H. rewrite Forall_forall in IH.
  assert (Hch : exists fs,
             mapM (toMongoFilter engine features) ch = Ok fs
             /\ Forall2 (fun c f =>
                           plain f = true
                           /\ forall Doc holds (d : Doc),
                                eval_filter Doc holds f d
                                = Some (meaning engine features Doc holds c d))
                        ch fs).
  { apply mapM_related. intros c Hc. apply (IH c Hc), H, Hc. }
  destruct Hch as (fs & Efs & Hfs).
  assert (Hplain : forallb plain fs = true).
  { apply (Forall2_forallb _ _ _ _ Hfs). intros ? ? (Hp & _). exact Hp. }
  assert (Hvals : forall Doc holds (d : Doc),
             Forall2 (fun c f => eval_filter Doc holds f d
                                 = Some (meaning engine features Doc holds c d)) ch fs).
  { intros Doc holds d. apply Forall2_impl with (2 := Hfs).
    intros c f (_ & Hcf). apply Hcf. }
  destruct ch as [| c ch]; [discriminate Hlen |].
  destruct (Forall2_cons_inv_l _ _ _ _ Hfs) as (f & fs' & -> & _ & _).
  cbn [forallb] in Hplain.
  rewrite toMongoFilter_eq. cbn [type children]. rewrite Efs. cbn [bind].
  destruct (is_combinator_cases _ Hty) as [-> | [-> | ->]];
    cbn [String.eqb Ascii.eqb Bool.eqb].
  - eexists. split; [reflexivity | split; [exact Hplain |]].
    intros Doc holds d. rewrite eval_or, both_true, meaning_eq. cbn [type children].
    apply (values_of_children _ _ _ _ _ _ (Hvals Doc holds d)).
  - eexists. split; [reflexivity | split; [exact Hplain |]].
    intros Doc holds d. rewrite eval_and, both_true, meaning_eq. cbn [type children].
    apply (values_of_children _ _ _ _ _ _ (Hvals Doc holds d)).
  - destruct (negate_plain (VObj [("$and", VArr (f :: fs'))]) Hplain)
      as (g & Eg & Hg & Hv).
    exists g. split; [exact Eg | split; [exact Hg |]].
    intros Doc holds d. destruct (Hv Doc holds d) as (b & Hb & Hb').
    rewrite Hb', meaning_eq. cbn [type children String.eqb Ascii.eqb Bool.eqb].
    rewrite eval_and, both_true in Hb.
    rewrite (proj1 (values_of_children _ _ _ _ _ _ (Hvals Doc holds d))) in Hb.
    injection Hb as <-. reflexivity.
Qed.

(** X6. Where the names of the features are field keys, a tree whose leaves
    are all valid and whose combinators all have children compiles to a
    filter that holds of a document exactly as the tree says: [anyof] when a
    child holds, [allof] when every child holds, [not] when not every child
    holds, and a leaf as the one operator on one field that it compiles to,
    however the operators are read. *)
Theorem toMongoFilter_meaning (engine : Engine) (features : list Feature.t)
  (q : QueryTree) :
  field_keys features = true ->
  solid features q = true ->
  exists f,
    toMongoFilter engine features q = Ok f
    /\ forall Doc holds (d : Doc),
         eval_filter Doc holds f d = Some (meaning engine features Doc holds q d).
Proof.
  intros Hkeys H.
  destruct (solid_compiles engine _ _ Hkeys H) as (f & E & _ & Hf).
  exists f. split; assumption.
Qed.

Lemma toMongoFilter_meaning_witness :
  exists f,
    toMongoFilter plain_engine species_schema species_tree = Ok f
    /\ forall Doc holds (d : Doc),
         eval_filter Doc holds f d
         = Some (meaning plain_engine species_schema Doc holds species_tree d).
Proof.
  apply toMongoFilter_meaning; reflexivity.
Defined.

Example species_tree_meaning (Doc : Type)
  (holds : string -> string -> value -> Doc -> bool) (d : Doc) :
  meaning plain_engine species_schema Doc holds species_tree d
  = (holds "sepalLength" "$lt" (VNum (Fin 5 0)) d
     || (negb ((holds "species" "$regex" (VRegExp "set" "") d
                || (holds "species" "$regex" (VRegExp "a$" "") d || false))
               && true)
         || false)).
Proof. reflexivity. Qed.
(** ** When the compiler raises *)

Lemma raising_eq features (q : QueryTree) :
  raising features q
  = if is_combinator (type q) then existsb (raising features) (children q)
    else raising_leaf features q.
Proof. destruct q; reflexivity. Qed.

Lemma turnInto_string_escape engine (s : string) (ty : FeatureType) :
  exists v, turnInto engine (VStr s) ty = Ok v
            /\ (if holds_text ty then exists s', v = VStr s'
                else escapeRegExp v = Throw TypeError).
Proof.
  destruct ty; cbn [turnInto holds_text ToString bind].
  - eexists; split; [reflexivity | eauto].
  - eexists; split; [reflexivity | eauto].
  - cbn [ToNumber bind]. destruct (isNaN (StringToNumber s));
      eexists; (split; reflexivity).
  - destruct (String.eqb s "true" || String.eqb s "1");
      [eexists; split; reflexivity |].
    destruct (String.eqb s "false" || String.eqb s "0");
      eexists; (split; reflexivity).
  - cbn [Date_construct bind]. destruct (Date_parse engine s);
      cbn [toISOString bind]; eexists; (split; reflexivity).
Qed.

Lemma negatable_field (k : string) (c : value) :
  startsWith k "$" = false -> negatable (VObj [(k, c)]) = true.
Proof.
  intros Hk. destruct (field_key_not_operator _ Hk) as (H1 & H2 & H3).
  cbn [negatable]. rewrite H1, H2, H3. reflexivity.
Qed.

Lemma includes_false (l : list string) (op : string) :
  includes l op = false -> Forall (fun o => String.eqb op o = false) l.
Proof.
  unfold includes. intros H.
  apply Forall_forall. intros o Ho.
  destruct (String.eqb op o) eqn:E; [| reflexivity].
  rewrite <- H. symmetry. apply existsb_exists. eauto.
Qed.

Lemma leaf_outcome engine features (q : QueryTree) :
  field_keys features = true ->
  compiles_or_raises (raising_leaf features q) (leaf_filter engine features q).
Proof.
  intros Hkeys. unfold leaf_filter, raising_leaf, compiles_or_raises.
  destruct (String.eqb (operation q) "null") eqn:Hnull; cbn [negb andb].
  - apply String.eqb_eq in Hnull. rewrite Hnull.
    cbn [includes match_operations existsb String.eqb Ascii.eqb Bool.eqb orb andb].
    destruct (index_lookup (Number_toString (left q)) 0%N features) as [f |].
    + destruct (turnInto_nullable engine (right q) (Feature.type f)) as (cmp & ->).
      cbn [bind]. eexists; split; reflexivity.
    + eexists; split; reflexivity.
  - destruct (right q) as [s |]; cbn [is_null negb andb].
    2:{ rewrite andb_false_r. eexists; split; reflexivity. }
    rewrite andb_true_r.
    destruct (index_lookup (Number_toString (left q)) 0%N features) as [f |] eqn:Hf.
    2:{ rewrite andb_false_r. eexists; split; reflexivity. }
    pose proof (field_keys_name _ _ _ Hkeys _ Hf) as Hname.
    cbn [nullable_string].
    destruct (turnInto_string_escape engine s (Feature.type f)) as (cmp & -> & Hcmp).
    cbn [bind]. unfold compare_with, match_with.
    destruct (includes match_operations (operation q)) eqn:Hop; cbn [andb].
    + apply includes_In in Hop. unfold match_operations in Hop. cbn [In] in Hop.
      destruct (holds_text (Feature.type f)); cbn [negb].
      * destruct Hcmp as (s' & ->). cbn [escapeRegExp bind].
        repeat (destruct Hop as [Hop | Hop];
                [rewrite <- Hop; cbn [String.eqb Ascii.eqb Bool.eqb orb];
                 eexists; split; [reflexivity | apply negatable_field, Hname] |]).
        contradiction.
      * rewrite Hcmp. cbn [bind].
        repeat (destruct Hop as [Hop | Hop];
                [rewrite <- Hop; reflexivity |]).
        contradiction.
    + apply includes_false in Hop. unfold match_operations in Hop.
      repeat (let E := fresh "E" in
              apply Forall_cons_iff in Hop; destruct Hop as (E & Hop); rewrite E).
      destruct (String.eqb (operation q) "eq");
        [eexists; split; [reflexivity | apply negatable_field, Hname] |].
      destruct (String.eqb (operation q) "lt");
        [eexists; split; [reflexivity | apply negatable_field, Hname] |].
      destruct (String.eqb (operation q) "le" || String.eqb (operation q) "lte");
        [eexists; split; [reflexivity | apply negatable_field, Hname] |].
      destruct (String.eqb (operation q) "gt");
        [eexists; split; [reflexivity | apply negatable_field, Hname] |].
      destruct (String.eqb (operation q) "ge" || String.eqb (operation q) "gte");
        [eexists; split; [reflexivity | apply negatable_field, Hname] |].
      eexists; split; reflexivity.
Qed.

Lemma children_outcome (f : QueryTree -> Result value) (raises : QueryTree -> bool)
  (ch : list QueryTree) :
  Forall (fun c => compiles_or_raises (raises c) (f c)) ch ->
  if existsb raises ch then mapM f ch = Throw TypeError
  else exists fs, mapM f ch = Ok fs /\ forallb negatable fs = true.
Proof.
  induction 1 as [| c ch Hc _ IH]; cbn [existsb mapM].
  - exists []. split; reflexivity.
  - unfold compiles_or_raises in Hc. destruct (raises c); cbn [orb].
    + rewrite Hc. reflexivity.
    + destruct Hc as (g & -> & Hg). cbn [bind].
      destruct (existsb raises ch).
      * rewrite IH. reflexivity.
      * destruct IH as (fs & -> & Hfs). cbn [bind].
        exists (g :: fs). split; [reflexivity |].
        cbn [forallb]. rewrite Hg, Hfs. reflexivity.
Qed.

Lemma tree_outcome engine features (q : QueryTree) :
  field_keys features = true ->
  compiles_or_raises (raising features q) (toMongoFilter engine features q).
Proof.
  intros Hkeys.
  induction q as [ty op lf rt ch IH] using tree_nested_ind.
  rewrite raising_eq, toMongoFilter_eq. cbn [type children].
  destruct (is_combinator ty) eqn:Hty.
  2:{ destruct (not_combinator _ Hty) as (H1 & H2 & H3). rewrite H1, H2, H3.
      apply (leaf_outcome engine features (Build_QueryTree ty op lf rt ch) Hkeys). }
  pose proof (children_outcome _ _ _ IH) as Hch.
  unfold compiles_or_raises.
  destruct (existsb (raising features) ch).
  { rewrite Hch.
    destruct (is_combinator_cases _ Hty) as [-> | [-> | ->]]; reflexivity. }
  destruct Hch as (fs & -> & Hfs). cbn [bind].
  destruct fs as [| f fs].
  { destruct (is_combinator_cases _ Hty) as [-> | [-> | ->]];
      eexists; split; reflexivity. }
  destruct (is_combinator_cases _ Hty) as [-> | [-> | ->]];
    cbn [String.eqb Ascii.eqb Bool.eqb].
  - eexists; split; [reflexivity | exact Hfs].
  - eexists; split; [reflexivity | exact Hfs].
  - apply (negate_negatable (VObj [("$and", VArr (f :: fs))])). exact Hfs.
Qed.

(** X7. Where the names of the features are field keys, the compiler raises
    exactly on the trees that hold, below combinators only, a string match
    with a literal on a feature that holds no text: there it raises a
    TypeError, and on every other tree it returns a filter. *)
Theorem toMongoFilter_raises (engine : Engine) (features : list Feature.t)
  (q : QueryTree) :
  field_keys features = true ->
  if raising features q
  then toMongoFilter engine features q = Throw TypeError
  else returns (toMongoFilter engine features q).
Proof.
  intros Hkeys. pose proof (tree_outcome engine features q Hkeys) as H.
  unfold compiles_or_raises in H. destruct (raising features q); [exact H |].
  destruct H as (f & -> & _). eexists; reflexivity.
Qed.

Lemma toMongoFilter_raises_witness :
  toMongoFilter plain_engine species_schema
    (combine "not" [combine "anyof" [leaf "eq" 1 (Some "setosa");
                                     leaf "sw" 0 (Some "5")]])
  = Throw TypeError
  /\ returns (toMongoFilter plain_engine species_schema species_tree).
Proof.
  split.
  - apply (toMongoFilter_raises plain_engine species_schema
             (combine "not" [combine "anyof" [leaf "eq" 1 (Some "setosa");
                                              leaf "sw" 0 (Some "5")]])).
    reflexivity.
  - apply (toMongoFilter_raises plain_engine species_schema species_tree).
    reflexivity.
Defined.
(** ** A filter that is no object *)

(** X8. A filter that is falsy (absent, null, 0, the empty string, false) or
    that is no object (a number, a string, a boolean) is no filter: the
    sanitizer of the data source followed by the compiler gives the empty
    filter, which holds of every document. A top-level null does not reach
    [sanitizeQueryTree]. *)
Theorem sanitizeFilter_not_an_object (engine : Engine) (features : list Feature.t)
  (json : value) :
  ToBoolean json = false \/ String.eqb (typeof json) "object" = false ->
  (q <- sanitizeFilter engine json ;; toMongoFilter_of engine features q)
  = Ok (VObj [])
  /\ forall Doc holds (d : Doc), eval_filter Doc holds (VObj []) d = Some true.
Proof.
  intros H. split; [| reflexivity].
  unfold sanitizeFilter.
  destruct (ToBoolean json) eqn:Hb; cbn [negb]; [| reflexivity].
  destruct H as [H | H]; [discriminate H |].
  rewrite sanitizeQueryTree_eq. unfold sanitize_node. rewrite H.
  reflexivity.
Qed.

Lemma sanitizeFilter_not_an_object_witness :
  ((q <- sanitizeFilter plain_engine VNull ;;
    toMongoFilter_of plain_engine species_schema q) = Ok (VObj [])
   /\ forall Doc holds (d : Doc), eval_filter Doc holds (VObj []) d = Some true)
  /\ ((q <- sanitizeFilter plain_engine (VStr "species = setosa") ;;
       toMongoFilter_of plain_engine species_schema q) = Ok (VObj [])
      /\ forall Doc holds (d : Doc), eval_filter Doc holds (VObj []) d = Some true).
Proof.
  split.
  - apply (sanitizeFilter_not_an_object plain_engine species_schema VNull).
    left; reflexivity.
  - apply (sanitizeFilter_not_an_object plain_engine species_schema
             (VStr "species = setosa")).
    right; reflexivity.
Defined.

(** ** The rows of the data source *)

Lemma decode_row_typed engine (features : list Feature.t) (row : value)
  (instance : list value) :
  decode_row engine features row = Ok instance ->
  Forall2 (fun feature v => typed (Feature.type feature) v = true) features instance.
Proof.
  unfold decode_row. intros H. apply mapM_Forall2 in H.
  apply Forall2_impl with (2 := H). intros f v Hfv.
  bind_inv Hfv. apply (turnInto_typed _ _ _ _ Hfv).
Qed.

Lemma sanitizeInstances_rows engine (features : list Feature.t) (rows : list value) :
  sanitizeInstances engine features (VArr rows)
  = mapM (fun i => decode_row engine features
                     (if negb (String.eqb (typeof i) "object") then VObj [] else i))
         rows.
Proof. reflexivity. Qed.

Lemma Forall2_length_eq {A B : Type} (Q : A -> B -> Prop) (l : list A) (r : list B) :
  Forall2 Q l r -> List.length l = List.length r.
Proof. induction 1; cbn [List.length]; congruence. Qed.

(** X9. The instances that [sanitizeInstances] returns, and the instances
    that [query] hands to [onRow], have one value per feature, in the order
    of the features, and every value is a value of the type of its feature
    (or null). [sanitizeInstances] returns one instance per element of the
    body, in order. *)
Theorem sanitizeInstances_typed (engine : Engine) (features : list Feature.t) :
  (forall row instance,
     decode_row engine features row = Ok instance ->
     List.length instance = List.length features
     /\ Forall2 (fun feature v => typed (Feature.type feature) v = true)
                features instance)
  /\ (forall rows instances,
        sanitizeInstances engine features (VArr rows) = Ok instances ->
        List.length instances = List.length rows
        /\ Forall (fun instance =>
                     List.length instance = List.length features
                     /\ Forall2 (fun feature v => typed (Feature.type feature) v = true)
                                features instance)
                  instances).
Proof.
  assert (Hrow : forall row instance,
             decode_row engine features row = Ok instance ->
             List.length instance = List.length features
             /\ Forall2 (fun feature v => typed (Feature.type feature) v = true)
                        features instance).
  { intros row instance H. pose proof (decode_row_typed _ _ _ _ H) as Ht.
    split; [symmetry; apply (Forall2_length_eq _ _ _ Ht) | exact Ht]. }
  split; [exact Hrow |].
  intros rows instances H. rewrite sanitizeInstances_rows in H.
  split; [apply (mapM_length _ _ _ H) |].
  apply Forall_forall. intros instance Hin.
  destruct (mapM_In _ _ _ _ H Hin) as (i & _ & Hi). apply (Hrow _ _ Hi).
Qed.

Lemma sanitizeInstances_typed_witness :
  List.length [[VNull; VStr "setosa"]; [VNum (Fin 51 (-1)); VNull]] = 2%nat
  /\ Forall (fun instance =>
               List.length instance = List.length species_schema
               /\ Forall2 (fun feature v => typed (Feature.type feature) v = true)
                          species_schema instance)
            [[VNull; VStr "setosa"]; [VNum (Fin 51 (-1)); VNull]].
Proof.
  apply (proj2 (sanitizeInstances_typed plain_engine species_schema)
           [VObj [("species", VStr "setosa")];
            VObj [("sepalLength", VStr "5.1"); ("petal", VNum (Fin 2 0))]]).
  reflexivity.
Defined.

Lemma decode_row_empty engine (features : list Feature.t) :
  decode_row engine features (VObj []) = Ok (map (fun _ => VNull) features).
Proof.
  unfold decode_row. induction features as [| f features IH]; [reflexivity |].
  cbn [mapM map]. rewrite IH. reflexivity.
Qed.

Lemma ToNumber_error engine (v : value) (e : Error) :
  ToNumber engine v = Throw e -> e = TypeError.
Proof.
  destruct v as [| | [|] | n | s | [t |] | p f | items | props];
    cbn [ToNumber]; try discriminate;
    (destruct (ToString engine _) as [s |] eqn:E; cbn [bind];
     [discriminate | intros H; injection H as <-; apply (ToString_error _ _ _ E)]).
Qed.

Lemma turnInto_error engine (data : value) (ty : FeatureType) (e : Error) :
  turnInto engine data ty = Throw e -> e = TypeError.
Proof.
  unfold turnInto. intros H. destruct ty.
  - destruct data; try discriminate H;
      (destruct (ToString engine _) eqn:E in H; cbn [bind] in H;
       [discriminate | injection H as <-; apply (ToString_error _ _ _ E)]).
  - destruct data; try discriminate H;
      (destruct (ToString engine _) eqn:E in H; cbn [bind] in H;
       [discriminate | injection H as <-; apply (ToString_error _ _ _ E)]).
  - destruct data; try discriminate H;
      (destruct (ToNumber engine _) as [n' |] eqn:E in H; cbn [bind] in H;
       [destruct (isNaN n'); discriminate
       | injection H as <-; apply (ToNumber_error _ _ _ E)]).
  - destruct data as [| | b | n | s | tv | p f | items | props];
      try discriminate H.
    destruct (String.eqb s "true" || String.eqb s "1"); [discriminate |].
    destruct (String.eqb s "false" || String.eqb s "0"); discriminate.
  - destruct data; try discriminate H;
      match type of H with
      | match ?r with _ => _ end = _ => destruct r; discriminate
      end.
Qed.

Lemma decode_row_error engine (features : list Feature.t) (row : value) (e : Error) :
  decode_row engine features row = Throw e -> e = TypeError.
Proof.
  unfold decode_row. intros H.
  destruct (mapM_error _ _ _ H) as (f & _ & Hf).
  destruct (get row (Feature.name f)) eqn:E; cbn [bind] in Hf.
  - apply (turnInto_error _ _ _ _ Hf).
  - injection Hf as <-. apply (get_error _ _ _ E).
Qed.

(** X10. The edges of [sanitizeInstances]: a body that is no array gives no
    instance; an element that is no object (a number, a string, a boolean,
    undefined) gives an instance of nulls; a [null] element, whose [typeof]
    is ["object"], makes the call raise a TypeError as soon as there is a
    feature to read, so that no instance of the body is returned. No other
    exception than a TypeError leaves the call. *)
Theorem sanitizeInstances_edges (engine : Engine) (features : list Feature.t) :
  (forall body, is_array body = false ->
                sanitizeInstances engine features body = Ok [])
  /\ (forall i, String.eqb (typeof i) "object" = false ->
                sanitizeInstances engine features (VArr [i])
                = Ok [map (fun _ => VNull) features])
  /\ (forall before after,
        features <> [] ->
        sanitizeInstances engine features (VArr (before ++ VNull :: after)%list)
        = Throw TypeError)
  /\ (forall body e,
        sanitizeInstances engine features body = Throw e -> e = TypeError).
Proof.
  assert (Herr : forall body e,
             sanitizeInstances engine features body = Throw e -> e = TypeError).
  { intros body e H. destruct body; try discriminate H.
    rewrite sanitizeInstances_rows in H.
    destruct (mapM_error _ _ _ H) as (i & _ & Hi).
    apply (decode_row_error _ _ _ _ Hi). }
  split; [| split; [| split; [| exact Herr]]].
  - intros body H. destruct body; try reflexivity. discriminate H.
  - intros i H. rewrite sanitizeInstances_rows. cbn [mapM]. rewrite H. cbn [negb].
    rewrite decode_row_empty. reflexivity.
  - intros before after Hf.
    destruct (sanitizeInstances engine features (VArr (before ++ VNull :: after)%list))
      as [instances | e] eqn:H.
    2:{ f_equal. apply (Herr _ _ H). }
    exfalso. rewrite sanitizeInstances_rows in H.
    apply mapM_Forall2 in H.
    apply Forall2_app_inv_l in H. destruct H as (l1 & l2 & _ & H & _).
    inversion H as [| ? y ? ? Hnull _]; subst.
    destruct features as [| f features]; [contradiction |].
    discriminate Hnull.
Qed.

Lemma sanitizeInstances_edges_witness :
  sanitizeInstances plain_engine species_schema (VStr "rows") = Ok []
  /\ sanitizeInstances plain_engine species_schema (VArr [VNum (Fin 7 0)])
     = Ok [[VNull; VNull]]
  /\ sanitizeInstances plain_engine species_schema
       (VArr ([VObj [("species", VStr "setosa")]] ++ VNull :: [VObj []])%list)
     = Throw TypeError.
Proof.
  destruct (sanitizeInstances_edges plain_engine species_schema) as (H1 & H2 & H3 & _).
  split; [apply H1; reflexivity | split; [apply H2; reflexivity |]].
  apply H3. discriminate.
Defined.
(** ** The features of a new data source *)

Lemma make_fields_aligned (names types : list string) :
  forall i, aligned_from i (make_fields i names types) = true.
Proof.
  revert types. induction names as [| f names IH]; intros types i; [reflexivity |].
  cbn [make_fields aligned_from Feature.index]. rewrite Z.eqb_refl, IH. reflexivity.
Qed.

Lemma make_fields_names (names types : list string) :
  forall i, map Feature.name (make_fields i names types) = names.
Proof.
  revert types. induction names as [| f names IH]; intros types i; [reflexivity |].
  cbn [make_fields map Feature.name]. rewrite IH. reflexivity.
Qed.

Lemma make_fields_default (names types : list string) :
  forall i k f,
    nth_error (make_fields i names types) k = Some f ->
    (nth_error types k = None \/ nth_error types k = Some "") ->
    Feature.type f = text.
Proof.
  revert types. induction names as [| n names IH]; intros types i k f.
  - destruct k; discriminate.
  - destruct k as [| k]; cbn [make_fields nth_error].
    + intros E; injection E as <-. cbn [Feature.type].
      destruct types as [| t types]; cbn [nth_error].
      * reflexivity.
      * intros [H | H]; [discriminate | injection H as ->; reflexivity].
    + intros E H. apply (IH _ _ _ _ E).
      destruct types; [left; destruct k; reflexivity | exact H].
Qed.

(** X11. A new data source has one feature per configured name, in the
    order of the names; each feature carries its position as its index; a
    feature without a configured type, or with an empty one, is a text
    feature. Its queue is empty and its service waits: resumed without a
    notice, the service stays where it is. *)
Theorem DataSource_new_fields (sourceFeatures sourceFeaturesTypes : list string) :
  let ds := DataSource_new sourceFeatures sourceFeaturesTypes in
  map Feature.name (fields ds) = sourceFeatures
  /\ aligned_from 0 (fields ds) = true
  /\ (forall k f,
        nth_error (fields ds) k = Some f ->
        nth_error sourceFeaturesTypes k = None
        \/ nth_error sourceFeaturesTypes k = Some "" ->
        Feature.type f = text)
  /\ updateQueue ds = []
  /\ service_step (runUpdateService ds) Resumed = runUpdateService ds.
Proof.
  cbn zeta. unfold DataSource_new. cbn [fields updateQueue].
  split; [apply make_fields_names |].
  split; [apply make_fields_aligned |].
  split; [apply make_fields_default |].
  split; reflexivity.
Qed.

Lemma DataSource_new_fields_witness :
  Feature.type
    {| Feature.index := 2; Feature.type := text; Feature.name := "picked" |} = text.
Proof.
  apply (proj1 (proj2 (proj2
           (DataSource_new_fields ["sepalLength"; "species"; "picked"]
                                  ["numeric"; "nominal"]))) 2%nat).
  - reflexivity.
  - left; reflexivity.
Defined.

(** ** A stored row read back *)

Lemma lookup_assign_same (k : string) (v : value) (props : list (string * value)) :
  lookup k (assign k v props) = Some v.
Proof.
  induction props as [| [k' v'] props IH]; cbn [assign lookup].
  - rewrite String.eqb_refl. reflexivity.
  - destruct (String.eqb k k') eqn:E; cbn [lookup].
    + rewrite String.eqb_refl. reflexivity.
    + rewrite E. exact IH.
Qed.

Lemma lookup_assign_other (k k' : string) (v : value)
  (props : list (string * value)) :
  String.eqb k k' = false -> lookup k (assign k' v props) = lookup k props.
Proof.
  intros Hk. induction props as [| [k'' v''] props IH]; cbn [assign lookup].
  - rewrite Hk. reflexivity.
  - destruct (String.eqb k' k'') eqn:E; cbn [lookup].
    + apply String.eqb_eq in E. subst k''. rewrite Hk. reflexivity.
    + rewrite IH. reflexivity.
Qed.

Lemma lookup_row_other (i : list value) (k : string) (fs : list Feature.t) :
  forall row,
    includes (map Feature.name fs) k = false ->
    lookup k
      (fold_left (fun row feature =>
                    assign (Feature.name feature)
                           (instance_at i (Feature.index feature)) row) fs row)
    = lookup k row.
Proof.
  induction fs as [| f fs IH]; intros row H; [reflexivity |].
  cbn [map] in H. unfold includes in H. cbn [existsb] in H.
  apply orb_false_iff in H. destruct H as (Hk & H).
  cbn [fold_left]. rewrite IH by exact H. apply lookup_assign_other, Hk.
Qed.

Lemma lookup_row (i : list value) (fs : list Feature.t) :
  distinct (map Feature.name fs) = true ->
  forall row f,
    In f fs ->
    lookup (Feature.name f)
      (fold_left (fun row feature =>
                    assign (Feature.name feature)
                           (instance_at i (Feature.index feature)) row) fs row)
    = Some (instance_at i (Feature.index f)).
Proof.
  induction fs as [| g fs IH]; intros Hd row f Hin; [contradiction |].
  cbn [map distinct] in Hd. apply andb_prop in Hd. destruct Hd as (Hg & Hd).
  apply negb_true_iff in Hg. cbn [fold_left].
  destruct Hin as [<- | Hin]; [| apply (IH Hd _ _ Hin)].
  rewrite lookup_row_other by exact Hg. apply lookup_assign_same.
Qed.

Lemma instance_at_app (before : list value) (v : value) (after : list value) :
  instance_at (before ++ v :: after)%list (Z.of_nat (List.length before)) = v.
Proof.
  unfold instance_at.
  destruct (Z.ltb_spec (Z.of_nat (List.length before)) 0) as [H | _]; [lia |].
  rewrite Nat2Z.id, app_nth2 by lia. rewrite Nat.sub_diag. reflexivity.
Qed.

Lemma aligned_fixed engine (fs : list Feature.t) (vs : list value) :
  Forall2 (fun feature v => typed (Feature.type feature) v = true) fs vs ->
  forall before,
    aligned_from (Z.of_nat (List.length before)) fs = true ->
    mapM (fun f => turnInto engine (instance_at (before ++ vs)%list (Feature.index f))
                            (Feature.type f)) fs
    = Ok vs.
Proof.
  induction 1 as [| f v fs vs Hfv _ IH]; intros before Ha; [reflexivity |].
  cbn [aligned_from] in Ha. apply andb_prop in Ha. destruct Ha as (Hi & Ha).
  apply Z.eqb_eq in Hi. cbn [mapM].
  rewrite Hi, instance_at_app, (typed_fixed _ _ _ Hfv). cbn [bind].
  specialize (IH (before ++ [v])%list).
  rewrite <- app_assoc in IH. cbn [app] in IH. rewrite IH; [reflexivity |].
  rewrite length_app. cbn [List.length].
  replace (Z.of_nat (List.length before + 1)) with (Z.of_nat (List.length before) + 1)
    by lia.
  exact Ha.
Qed.

Lemma mongo_row_decodes engine (fs : list Feature.t) (instance : list value) :
  aligned_from 0 fs = true ->
  distinct (map Feature.name fs) = true ->
  Forall2 (fun feature v => typed (Feature.type feature) v = true) fs instance ->
  decode_row engine fs (mongo_row fs instance) = Ok instance.
Proof.
  intros Ha Hd Ht. unfold decode_row, mongo_row.
  rewrite (mapM_ext _ (fun f => turnInto engine (instance_at instance (Feature.index f))
                                         (Feature.type f))).
  - apply (aligned_fixed engine fs instance Ht []). exact Ha.
  - intros f Hf. cbn [get]. rewrite (lookup_row instance fs Hd [] f Hf).
    reflexivity.
Qed.

(** X12. A stored row reads back as the instance it was built from: where
    the features carry their positions as indices and have distinct names,
    the row that [pushInstances] builds for an instance with one value of
    the right type per feature decodes, by the loop of [query], to that
    instance. So it is for every instance that [sanitizeInstances]
    returns. *)
Theorem mongo_row_round_trip (engine : Engine) (fs : list Feature.t) :
  aligned_from 0 fs = true ->
  distinct (map Feature.name fs) = true ->
  (forall instance,
     Forall2 (fun feature v => typed (Feature.type feature) v = true) fs instance ->
     decode_row engine fs (mongo_row fs instance) = Ok instance)
  /\ (forall body instances,
        sanitizeInstances engine fs body = Ok instances ->
        Forall (fun instance =>
                  decode_row engine fs (mongo_row fs instance) = Ok instance)
               instances).
Proof.
  intros Ha Hd. split.
  - intros instance. apply mongo_row_decodes; assumption.
  - intros body instances H. destruct body; try (injection H as <-; constructor).
    rewrite sanitizeInstances_rows in H.
    apply Forall_forall. intros instance Hin.
    destruct (mapM_In _ _ _ _ H Hin) as (i & _ & Hi).
    apply mongo_row_decodes; try assumption.
    apply (decode_row_typed _ _ _ _ Hi).
Qed.

Lemma mongo_row_round_trip_witness :
  decode_row plain_engine iris_fields
    (mongo_row iris_fields [VNum (Fin 51 (-1)); VStr "setosa"; VNull])
  = Ok [VNum (Fin 51 (-1)); VStr "setosa"; VNull].
Proof.
  apply (proj1 (mongo_row_round_trip plain_engine iris_fields eq_refl eq_refl)).
  repeat constructor.
Defined.
(** ** The handlers of the update controller, all or nothing *)

(** X13. The handlers of the update controller do all or nothing to the data
    source. The handler of [POST /update/push] either answers 200, and then
    it was authorized, the body was sanitized to instances, all of them went
    to the tail of the queue and one update was noticed; or it answers 401
    to a request that was not authorized, or rejects with an exception, and
    then the data source is as it was: nothing was enqueued and nothing was
    noticed. The handler of [POST /update/notice] answers 200 and notices
    one update, or answers 401 and changes nothing; it never touches the
    queue or the collection. *)
Theorem StatusController_all_or_nothing (engine : Engine)
  (Store : Type) (backend : Backend Store) (authorized : bool) (body : value)
  (ds : DataSource) (st : Store) :
  match StatusController_pushInstances engine Store backend authorized body (ds, st)
  with
  | (Ok status, (ds', st')) =>
      (status = 401 /\ authorized = false /\ ds' = ds /\ st' = st)
      \/ (status = 200 /\ authorized = true
          /\ exists instances,
               sanitizeInstances engine (fields ds)
                 (if ToBoolean body then body else VArr []) = Ok instances
               /\ insertMany backend (map (mongo_row (fields ds)) instances) st
                  = (Ok tt, st')
               /\ ds' = noticed (enqueued instances ds))
  | (Throw e, (ds', st')) => authorized = true /\ ds' = ds
  end
  /\ StatusController_noticeUpdate Store authorized (ds, st)
     = if authorized then (Ok 200, (noticed ds, st)) else (Ok 401, (ds, st)).
Proof.
  split; [| destruct authorized; reflexivity].
  unfold StatusController_pushInstances. destruct authorized; cbn [negb].
  2:{ left. repeat split; reflexivity. }
  unfold and_then at 1. unfold this at 1. cbn [fst].
  unfold and_then at 1. unfold lift at 1.
  destruct (sanitizeInstances engine (fields ds)
              (if ToBoolean body then body else VArr [])) as [instances | e] eqn:Hs.
  2:{ split; reflexivity. }
  unfold and_then at 1. rewrite pushInstances_run.
  destruct (connect backend st) as [[] | e]; [| split; reflexivity].
  destruct (insertMany backend (map (mongo_row (fields ds)) instances) st)
    as [[[] | e] st'] eqn:Hi; [| split; reflexivity].
  right. split; [reflexivity | split; [reflexivity |]].
  exists instances. split; [reflexivity | split; [exact Hi | reflexivity]].
Qed.

(** ** The update service *)

Lemma backlog_step (sv : Service) (ev : Event) :
  backlog (service_step sv ev) = (backlog sv ++ pushed_by [ev])%list.
Proof.
  destruct sv as [ds ph po ac]. unfold backlog, pushed_by.
  cbn [flat_map]. rewrite app_nil_r.
  destruct ev as [instances | | | reply];
    cbn [service_step source phase posted accepted].
  - cbn [enqueued updateQueue]. rewrite <- !app_assoc. reflexivity.
  - cbn [noticed updateQueue]. rewrite app_nil_r. reflexivity.
  - rewrite app_nil_r. destruct ph as [| b | b |]; cbn [source phase accepted];
      try reflexivity.
    destruct (acquire (updateSem ds)) as [sem |]; [| reflexivity].
    destruct (negb (requiredUpdate ds) && (List.length (updateQueue ds) =? 0)%nat);
      cbn [source phase accepted updateQueue in_flight].
    + unfold enter_loop. destruct (closed ds); reflexivity.
    + rewrite firstn_skipn. reflexivity.
  - rewrite app_nil_r. destruct ph as [| b | b |]; cbn [source phase accepted];
      try reflexivity.
    destruct (sendInstancesToDeepIntelligence reply);
      cbn [source phase accepted in_flight]; [| reflexivity].
    rewrite concat_app. cbn [List.concat]. rewrite app_nil_r, <- app_assoc.
    unfold enter_loop. destruct (closed ds); reflexivity.
Qed.

Lemma pushed_by_app (l r : list Event) :
  pushed_by (l ++ r) = (pushed_by l ++ pushed_by r)%list.
Proof. unfold pushed_by. apply flat_map_app. Qed.

Lemma service_run_snoc (sv : Service) (events : list Event) (ev : Event) :
  service_run sv (events ++ [ev]) = service_step (service_run sv events) ev.
Proof. unfold service_run. rewrite fold_left_app. reflexivity. Qed.

Lemma backlog_run (sv : Service) (events : list Event) :
  backlog (service_run sv events) = (backlog sv ++ pushed_by events)%list.
Proof.
  induction events as [| ev events IH] using rev_ind.
  - cbn. rewrite app_nil_r. reflexivity.
  - rewrite service_run_snoc, backlog_step, IH, pushed_by_app, app_assoc.
    reflexivity.
Qed.

(** X14. The service delivers first in, first out, and loses and repeats
    nothing: at every moment, whatever the handlers, the replies and the
    order of the events, the accepted batches one after the other, then the
    batch in flight, then the queue, are the instances that were in the
    queue at the start followed by the instances that were pushed since, in
    the order of the pushes. *)
Theorem service_first_in_first_out (ds : DataSource) (events : list Event) :
  let sv := service_run (runUpdateService ds) events in
  (List.concat (accepted sv) ++ in_flight (phase sv) ++ updateQueue (source sv))%list
  = (updateQueue ds ++ pushed_by events)%list.
Proof.
  cbn zeta. pose proof (backlog_run (runUpdateService ds) events) as H.
  unfold backlog in H. rewrite H.
  unfold runUpdateService, enter_loop. cbn [accepted phase source List.concat app].
  destruct (closed ds); reflexivity.
Qed.

Lemma length_firstn_limit {A : Type} (l : list A) :
  (List.length (firstn DEEPINT_UPDATE_INSTANCES_LIMIT l)
   <= DEEPINT_UPDATE_INSTANCES_LIMIT)%nat.
Proof. rewrite length_firstn. apply Nat.le_min_l. Qed.

Lemma bounded_step (sv : Service) (ev : Event) :
  Forall (fun b => (List.length b <= DEEPINT_UPDATE_INSTANCES_LIMIT)%nat)
         (in_flight (phase sv) :: posted sv ++ accepted sv) ->
  Forall (fun b => (List.length b <= DEEPINT_UPDATE_INSTANCES_LIMIT)%nat)
         (in_flight (phase (service_step sv ev))
          :: posted (service_step sv ev) ++ accepted (service_step sv ev))
  /\ (batches_taken (service_step sv ev) + updateSem (source (service_step sv ev))
      <= batches_taken sv + updateSem (source sv) + notices [ev])%nat.
Proof.
  intros Hb. destruct sv as [ds ph po ac]. unfold batches_taken, notices.
  cbn [source phase posted accepted] in *.
  apply Forall_cons_iff in Hb. destruct Hb as (Hfl & Hpo).
  apply Forall_app in Hpo. destruct Hpo as (Hpo & Hac).
  assert (Hnil : (@List.length (list value) [] <= DEEPINT_UPDATE_INSTANCES_LIMIT)%nat)
    by (cbn; lia).
  assert (Hkeep : forall (fl : list (list value)) po' ac',
             (List.length fl <= DEEPINT_UPDATE_INSTANCES_LIMIT)%nat ->
             Forall (fun b => (List.length b <= DEEPINT_UPDATE_INSTANCES_LIMIT)%nat) po' ->
             Forall (fun b => (List.length b <= DEEPINT_UPDATE_INSTANCES_LIMIT)%nat) ac' ->
             Forall (fun b => (List.length b <= DEEPINT_UPDATE_INSTANCES_LIMIT)%nat)
                    (fl :: po' ++ ac')).
  { intros fl po' ac' H1 H2 H3. constructor; [exact H1 |].
    apply Forall_app. split; assumption. }
  assert (Hsnoc : forall l (b : list (list value)),
             Forall (fun b => (List.length b <= DEEPINT_UPDATE_INSTANCES_LIMIT)%nat) l ->
             (List.length b <= DEEPINT_UPDATE_INSTANCES_LIMIT)%nat ->
             Forall (fun b => (List.length b <= DEEPINT_UPDATE_INSTANCES_LIMIT)%nat)
                    (l ++ [b])).
  { intros l b H1 H2. apply Forall_app. split; [exact H1 |].
    constructor; [exact H2 | constructor]. }
  destruct ev as [instances | | | reply];
    cbn [service_step source phase posted accepted filter List.length].
  - split; [apply Hkeep; assumption | cbn [enqueued updateSem]; lia].
  - split; [apply Hkeep; assumption | cbn [noticed updateSem]; lia].
  - destruct ph as [| b | b |]; cbn [source phase posted accepted in_flight];
      try (split; [apply Hkeep; assumption | lia]).
    + destruct (updateSem ds) as [| sem] eqn:Hsem; cbn [acquire].
      * cbn [source phase posted accepted in_flight]. rewrite Hsem.
        split; [apply Hkeep; assumption | lia].
      * destruct (negb (requiredUpdate ds) && (List.length (updateQueue ds) =? 0)%nat);
          cbn [source phase posted accepted in_flight updateSem].
        -- split; [| unfold enter_loop; destruct (closed ds); lia].
           unfold enter_loop. destruct (closed ds); apply Hkeep; assumption.
        -- split; [| lia].
           apply Hkeep; [apply length_firstn_limit | | assumption].
           apply Hsnoc; [assumption | apply length_firstn_limit].
    + split; [| lia]. apply Hkeep; [assumption | | assumption].
      apply Hsnoc; assumption.
  - destruct ph as [| b | b |]; cbn [source phase posted accepted in_flight];
      try (split; [apply Hkeep; assumption | lia]).
    destruct (sendInstancesToDeepIntelligence reply);
      cbn [source phase posted accepted in_flight].
    + split.
      * unfold enter_loop. destruct (closed ds);
          (apply Hkeep; [exact Hnil | assumption | apply Hsnoc; assumption]).
      * rewrite length_app. cbn [List.length].
        unfold enter_loop. destruct (closed ds); lia.
    + split; [apply Hkeep; assumption | lia].
Qed.

Lemma notices_app (l r : list Event) : notices (l ++ r) = (notices l + notices r)%nat.
Proof. unfold notices. rewrite filter_app, length_app. reflexivity. Qed.

Lemma service_bounded (sv : Service) (events : list Event) :
  Forall (fun b => (List.length b <= DEEPINT_UPDATE_INSTANCES_LIMIT)%nat)
         (in_flight (phase sv) :: posted sv ++ accepted sv) ->
  Forall (fun b => (List.length b <= DEEPINT_UPDATE_INSTANCES_LIMIT)%nat)
         (in_flight (phase (service_run sv events))
          :: posted (service_run sv events) ++ accepted (service_run sv events))
  /\ (batches_taken (service_run sv events) + updateSem (source (service_run sv events))
      <= batches_taken sv + updateSem (source sv) + notices events)%nat.
Proof.
  intros H0. induction events as [| ev events (IH1 & IH2)] using rev_ind.
  - split; [exact H0 | cbn; lia].
  - rewrite service_run_snoc.
    destruct (bounded_step (service_run sv events) ev IH1) as (H1 & H2).
    split; [exact H1 |]. rewrite notices_app. lia.
Qed.

Lemma length_concat_bound {A : Type} (n : nat) (l : list (list A)) :
  Forall (fun b => (List.length b <= n)%nat) l ->
  (List.length (List.concat l) <= n * List.length l)%nat.
Proof.
  induction 1 as [| b l Hb _ IH]; cbn [List.concat List.length]; [lia |].
  rewrite length_app. lia.
Qed.

(** X15. Every POST of the service carries at most 100 instances, and each
    notice buys at most one batch: the number of batches that the service
    took from the queue never exceeds the wake-up counter at the start plus
    the number of notices since, whatever the other events. Instances beyond
    the first hundred wait in the queue for another notice. *)
Theorem service_batches (ds : DataSource) (events : list Event) :
  let sv := service_run (runUpdateService ds) events in
  Forall (fun b => (List.length b <= DEEPINT_UPDATE_INSTANCES_LIMIT)%nat) (posted sv)
  /\ (batches_taken sv + updateSem (source sv) <= updateSem ds + notices events)%nat
  /\ (List.length (List.concat (accepted sv))
      <= DEEPINT_UPDATE_INSTANCES_LIMIT * (updateSem ds + notices events))%nat.
Proof.
  cbn zeta.
  destruct (service_bounded (runUpdateService ds) events) as (H1 & H2).
  { unfold runUpdateService, enter_loop. cbn [phase posted accepted app].
    destruct (closed ds); constructor; cbn; try lia; constructor. }
  apply Forall_cons_iff in H1. destruct H1 as (_ & H1).
  apply Forall_app in H1. destruct H1 as (Hpo & Hac).
  assert (H0 : batches_taken (runUpdateService ds) = O).
  { unfold batches_taken, runUpdateService, enter_loop. cbn [accepted phase].
    destruct (closed ds); reflexivity. }
  rewrite H0 in H2. cbn [Nat.add runUpdateService source] in H2.
  split; [exact Hpo | split; [exact H2 |]].
  pose proof (length_concat_bound _ _ Hac) as Hlen.
  unfold batches_taken in H2.
  etransitivity; [exact Hlen |]. apply Nat.mul_le_mono_l. lia.
Qed.

Lemma fails_throws (reply : Reply) :
  fails reply = true -> exists e, sendInstancesToDeepIntelligence reply = Throw e.
Proof.
  unfold fails. destruct (sendInstancesToDeepIntelligence reply) as [| e];
    [discriminate | eauto].
Qed.

Lemma retry_run (b : list (list value)) (failures : list Reply) :
  forallb fails failures = true ->
  forall ds po ac,
    service_run {| source := ds; phase := Posting b; posted := po; accepted := ac |}
                (failures_then_success failures)
    = {| source := ds; phase := enter_loop ds;
         posted := (po ++ repeat b (List.length failures))%list;
         accepted := (ac ++ [b])%list |}.
Proof.
  unfold failures_then_success.
  induction failures as [| reply failures IH]; intros Hf ds po ac.
  - cbn. rewrite app_nil_r. reflexivity.
  - cbn [forallb] in Hf. apply andb_prop in Hf. destruct Hf as (Hr & Hf).
    destruct (fails_throws _ Hr) as (e & He).
    cbn [flat_map app service_run fold_left service_step phase source posted accepted].
    rewrite He. cbn [phase source posted accepted].
    fold (service_run {| source := ds; phase := Posting b; posted := (po ++ [b])%list;
                         accepted := ac |}
            (flat_map (fun reply0 => [Replied reply0; Resumed]) failures
             ++ [Replied (Answered 200)])%list).
    rewrite (IH Hf). cbn [List.length repeat]. rewrite <- app_assoc. reflexivity.
Qed.

(** X16. A batch that the remote end refuses is posted again, unchanged,
    after each pause, until it is accepted: after [k] failures (an error, or
    a status other than 200) and then a success the service has posted the
    same batch [k] more times, has delivered it once, and is back at the
    head of its loop; the queue and the wake-up counter are as they were. *)
Theorem service_retries (sv : Service) (b : list (list value))
  (failures : list Reply) :
  phase sv = Posting b ->
  forallb fails failures = true ->
  service_run sv (failures_then_success failures)
  = {| source := source sv; phase := enter_loop (source sv);
       posted := (posted sv ++ repeat b (List.length failures))%list;
       accepted := (accepted sv ++ [b])%list |}.
Proof.
  intros Hp Hf. destruct sv as [ds ph po ac]. cbn [phase] in Hp. subst ph.
  apply retry_run, Hf.
Qed.

Lemma service_retries_witness :
  service_run
    (service_run (runUpdateService iris_source)
       [Pushed [[VNull; VStr "setosa"]]; Noticed; Resumed])
    (failures_then_success [Failed (BackendError "timeout"); Answered 503])
  = {| source := {| fields := species_schema; updateSem := O; updateQueue := [];
                    requiredUpdate := false; closed := false |};
       phase := Acquiring;
       posted := [[[VNull; VStr "setosa"]]; [[VNull; VStr "setosa"]];
                  [[VNull; VStr "setosa"]]];
       accepted := [[[VNull; VStr "setosa"]]] |}.
Proof.
  apply (service_retries
           (service_run (runUpdateService iris_source)
              [Pushed [[VNull; VStr "setosa"]]; Noticed; Resumed])
           [[VNull; VStr "setosa"]]
           [Failed (BackendError "timeout"); Answered 503]);
    reflexivity.
Defined.

Lemma quiet_step (sv : Service) (ev : Event) :
  notices [ev] = O ->
  updateSem (source sv) = O ->
  (phase sv = Acquiring \/ phase sv = Ended) ->
  updateSem (source (service_step sv ev)) = O
  /\ phase (service_step sv ev) = phase sv
  /\ posted (service_step sv ev) = posted sv
  /\ accepted (service_step sv ev) = accepted sv.
Proof.
  intros Hn Hsem Hph. destruct sv as [ds ph po ac].
  cbn [source phase posted accepted] in *.
  destruct ev as [instances | | | reply]; try discriminate Hn;
    cbn [service_step source phase posted accepted].
  - cbn [enqueued updateSem]. auto.
  - destruct Hph as [-> | ->]; cbn [source phase posted accepted]; [| auto].
    rewrite Hsem. cbn [acquire source phase posted accepted]. auto.
  - destruct Hph as [-> | ->]; cbn [source phase posted accepted]; auto.
Qed.

Lemma quiet_run (ds : DataSource) (events : list Event) :
  updateSem ds = O ->
  notices events = O ->
  updateSem (source (service_run (runUpdateService ds) events)) = O
  /\ phase (service_run (runUpdateService ds) events) = enter_loop ds
  /\ posted (service_run (runUpdateService ds) events) = []
  /\ accepted (service_run (runUpdateService ds) events) = [].
Proof.
  intros Hsem Hn. induction events as [| ev events IH] using rev_ind.
  - cbn. auto.
  - rewrite notices_app in Hn.
    destruct IH as (H1 & H2 & H3 & H4); [lia |].
    rewrite service_run_snoc.
    assert (Hph : phase (service_run (runUpdateService ds) events) = Acquiring
                  \/ phase (service_run (runUpdateService ds) events) = Ended).
    { rewrite H2. unfold enter_loop. destruct (closed ds); auto. }
    destruct (quiet_step (service_run (runUpdateService ds) events) ev)
      as (G1 & G2 & G3 & G4); [lia | assumption | assumption |].
    rewrite G2, G3, G4. auto.
Qed.

(** X17. Instances that are pushed wait for a notice: while no update is
    noticed and the wake-up counter is zero, the service posts nothing and
    delivers nothing, however many instances reach the queue and however
    often it is resumed. A notice does wake it, also on an empty queue: the
    service then posts the first hundred instances of the queue, or an
    empty batch. *)
Theorem service_waits_for_notice (ds : DataSource) (events : list Event) :
  updateSem ds = O ->
  notices events = O ->
  let sv := service_run (runUpdateService ds) events in
  posted sv = [] /\ accepted sv = []
  /\ updateQueue (source sv) = (updateQueue ds ++ pushed_by events)%list
  /\ (closed ds = false ->
      posted (service_run sv [Noticed; Resumed])
      = [firstn DEEPINT_UPDATE_INSTANCES_LIMIT (updateQueue (source sv))]).
Proof.
  intros Hsem Hn. cbn zeta.
  destruct (quiet_run ds events Hsem Hn) as (H1 & H2 & H3 & H4).
  split; [exact H3 | split; [exact H4 |]].
  pose proof (backlog_run (runUpdateService ds) events) as Hb.
  unfold backlog in Hb. rewrite H4, H2 in Hb.
  cbn [List.concat app runUpdateService accepted phase source] in Hb.
  assert (Hfl0 : in_flight (enter_loop ds) = [])
    by (unfold enter_loop; destruct (closed ds); reflexivity).
  rewrite Hfl0 in Hb. cbn [app] in Hb.
  split; [exact Hb |].
  intros Hc. unfold enter_loop in H2. rewrite Hc in H2.
  destruct (service_run (runUpdateService ds) events) as [src ph po ac].
  cbn [source phase posted accepted] in *. subst po ac ph.
  cbn [service_run fold_left service_step source phase posted accepted noticed
       updateSem acquire requiredUpdate negb andb updateQueue fields closed app].
  reflexivity.
Qed.

Lemma service_waits_for_notice_witness :
  posted (service_run
            (service_run (runUpdateService iris_source)
               [Pushed [[VNull; VStr "setosa"]]; Resumed; Replied (Answered 200);
                Pushed [[VNull; VStr "virginica"]]; Resumed])
            [Noticed; Resumed])
  = [firstn DEEPINT_UPDATE_INSTANCES_LIMIT
       (updateQueue
          (source (service_run (runUpdateService iris_source)
                     [Pushed [[VNull; VStr "setosa"]]; Resumed; Replied (Answered 200);
                      Pushed [[VNull; VStr "virginica"]]; Resumed])))].
Proof.
  apply (proj2 (proj2 (proj2
           (service_waits_for_notice iris_source
              [Pushed [[VNull; VStr "setosa"]]; Resumed; Replied (Answered 200);
               Pushed [[VNull; VStr "virginica"]]; Resumed]
              eq_refl eq_refl)))).
  reflexivity.
Defined.
(** ** The projection of a query *)

Lemma sanitizeProjection_valid (fields : list Feature.t) (projection : option string) :
  Forall (fun a => isNaN a = false /\ below_zero a = false
                   /\ exists f, field_at fields a = Some f)
         (sanitizeProjection fields projection).
Proof.
  unfold sanitizeProjection. destruct projection as [p |]; [| constructor].
  destruct (String.eqb p ""); [constructor |].
  apply Forall_forall. intros a Ha. apply filter_In in Ha. destruct Ha as (_ & Ha).
  destruct (isNaN a); [discriminate |]. destruct (below_zero a); [discriminate |].
  cbn [orb] in Ha. destruct (field_at fields a) as [f |]; [| discriminate].
  eauto.
Qed.

Lemma lookup_assign_kept (k k' : string) (v : value) (props : list (string * value)) :
  lookup k props = Some v -> lookup k (assign k' v props) = Some v.
Proof.
  intros H. destruct (String.eqb k k') eqn:E.
  - apply String.eqb_eq in E. subst k'. apply lookup_assign_same.
  - rewrite lookup_assign_other by exact E. exact H.
Qed.

Lemma project_valid (fields : list Feature.t) (projection : list number) :
  Forall (fun a => exists f, field_at fields a = Some f) projection ->
  forall mongoProjection features,
    (forall f, In f features ->
               lookup (Feature.name f) mongoProjection = Some (VNum (Fin 1 0))) ->
    exists added,
      snd (project fields projection mongoProjection features)
      = (features ++ added)%list
      /\ Forall2 (fun a f => field_at fields a = Some f) projection added
      /\ forall f, In f (features ++ added)%list ->
                   lookup (Feature.name f)
                          (fst (project fields projection mongoProjection features))
                   = Some (VNum (Fin 1 0)).
Proof.
  induction 1 as [| a projection (g & Hg) _ IH]; intros mp features Hmp.
  - exists []. rewrite app_nil_r. cbn [project fst snd].
    split; [reflexivity | split; [constructor | exact Hmp]].
  - cbn [project]. rewrite Hg.
    destruct (IH (assign (Feature.name g) (VNum (Fin 1 0)) mp) (features ++ [g])%list)
      as (added & E & Hadd & Hin).
    { intros f Hf. apply in_app_or in Hf. destruct Hf as [Hf | [<- | []]].
      - apply lookup_assign_kept, Hmp, Hf.
      - apply lookup_assign_same. }
    exists (g :: added). rewrite E, <- app_assoc. cbn [app].
    split; [reflexivity | split; [constructor; assumption |]].
    rewrite <- app_assoc in Hin. exact Hin.
Qed.

(** X18. Every index that [sanitizeProjection] returns is a number, not
    negative, that addresses a feature, and [query] accepts all of them:
    for a sanitized projection that is not empty, [query] announces one
    feature per index, in the order of the indices, and asks the collection
    for the fields named by these features. When no index of the projection
    is valid, the sanitized projection is empty and [query] announces every
    feature and asks for no projection. *)
Theorem sanitizeProjection_query (engine : Engine) (fields : list Feature.t)
  (projection : option string) (filter : option QueryTree) (order : number)
  (dir : string) (skip limit : option number) :
  let p := sanitizeProjection fields projection in
  Forall (fun a => isNaN a = false /\ below_zero a = false
                   /\ exists f, field_at fields a = Some f) p
  /\ forall features options,
       query_plan engine fields filter order dir skip limit (Some p)
       = Ok (features, options) ->
       match p with
       | [] => features = fields /\ find_projection options = None
       | _ =>
           Forall2 (fun a f => field_at fields a = Some f) p features
           /\ exists mongoProjection,
                find_projection options = Some mongoProjection
                /\ forall f, In f features ->
                             lookup (Feature.name f) mongoProjection
                             = Some (VNum (Fin 1 0))
       end.
Proof.
  cbn zeta. pose proof (sanitizeProjection_valid fields projection) as Hv.
  split; [exact Hv |].
  intros features options H. unfold query_plan in H.
  destruct (sanitizeProjection fields projection) as [| a p] eqn:Ep.
  - bind_inv H. injection H as <- <-. split; reflexivity.
  - destruct (project_valid fields (a :: p)) with (mongoProjection := @nil (string * value))
      (features := @nil Feature.t) as (added & E & Hadd & Hin).
    { apply Forall_impl with (2 := Hv). intros b (_ & _ & Hb). exact Hb. }
    { intros f []. }
    cbn [app] in E, Hin.
    destruct (project fields (a :: p) [] []) as [mp fs]. cbn [fst snd] in E, Hin.
    subst fs. bind_inv H. injection H as <- <-.
    split; [exact Hadd |]. exists mp. split; [reflexivity | exact Hin].
Qed.

Lemma sanitizeProjection_query_witness :
  Forall2 (fun a f => field_at iris_fields a = Some f)
          [Fin 2 0; Fin 0 0]
          [{| Feature.index := 2; Feature.type := text; Feature.name := "picked" |};
           {| Feature.index := 0; Feature.type := numeric;
              Feature.name := "sepalLength" |}]
  /\ exists mongoProjection,
       Some [("picked", VNum (Fin 1 0)); ("sepalLength", VNum (Fin 1 0))]
       = Some mongoProjection
       /\ forall f,
            In f [{| Feature.index := 2; Feature.type := text;
                     Feature.name := "picked" |};
                  {| Feature.index := 0; Feature.type := numeric;
                     Feature.name := "sepalLength" |}] ->
            lookup (Feature.name f) mongoProjection = Some (VNum (Fin 1 0)).
Proof.
  apply (proj2 (sanitizeProjection_query plain_engine iris_fields
                  (Some "2, x,-1,7,0") None (Fin (-1) 0) "" None None)
           [{| Feature.index := 2; Feature.type := text; Feature.name := "picked" |};
            {| Feature.index := 0; Feature.type := numeric;
               Feature.name := "sepalLength" |}]
           {| find_filter := VObj []; find_sort := None;
              find_projection :=
                Some [("picked", VNum (Fin 1 0)); ("sepalLength", VNum (Fin 1 0))];
              find_skip := None; find_limit := None |}).
  reflexivity.
Defined.

(** ** Decimal index strings *)

Lemma decimal_of_N_inj (a b : N) : decimal_of_N a = decimal_of_N b -> a = b.
Proof.
  unfold decimal_of_N. intros H.
  apply DecimalN.Unsigned.to_uint_inj.
  assert (E : NilEmpty.uint_of_string (NilEmpty.string_of_uint (N.to_uint a))
              = NilEmpty.uint_of_string (NilEmpty.string_of_uint (N.to_uint b)))
    by (rewrite H; reflexivity).
  rewrite !NilEmpty.usu in E. injection E as E. exact E.
Qed.

Lemma index_lookup_nth {A : Type} (items : list A) :
  forall i k,
    index_lookup (decimal_of_N (i + k)) i items = nth_error items (N.to_nat k).
Proof.
  induction items as [| x items IH]; intros i k; cbn [index_lookup].
  - destruct (N.to_nat k); reflexivity.
  - destruct (String.eqb (decimal_of_N (i + k)) (decimal_of_N i)) eqn:E.
    + apply String.eqb_eq, decimal_of_N_inj in E.
      assert (k = 0%N) by lia. subst k. reflexivity.
    + assert (Hk : k <> 0%N).
      { intros ->. rewrite N.add_0_r, String.eqb_refl in E. discriminate. }
      replace (i + k)%N with ((i + 1) + (k - 1))%N by lia.
      rewrite IH.
      replace (N.to_nat k) with (S (N.to_nat (k - 1))) by lia. reflexivity.
Qed.

Lemma strip_zeros_spec (l : list ascii) :
  0 <= snd (strip_zeros l)
  /\ l = (repeat "0"%char (Z.to_nat (snd (strip_zeros l))) ++ fst (strip_zeros l))%list.
Proof.
  induction l as [| c l (IH1 & IH2)]; [split; [reflexivity | reflexivity] |].
  cbn [strip_zeros].
  destruct (Ascii.eqb c "0") eqn:E.
  - apply Ascii.eqb_eq in E. subst c.
    destruct (strip_zeros l) as [d z]. cbn [fst snd] in *.
    split; [lia |].
    replace (Z.to_nat (z + 1)) with (S (Z.to_nat z)) by lia.
    cbn [repeat app]. f_equal. exact IH2.
  - assert (Hs : strip_zeros (c :: l) = (c :: l, 0)).
    { destruct c as [[] [] [] [] [] [] [] []]; try reflexivity.
      discriminate E. }
    cbn [strip_zeros] in Hs. rewrite Hs. split; [reflexivity | reflexivity].
Qed.

Lemma length_string_of_list_ascii (l : list ascii) :
  String.length (string_of_list_ascii l) = List.length l.
Proof. induction l as [| c l IH]; cbn; [reflexivity | rewrite IH; reflexivity]. Qed.

Lemma length_list_ascii_of_string (s : string) :
  List.length (list_ascii_of_string s) = String.length s.
Proof. induction s as [| c s IH]; cbn; [reflexivity | rewrite IH; reflexivity]. Qed.

Lemma rev_repeat_same {A : Type} (x : A) (n : nat) : rev (repeat x n) = repeat x n.
Proof.
  induction n as [| n IH]; [reflexivity |].
  cbn [repeat rev]. rewrite IH. symmetry. apply repeat_cons.
Qed.

Lemma Number_toString_index (k : N) :
  (String.length (decimal_of_N k) <= 21)%nat ->
  Number_toString (index_number k) = decimal_of_N k.
Proof.
  destruct k as [| p]; [reflexivity |].
  intros Hlen. unfold index_number, Number_toString. cbn [Z.of_N Z.ltb Z.compare Z.abs_N].
  pose proof (strip_zeros_spec (rev (list_ascii_of_string (decimal_of_N (N.pos p)))))
    as (Hz & Hrev).
  destruct (strip_zeros (rev (list_ascii_of_string (decimal_of_N (N.pos p)))))
    as [rd z]. cbn [fst snd] in Hz, Hrev.
  assert (Hall : list_ascii_of_string (decimal_of_N (N.pos p))
                 = (rev rd ++ repeat "0"%char (Z.to_nat z))%list).
  { rewrite <- (rev_involutive (list_ascii_of_string _)), Hrev, rev_app_distr,
            rev_repeat_same. reflexivity. }
  assert (Hk : Z.of_nat (String.length (string_of_list_ascii (rev rd)))
               + 0 + z
               = Z.of_nat (String.length (decimal_of_N (N.pos p)))).
  { rewrite <- (length_list_ascii_of_string (decimal_of_N _)), Hall,
            length_string_of_list_ascii, length_app, repeat_length. lia. }
  set (digits := string_of_list_ascii (rev rd)) in *.
  set (kk := Z.of_nat (String.length digits)) in *.
  assert (H1 : (kk <=? kk + 0 + z) = true) by (apply Z.leb_le; lia).
  assert (H2 : (kk + 0 + z <=? 21) = true) by (apply Z.leb_le; lia).
  rewrite H1, H2. cbn [andb append].
  replace (kk + 0 + z - kk) with z by lia.
  unfold zeros, digits. rewrite <- string_of_list_ascii_app, <- Hall.
  apply string_of_list_ascii_of_string.
Qed.

Lemma field_at_index (fields : list Feature.t) (k : N) :
  (String.length (decimal_of_N k) <= 21)%nat ->
  field_at fields (index_number k) = nth_error fields (N.to_nat k).
Proof.
  intros H. unfold field_at. rewrite (Number_toString_index _ H).
  apply (index_lookup_nth fields 0 k).
Qed.

Lemma read_digits_uint (d : Decimal.uint) :
  forall rest acc len,
    read_digits 10 (list_ascii_of_string (NilEmpty.string_of_uint d) ++ rest)%list acc len
    = read_digits 10 rest
        (DecimalPos.Unsigned.of_lu (Decimal.rev d)
         + acc * 10 ^ DecimalPos.Unsigned.usize d)%N
        (len + Z.of_N (DecimalPos.Unsigned.usize d)).
Proof.
  induction d; intros rest acc len;
    [ cbn; f_equal; lia
    | cbn [NilEmpty.string_of_uint list_ascii_of_string app read_digits];
      match goal with
      | |- context [digit_val 10 ?c] =>
          let v := eval vm_compute in (digit_val 10 c) in
          change (digit_val 10 c) with v
      end;
      cbv iota beta; rewrite IHd;
      match goal with
      | |- context [Decimal.rev (?c d)] =>
          change (Decimal.rev (c d)) with (Decimal.revapp d (c Decimal.Nil));
          rewrite (DecimalPos.Unsigned.of_lu_revapp d (c Decimal.Nil))
      end;
      cbn [DecimalPos.Unsigned.of_lu DecimalPos.Unsigned.usize];
      rewrite N.pow_succ_r';
      f_equal; [ring | lia] .. ].
Qed.

Lemma usize_positive (d : Decimal.uint) :
  d <> Decimal.Nil -> 0 < Z.of_N (DecimalPos.Unsigned.usize d).
Proof. destruct d; [contradiction | cbn [DecimalPos.Unsigned.usize]; lia ..]. Qed.

Lemma to_uint_nonnil (k : N) : N.to_uint k <> Decimal.Nil.
Proof.
  destruct k as [| p]; [discriminate |].
  apply DecimalPos.Unsigned.to_uint_nonnil.
Qed.

Lemma parseInt10_decimal (k : N) : parseInt10 (decimal_of_N k) = index_number k.
Proof.
  unfold parseInt10, decimal_of_N, index_number.
  pose proof (to_uint_nonnil k) as Hnil.
  pose proof (DecimalN.Unsigned.of_to k) as Hk.
  set (d := N.to_uint k) in *.
  assert (Hhead : (let l := drop_spaces (list_ascii_of_string (NilEmpty.string_of_uint d)) in
                   match l with
                   | "-"%char :: r => (true, r)
                   | "+"%char :: r => (false, r)
                   | _ => (false, l)
                   end)
                  = (false, list_ascii_of_string (NilEmpty.string_of_uint d))).
  { destruct d; [contradiction | reflexivity ..]. }
  cbv zeta in Hhead. rewrite Hhead.
  rewrite <- (List.app_nil_r (list_ascii_of_string _)), read_digits_uint.
  cbn [read_digits]. rewrite N.mul_0_l, N.add_0_r, Z.add_0_l.
  destruct (Z.ltb_spec 0 (Z.of_N (DecimalPos.Unsigned.usize d))) as [_ | H].
  2:{ pose proof (usize_positive d Hnil). lia. }
  rewrite <- DecimalPos.Unsigned.of_uint_alt.
  change (Pos.of_uint d) with (N.of_uint d). rewrite Hk. reflexivity.
Qed.

Lemma string_of_uint_length (d : Decimal.uint) :
  String.length (NilEmpty.string_of_uint d)
  = N.to_nat (DecimalPos.Unsigned.usize d).
Proof.
  induction d; cbn [NilEmpty.string_of_uint String.length DecimalPos.Unsigned.usize];
    [reflexivity | rewrite IHd; lia ..].
Qed.

Lemma normal_head (d : Decimal.uint) :
  Decimal.unorm d = d ->
  d = Decimal.D0 Decimal.Nil \/ (1 <= DecimalPos.Unsigned.hd d)%N.
Proof.
  destruct d; intros H; try (right; cbn; lia).
  - discriminate H.
  - left. rewrite DecimalFacts.unorm_D0 in H.
    destruct d; [reflexivity | exfalso ..];
      match type of H with
      | Decimal.unorm ?u = _ =>
          assert (Hu : u <> Decimal.Nil) by discriminate;
          pose proof (DecimalFacts.nb_digits_unorm u Hu) as Hn;
          rewrite H in Hn; cbn [Decimal.nb_digits] in Hn; lia
      end.
Qed.

Lemma of_lu_rev_lower (d : Decimal.uint) :
  (DecimalPos.Unsigned.hd d * 10 ^ DecimalPos.Unsigned.usize (DecimalPos.Unsigned.tl d)
   <= DecimalPos.Unsigned.of_lu (Decimal.rev d))%N.
Proof.
  destruct d; [cbn; lia | ..];
    match goal with
    | |- context [Decimal.rev (?c ?d')] =>
        change (Decimal.rev (c d')) with (Decimal.revapp d' (c Decimal.Nil));
        rewrite (DecimalPos.Unsigned.of_lu_revapp d' (c Decimal.Nil))
    end;
    cbn [DecimalPos.Unsigned.hd DecimalPos.Unsigned.tl DecimalPos.Unsigned.of_lu]; lia.
Qed.

Lemma decimal_digits (k : N) :
  (k < 10 ^ 21)%N -> (String.length (decimal_of_N k) <= 21)%nat.
Proof.
  intros Hk. unfold decimal_of_N. rewrite string_of_uint_length.
  pose proof (DecimalN.Unsigned.of_to k) as Hof.
  assert (Hnorm : Decimal.unorm (N.to_uint k) = N.to_uint k).
  { rewrite <- (DecimalN.Unsigned.to_of (N.to_uint k)), Hof. reflexivity. }
  pose proof (of_lu_rev_lower (N.to_uint k)) as Hlow.
  rewrite <- DecimalPos.Unsigned.of_uint_alt in Hlow.
  change (Pos.of_uint (N.to_uint k)) with (N.of_uint (N.to_uint k)) in Hlow.
  rewrite Hof in Hlow.
  destruct (normal_head _ Hnorm) as [-> | Hhd]; [cbn; lia |].
  assert (Hsize : DecimalPos.Unsigned.usize (N.to_uint k)
                  = N.succ (DecimalPos.Unsigned.usize
                              (DecimalPos.Unsigned.tl (N.to_uint k)))).
  { destruct (N.to_uint k); [cbn in Hhd; lia | reflexivity ..]. }
  rewrite Hsize.
  destruct (N.le_gt_cases 21 (DecimalPos.Unsigned.usize
                                (DecimalPos.Unsigned.tl (N.to_uint k)))) as [Hbig | Hsmall];
    [| lia].
  exfalso.
  pose proof (N.pow_le_mono_r 10 21 _ ltac:(lia) Hbig) as Hpow.
  nia.
Qed.

(** ** A projection written as decimal indices *)

Lemma split_on_nonempty (sep : ascii) (s : string) : split_on sep s <> [].
Proof.
  destruct s as [| c s]; cbn [split_on]; [discriminate |].
  destruct (split_on sep s); [discriminate |].
  destruct (Ascii.eqb c sep); discriminate.
Qed.

Lemma split_on_plain (sep : ascii) (s : string) :
  Forall (fun c => Ascii.eqb c sep = false) (list_ascii_of_string s) ->
  split_on sep s = [s].
Proof.
  induction s as [| c s IH]; cbn [list_ascii_of_string split_on]; intros H;
    [reflexivity |].
  apply Forall_cons_iff in H. destruct H as (Hc & H).
  rewrite (IH H), Hc. reflexivity.
Qed.

Lemma split_on_piece (sep : ascii) (s t : string) :
  Forall (fun c => Ascii.eqb c sep = false) (list_ascii_of_string s) ->
  split_on sep (s ++ String sep t) = s :: split_on sep t.
Proof.
  induction s as [| c s IH]; cbn [list_ascii_of_string append]; intros H.
  - cbn [split_on]. rewrite Ascii.eqb_refl.
    destruct (split_on sep t) eqn:E; [| reflexivity].
    exfalso. apply (split_on_nonempty _ _ E).
  - apply Forall_cons_iff in H. destruct H as (Hc & H).
    cbn [split_on]. rewrite (IH H), Hc. reflexivity.
Qed.

Lemma split_join (l : list string) :
  l <> [] ->
  Forall (fun s => Forall (fun c => Ascii.eqb c ","%char = false)
                          (list_ascii_of_string s)) l ->
  split_on ","%char (join_comma l) = l.
Proof.
  induction l as [| x l IH]; intros Hne H; [contradiction |].
  apply Forall_cons_iff in H. destruct H as (Hx & H).
  destruct l as [| y l].
  - apply split_on_plain, Hx.
  - change (join_comma (x :: y :: l))
      with (x ++ String ","%char (join_comma (y :: l))).
    rewrite (split_on_piece _ _ _ Hx), IH; [reflexivity | discriminate | exact H].
Qed.

Lemma string_of_uint_no_comma (d : Decimal.uint) :
  Forall (fun c => Ascii.eqb c ","%char = false)
         (list_ascii_of_string (NilEmpty.string_of_uint d)).
Proof.
  induction d; cbn [NilEmpty.string_of_uint list_ascii_of_string];
    constructor; try assumption; reflexivity.
Qed.

Lemma join_comma_nonempty (x : string) (l : list string) :
  x <> "" -> String.eqb (join_comma (x :: l)) "" = false.
Proof.
  intros Hx. destruct x as [| c x]; [contradiction |].
  destruct l; reflexivity.
Qed.

Lemma decimal_of_N_nonempty (k : N) : decimal_of_N k <> "".
Proof.
  unfold decimal_of_N. pose proof (to_uint_nonnil k) as H.
  destruct (N.to_uint k); [contradiction | discriminate ..].
Qed.

Lemma filter_all {A : Type} (p : A -> bool) (l : list A) :
  (forall x, In x l -> p x = true) -> filter p l = l.
Proof.
  induction l as [| x l IH]; intros H; [reflexivity |].
  cbn [filter]. rewrite (H x) by (left; reflexivity).
  rewrite IH; [reflexivity |]. intros y Hy. apply H. right; exact Hy.
Qed.

(** X19. A projection written as the decimal indices of features, separated
    by commas, is read back as these indices, in their order and with their
    repetitions, and each of them addresses the feature at its position,
    for a data source of at most 10^21 features. *)
Theorem sanitizeProjection_round_trip (fields : list Feature.t) (ks : list N) :
  (N.of_nat (List.length fields) <= 10 ^ 21)%N ->
  ks <> [] ->
  Forall (fun k => (k < N.of_nat (List.length fields))%N) ks ->
  sanitizeProjection fields (Some (join_comma (map decimal_of_N ks)))
  = map index_number ks
  /\ Forall (fun k => field_at fields (index_number k)
                      = nth_error fields (N.to_nat k)) ks.
Proof.
  intros Hsize Hne Hks.
  assert (Hat : Forall (fun k => field_at fields (index_number k)
                                 = nth_error fields (N.to_nat k)) ks).
  { apply Forall_impl with (2 := Hks). intros k Hk.
    apply field_at_index, decimal_digits. lia. }
  split; [| exact Hat].
  unfold sanitizeProjection.
  destruct ks as [| k ks]; [contradiction |].
  cbn [map]. rewrite (join_comma_nonempty _ _ (decimal_of_N_nonempty k)).
  change (decimal_of_N k :: map decimal_of_N ks) with (map decimal_of_N (k :: ks)).
  rewrite split_join.
  2:{ discriminate. }
  2:{ apply Forall_forall. intros s Hs. apply in_map_iff in Hs.
      destruct Hs as (k' & <- & _). apply string_of_uint_no_comma. }
  rewrite map_map.
  rewrite (map_ext _ index_number) by (intros; apply parseInt10_decimal).
  change (index_number k :: map index_number ks) with (map index_number (k :: ks)).
  apply filter_all. intros a Ha. apply in_map_iff in Ha.
  destruct Ha as (k' & <- & Hk').
  rewrite Forall_forall in Hat, Hks.
  rewrite (Hat _ Hk'). specialize (Hks _ Hk').
  unfold index_number. cbn [isNaN below_zero orb].
  destruct (Z.ltb_spec (Z.of_N k') 0) as [H | _]; [lia |].
  destruct (nth_error fields (N.to_nat k')) eqn:E; [reflexivity |].
  apply nth_error_None in E. lia.
Qed.

Lemma sanitizeProjection_round_trip_witness :
  sanitizeProjection iris_fields (Some "2,0,2") = [Fin 2 0; Fin 0 0; Fin 2 0]
  /\ Forall (fun k => field_at iris_fields (index_number k)
                      = nth_error iris_fields (N.to_nat k)) [2%N; 0%N; 2%N].
Proof.
  apply (sanitizeProjection_round_trip iris_fields [2%N; 0%N; 2%N]).
  - vm_compute. discriminate.
  - discriminate.
  - repeat constructor.
Defined.
(** ** The sanitizer on tame inputs *)

(** X2. The sanitizer returns, at every depth, on every input that has no
    [null] where a node is expected and no own property [toString] among the
    properties of its nodes; the tree that it returns is in canonical
    form. *)
Theorem sanitizeQueryTree_tame (engine : Engine) (tree : value) (depth : Z) :
  tame tree = true ->
  exists t, sanitizeQueryTree engine tree depth = Ok t /\ canonical t = true.
Proof.
  intros H. destruct (sanitizeQueryTree_returns engine tree depth H) as (t & Ht).
  exists t. split; [exact Ht |].
  pose proof (sanitize_levels_canonical engine
                (Z.to_nat (QUERY_TREE_MAX_DEPH - depth)) tree depth) as Hc.
  unfold sanitizeQueryTree in Ht. rewrite Ht in Hc. exact Hc.
Qed.

Lemma sanitizeQueryTree_tame_witness :
  exists t, sanitizeQueryTree plain_engine anyof_chain 0 = Ok t /\ canonical t = true.
Proof.
  apply (sanitizeQueryTree_tame plain_engine anyof_chain 0). reflexivity.
Defined.

(** ** Escaped literals *)

Lemma needs_escape_backslash : needs_escape backslash = true.
Proof. reflexivity. Qed.

Lemma escape_chars_inj (s t : string) : escape_chars s = escape_chars t -> s = t.
Proof.
  revert t. induction s as [| c s IH]; intros t H.
  - destruct t as [| d t]; [reflexivity |].
    cbn [escape_chars] in H. destruct (needs_escape d); discriminate H.
  - destruct t as [| d t].
    { cbn [escape_chars] in H. destruct (needs_escape c); discriminate H. }
    cbn [escape_chars] in H.
    destruct (needs_escape c) eqn:Hc, (needs_escape d) eqn:Hd.
    + injection H as <- H. f_equal. apply IH, H.
    + injection H as <- _. rewrite needs_escape_backslash in Hd. discriminate.
    + injection H as -> _. rewrite needs_escape_backslash in Hc. discriminate.
    + injection H as <- H. f_equal. apply IH, H.
Qed.

Lemma escape_chars_length (s : string) :
  (String.length s <= String.length (escape_chars s) <= 2 * String.length s)%nat.
Proof.
  induction s as [| c s IH]; cbn [escape_chars String.length]; [lia |].
  destruct (needs_escape c); cbn [String.length]; lia.
Qed.

Lemma escape_chars_plain (s : string) :
  forallb (fun c => negb (needs_escape c)) (list_ascii_of_string s) = true ->
  escape_chars s = s.
Proof.
  induction s as [| c s IH]; cbn [list_ascii_of_string forallb escape_chars];
    [reflexivity |].
  intros H. apply andb_prop in H. destruct H as (Hc & H).
  apply negb_true_iff in Hc. rewrite Hc, (IH H). reflexivity.
Qed.

(** X20. [escapeRegExp] loses nothing: two strings with the same escaped
    form are the same string. The escaped form is at least as long as the
    string and at most twice as long, and a string without a character of
    the escaped class is its own escaped form. On anything but a string the
    call raises a TypeError. *)
Theorem escapeRegExp_injective (x y : value) (p : string) :
  escapeRegExp x = Ok p ->
  (escapeRegExp y = Ok p -> x = y)
  /\ exists s,
       x = VStr s
       /\ (String.length s <= String.length p <= 2 * String.length s)%nat
       /\ (forallb (fun c => negb (needs_escape c)) (list_ascii_of_string s) = true ->
           p = s).
Proof.
  intros Hx. destruct x as [| | | | s | | | |]; try discriminate Hx.
  injection Hx as <-. split.
  - intros Hy. destruct y as [| | | | t | | | |]; try discriminate Hy.
    injection Hy as Hy. f_equal. symmetry. apply escape_chars_inj, Hy.
  - exists s. split; [reflexivity | split; [apply escape_chars_length |]].
    apply escape_chars_plain.
Qed.

Lemma escapeRegExp_injective_witness :
  (escapeRegExp (VStr "a.b") = Ok (String "a" (String backslash ".b")) ->
   VStr "a.b" = VStr "a.b")
  /\ exists s,
       VStr "a.b" = VStr s
       /\ (String.length s <= String.length (String "a" (String backslash ".b"))
           <= 2 * String.length s)%nat
       /\ (forallb (fun c => negb (needs_escape c)) (list_ascii_of_string s) = true ->
           String "a" (String backslash ".b") = s).
Proof.
  apply (escapeRegExp_injective (VStr "a.b") (VStr "a.b")). reflexivity.
Defined.

(** ** The exits of [getNominalValues] *)

(** X21. [getNominalValues] does not use its text query: two calls that
    differ in the query only give the same outcome. The filter is compiled
    only after the feature was found to be nominal and before the
    connection: for a nominal feature an exception of the compiler rejects
    the call without a word to the backend, and a failed connection rejects
    it with the error of the backend; either way the data source and the
    collection are as they were. *)
Theorem getNominalValues_exits (engine : Engine) (Store : Type)
  (backend : Backend Store) (filter : option QueryTree) (feature : number)
  (ds : DataSource) (st : Store) :
  (forall query query',
     getNominalValues engine Store backend filter query feature (ds, st)
     = getNominalValues engine Store backend filter query' feature (ds, st))
  /\ forall f query,
       field_at (fields ds) feature = Some f ->
       Feature.type f = nominal ->
       (forall e,
          toMongoFilter_of engine (fields ds) filter = Throw e ->
          forall backend',
            getNominalValues engine Store backend' filter query feature (ds, st)
            = (Throw e, (ds, st)))
       /\ (forall e cond,
             toMongoFilter_of engine (fields ds) filter = Ok cond ->
             connect backend st = Throw e ->
             getNominalValues engine Store backend filter query feature (ds, st)
             = (Throw e, (ds, st))).
Proof.
  split; [reflexivity |].
  intros f query Hf Hty. unfold field_at in Hf.
  unfold getNominalValues, and_then, this, lift, await_connect. cbn [fst snd].
  rewrite Hf, Hty. split.
  - intros e He backend'. rewrite He. reflexivity.
  - intros e cond Hc He. rewrite Hc. cbn [fst snd]. rewrite He. reflexivity.
Qed.

Lemma getNominalValues_exits_witness :
  getNominalValues plain_engine (list value) listed
    (Some (leaf "sw" 0 (Some "5"))) "set" (Fin 1 0) (iris_source, [])
  = (Throw TypeError, (iris_source, [])).
Proof.
  apply (proj1 (proj2 (getNominalValues_exits plain_engine (list value) failing
                         (Some (leaf "sw" 0 (Some "5"))) (Fin 1 0) iris_source [])
                  {| Feature.index := 1; Feature.type := nominal;
                     Feature.name := "species" |} "set" eq_refl eq_refl)
           TypeError eq_refl listed).
Defined.
(** ** The exceptions of the compiler *)

Lemma negate_keys_error (self : value -> Result value) :
  (forall x e, self x = Throw e -> e = TypeError) ->
  forall ks query e, negate_keys self ks query = Throw e -> e = TypeError.
Proof.
  intros Hself. induction ks as [| key ks IH]; intros query e; cbn [negate_keys];
    [discriminate |].
  destruct (negb (startsWith key "$")); [apply IH |].
  destruct (String.eqb key "$and").
  { destruct (prop query "$and") as [| | | | | | | items |];
      try (intros H; injection H as <-; reflexivity).
    destruct (mapM self items) as [negated | e'] eqn:E; cbn [bind]; [apply IH |].
    intros H; injection H as <-.
    destruct (mapM_error _ _ _ E) as (x & _ & Hx). apply (Hself _ _ Hx). }
  destruct (String.eqb key "$or").
  { destruct (prop query "$or") as [| | | | | | | items |];
      try (intros H; injection H as <-; reflexivity).
    destruct (mapM self items) as [negated | e'] eqn:E; cbn [bind]; [apply IH |].
    intros H; injection H as <-.
    destruct (mapM_error _ _ _ E) as (x & _ & Hx). apply (Hself _ _ Hx). }
  destruct (String.eqb key "$not"); [discriminate | apply IH].
Qed.

Lemma negate_query_error (self : value -> Result value) :
  (forall x e, self x = Throw e -> e = TypeError) ->
  forall query e, negate_query self query = Throw e -> e = TypeError.
Proof.
  intros Hself query e.
  destruct query as [| | b | n | s | tv | p fl | items | props]; cbn [negate_query];
    try discriminate; try (intros H; injection H as <-; reflexivity).
  - destruct (String.eqb s ""); [discriminate |].
    intros H; injection H as <-; reflexivity.
  - apply negate_keys_error, Hself.
Qed.

Lemma negateMongoQuery_error (query : value) (e : Error) :
  negateMongoQuery query = Throw e -> e = TypeError.
Proof.
  remember (array_depth query) as d eqn:Hd. revert query Hd e.
  induction d as [d IH] using (well_founded_induction Nat.lt_wf_0).
  intros query Hd e. subst d.
  pose (self := fun x => if (array_depth x <? array_depth query)%nat
                         then negateMongoQuery x else Throw TypeError).
  assert (Hagree : agree_below (array_depth query) negateMongoQuery self).
  { intros x Hx. unfold self.
    destruct (Nat.ltb_spec (array_depth x) (array_depth query)) as [_ | H]; [| lia].
    split; [reflexivity |].
    intros r Hr. destruct (negate_levels_enough (array_depth x) x (Nat.le_refl _))
      as (E & Hmono).
    apply Hmono. rewrite E. exact Hr. }
  rewrite negateMongoQuery_eq.
  rewrite (proj1 (negate_query_agree _ _ _ Hagree)).
  apply negate_query_error. intros x e'. unfold self.
  destruct (Nat.ltb_spec (array_depth x) (array_depth query)) as [Hx | _].
  - apply (IH _ Hx x eq_refl).
  - intros H; injection H as <-; reflexivity.
Qed.

Lemma leaf_filter_error engine features (q : QueryTree) (e : Error) :
  leaf_filter engine features q = Throw e -> e = TypeError.
Proof.
  unfold leaf_filter.
  destruct (negb (String.eqb (operation q) "null") && is_null (right q));
    [discriminate |].
  destruct (index_lookup (Number_toString (left q)) 0%N features) as [f |];
    [| discriminate].
  destruct (turnInto_nullable engine (right q) (Feature.type f)) as (cmp & ->).
  cbn [bind]. unfold compare_with, match_with.
  repeat match goal with
  | |- (if ?c then _ else _) = _ -> _ => destruct c
  end; try discriminate;
    (destruct (escapeRegExp cmp) as [s | e'] eqn:E; cbn [bind]; [discriminate |];
     intros H; injection H as <-;
     destruct cmp; try discriminate E; injection E as <-; reflexivity).
Qed.

Lemma toMongoFilter_error_tree engine features (q : QueryTree) (e : Error) :
  toMongoFilter engine features q = Throw e -> e = TypeError.
Proof.
  revert e. induction q as [ty op lf rt ch IH] using tree_nested_ind. intros e.
  rewrite toMongoFilter_eq. cbn [type children].
  assert (Hch : forall e', mapM (toMongoFilter engine features) ch = Throw e' ->
                           e' = TypeError).
  { intros e' H. destruct (mapM_error _ _ _ H) as (c & Hc & Hx).
    rewrite Forall_forall in IH. apply (IH c Hc _ Hx). }
  destruct (String.eqb ty "anyof").
  { destruct (mapM (toMongoFilter engine features) ch) as [fs | e'] eqn:E;
      cbn [bind].
    - destruct fs; discriminate.
    - intros H; injection H as <-. apply Hch. reflexivity. }
  destruct (String.eqb ty "allof").
  { destruct (mapM (toMongoFilter engine features) ch) as [fs | e'] eqn:E;
      cbn [bind].
    - destruct fs; discriminate.
    - intros H; injection H as <-. apply Hch. reflexivity. }
  destruct (String.eqb ty "not").
  { destruct (mapM (toMongoFilter engine features) ch) as [fs | e'] eqn:E;
      cbn [bind].
    - destruct fs; [discriminate | apply negateMongoQuery_error].
    - intros H; injection H as <-. apply Hch. reflexivity. }
  apply leaf_filter_error.
Qed.

(** X22. The negation and the compiler raise nothing but a TypeError,
    whatever the filter, the tree and the names of the features; so does the
    path of a request filter through [sanitizeFilter] and [toMongoFilter].
    The recursion of the negation never runs out: it goes down one level of
    arrays at each call. *)
Theorem toMongoFilter_only_TypeError (engine : Engine) (features : list Feature.t) :
  (forall query, only_TypeError (negateMongoQuery query))
  /\ (forall q, only_TypeError (toMongoFilter engine features q))
  /\ (forall json,
        only_TypeError
          (q <- sanitizeFilter engine json ;; toMongoFilter_of engine features q)).
Proof.
  unfold only_TypeError. split; [| split].
  - intros query. destruct (negateMongoQuery query) eqn:E; [exact I |].
    apply (negateMongoQuery_error _ _ E).
  - intros q. destruct (toMongoFilter engine features q) eqn:E; [exact I |].
    apply (toMongoFilter_error_tree _ _ _ _ E).
  - intros json. unfold sanitizeFilter.
    destruct (negb (ToBoolean json)); cbn [bind toMongoFilter_of]; [exact I |].
    pose proof (sanitize_levels_canonical engine
                  (Z.to_nat (QUERY_TREE_MAX_DEPH - 0)) json 0) as Hs.
    unfold sanitizeQueryTree.
    destruct (sanitize_levels engine (Z.to_nat (QUERY_TREE_MAX_DEPH - 0)) json 0)
      as [t | e']; cbn [bind toMongoFilter_of]; [| exact Hs].
    destruct (toMongoFilter engine features t) eqn:E; [exact I |].
    apply (toMongoFilter_error_tree _ _ _ _ E).
Qed.
(** ** How the string matches relate *)

Lemma occurs_weaker (start finish ic start' finish' ic' : bool) (s t : string) :
  (start' = true -> start = true) ->
  (finish' = true -> finish = true) ->
  (ic = true -> ic' = true) ->
  occurs start finish ic s t -> occurs start' finish' ic' s t.
Proof.
  intros Hs Hf Hi (before & found & after & E & Hfold & Hb & Ha).
  exists before, found, after. split; [exact E |].
  split; [| split; [intros H; apply Hb, Hs, H | intros H; apply Ha, Hf, H]].
  destruct ic'; [| destruct ic; [discriminate (Hi eq_refl) | exact Hfold]].
  destruct ic; [exact Hfold |].
  cbn [fold_case] in *. rewrite Hfold. reflexivity.
Qed.

Lemma append_empty_r (s : string) : s ++ "" = s.
Proof. induction s as [| c s IH]; cbn; [reflexivity | rewrite IH; reflexivity]. Qed.

Lemma occurs_empty (start finish ic : bool) (t : string) :
  start && finish = false -> occurs start finish ic "" t.
Proof.
  intros H. destruct start.
  - destruct finish; [discriminate H |].
    exists "", "", t. repeat split; try reflexivity. discriminate.
  - exists t, "", "". rewrite append_empty_r. repeat split; try reflexivity.
    discriminate.
Qed.

(** X23. The string matches are ordered by strength. For one literal, a
    subject that a pattern of the compiler matches is matched by every
    pattern with fewer anchors or with the flag [i] added: what sw or ew
    match, cn matches, and what cn, sw or ew match, cni, swi or ewi match.
    The pattern of an empty literal matches every subject. Every pattern of
    the compiler is well formed: the test gives an answer. *)
Theorem string_match_strength (start finish ic : bool) (s t : string) :
  (forall start' finish' ic',
     (start' = true -> start = true) ->
     (finish' = true -> finish = true) ->
     (ic = true -> ic' = true) ->
     regex_test ((if start then "^" else "") ++ escape_chars s
                 ++ (if finish then "$" else ""))
                (if ic then "i" else "") t = Some true ->
     regex_test ((if start' then "^" else "") ++ escape_chars s
                 ++ (if finish' then "$" else ""))
                (if ic' then "i" else "") t = Some true)
  /\ (start && finish = false ->
      regex_test ((if start then "^" else "") ++ escape_chars ""
                  ++ (if finish then "$" else ""))
                 (if ic then "i" else "") t = Some true)
  /\ exists b,
       regex_test ((if start then "^" else "") ++ escape_chars s
                   ++ (if finish then "$" else ""))
                  (if ic then "i" else "") t = Some b.
Proof.
  split; [| split].
  - intros start' finish' ic' Hs Hf Hi H.
    destruct (regex_test_literal start finish ic s t) as (b & Hb & Hocc).
    rewrite Hb in H. injection H as ->.
    destruct (regex_test_literal start' finish' ic' s t) as (b' & Hb' & Hocc').
    rewrite Hb'. f_equal. apply Hocc'.
    apply (occurs_weaker start finish ic); try assumption. apply Hocc. reflexivity.
  - intros H.
    destruct (regex_test_literal start finish ic "" t) as (b & Hb & Hocc).
    rewrite Hb. f_equal. apply Hocc. apply occurs_empty, H.
  - destruct (regex_test_literal start finish ic s t) as (b & Hb & _). eauto.
Qed.

Lemma string_match_strength_witness :
  regex_test ("" ++ escape_chars "Set" ++ "") "i" "setosa" = Some true
  /\ regex_test ("^" ++ escape_chars "" ++ "") "" "setosa" = Some true.
Proof.
  split.
  - apply (proj1 (string_match_strength true false true "Set" "setosa")
             false false true); try reflexivity. discriminate.
  - apply (proj1 (proj2 (string_match_strength true false false "Set" "setosa"))).
    reflexivity.
Defined.
(** ** What [query] asks of the collection *)

Lemma lookup_assign (k k' : string) (v : value) (props : list (string * value)) :
  lookup k (assign k' v props)
  = if String.eqb k k' then Some v else lookup k props.
Proof.
  destruct (String.eqb k k') eqn:E.
  - apply String.eqb_eq in E. subst k'. apply lookup_assign_same.
  - apply lookup_assign_other, E.
Qed.

Lemma project_keys (fields : list Feature.t) (projection : list number) :
  forall mongoProjection features,
    (forall k v, lookup k mongoProjection = Some v ->
                 v = VNum (Fin 1 0)
                 /\ exists f, In f features /\ Feature.name f = k) ->
    (forall f, In f features -> In f fields) ->
    (forall k v,
       lookup k (fst (project fields projection mongoProjection features)) = Some v ->
       v = VNum (Fin 1 0)
       /\ exists f, In f (snd (project fields projection mongoProjection features))
                    /\ Feature.name f = k)
    /\ (forall f, In f (snd (project fields projection mongoProjection features)) ->
                  In f fields).
Proof.
  induction projection as [| a projection IH]; intros mp features Hmp Hin;
    cbn [project]; [split; assumption |].
  destruct (field_at fields a) as [g |] eqn:Hg; [| apply IH; assumption].
  apply IH.
  - intros k v. rewrite lookup_assign.
    destruct (String.eqb k (Feature.name g)) eqn:E.
    + intros H; injection H as <-. split; [reflexivity |].
      apply String.eqb_eq in E. exists g. split; [| symmetry; exact E].
      apply in_or_app. right. left. reflexivity.
    + intros H. destruct (Hmp _ _ H) as (Hv & f & Hf & Hk).
      split; [exact Hv |]. exists f. split; [| exact Hk].
      apply in_or_app. left. exact Hf.
  - intros f Hf. apply in_app_or in Hf. destruct Hf as [Hf | [<- | []]].
    + apply Hin, Hf.
    + apply (index_lookup_In _ _ _ _ Hg).
Qed.

(** X24. What [query] asks of the collection is well formed and comes from
    the data source: the filter is the compiled filter; every announced
    feature is a feature of the data source; a skip or a limit is asked for
    only when it is above zero; a sort is asked for only on the field of the
    feature that [order] addresses, descending for the direction "desc" and
    ascending for every other direction; a projection names only announced
    features, each with 1. The call rejects, before it connects, exactly
    when the filter does not compile. *)
Theorem query_plan_well_formed (engine : Engine) (fields : list Feature.t)
  (filter : option QueryTree) (order : number) (dir : string)
  (skip limit : option number) (projection : option (list number)) :
  match query_plan engine fields filter order dir skip limit projection with
  | Throw e => toMongoFilter_of engine fields filter = Throw e
  | Ok (features, options) =>
      toMongoFilter_of engine fields filter = Ok (find_filter options)
      /\ Forall (fun f => In f fields) features
      /\ (forall n, find_skip options = Some n ->
                    skip = Some n /\ above_zero n = true)
      /\ (forall n, find_limit options = Some n ->
                    limit = Some n /\ above_zero n = true)
      /\ (forall k d,
            find_sort options = Some (k, d) ->
            at_least_zero order = true
            /\ (exists f, field_at fields order = Some f /\ Feature.name f = k)
            /\ d = (if String.eqb dir "desc" then -1 else 1))
      /\ (forall mongoProjection,
            find_projection options = Some mongoProjection ->
            forall k v,
              lookup k mongoProjection = Some v ->
              v = VNum (Fin 1 0)
              /\ exists f, In f features /\ Feature.name f = k)
  end.
Proof.
  unfold query_plan.
  assert (Hp : exists mp features,
             match projection with
             | Some (f :: rest) =>
                 let '(p, fs) := project fields (f :: rest) [] [] in (Some p, fs)
             | _ => (None, fields)
             end = (mp, features)
             /\ Forall (fun f => In f fields) features
             /\ forall mongoProjection,
                  mp = Some mongoProjection ->
                  forall k v,
                    lookup k mongoProjection = Some v ->
                    v = VNum (Fin 1 0)
                    /\ exists f, In f features /\ Feature.name f = k).
  { assert (Hall : Forall (fun f : Feature.t => In f fields) fields)
      by (apply Forall_forall; auto).
    destruct projection as [[| a p] |];
      try (exists None, fields; split; [reflexivity | split; [exact Hall | discriminate]]).
    destruct (project_keys fields (a :: p) [] []) as (H1 & H2).
    { intros k v H. discriminate H. }
    { intros f []. }
    destruct (project fields (a :: p) [] []) as [mp fs]. cbn [fst snd] in H1, H2.
    exists (Some mp), fs. split; [reflexivity |].
    split; [apply Forall_forall; exact H2 |].
    intros mp' E; injection E as <-. exact H1. }
  destruct Hp as (mp & features & -> & Hfs & Hmp).
  destruct (toMongoFilter_of engine fields filter) as [cond1 | e]; cbn [bind];
    [| reflexivity].
  cbn [find_filter find_skip find_limit find_sort find_projection].
  split; [reflexivity | split; [exact Hfs |]].
  split; [| split; [| split; [| exact Hmp]]].
  - intros n. destruct skip as [m |]; [| discriminate].
    destruct (above_zero m) eqn:E; [| discriminate].
    intros H; injection H as <-. split; [reflexivity | exact E].
  - intros n. destruct limit as [m |]; [| discriminate].
    destruct (above_zero m) eqn:E; [| discriminate].
    intros H; injection H as <-. split; [reflexivity | exact E].
  - intros k d. destruct (at_least_zero order); [| discriminate].
    destruct (field_at fields order) as [f |]; [| discriminate].
    intros H; injection H as <- <-.
    split; [reflexivity | split; [eauto | reflexivity]].
Qed.

Lemma query_plan_well_formed_witness :
  at_least_zero (Fin 1 0) = true
  /\ (exists f, field_at iris_fields (Fin 1 0) = Some f /\ Feature.name f = "species")
  /\ -1 = (if String.eqb "desc" "desc" then -1 else 1).
Proof.
  exact (proj1 (proj2 (proj2 (proj2 (proj2
           (query_plan_well_formed plain_engine iris_fields None (Fin 1 0) "desc"
              (Some (Fin 10 0)) (Some (Fin 0 0)) (Some [Fin 1 0]))))))
           "species" (-1) eq_refl).
Defined.
